(** * Placement agents and checkpoint manager: a shallow embedding

    The Python backend of the chip-placement service is embedded as pure
    functions.  Floating-point numbers are rendered as rationals ([Q]);
    every random draw the Python code takes from [random] or [torch] is an
    explicit argument; a Python exception is the [None] of an [option]
    (or the [Raise] of a result type in the checkpoint manager).

    Part I holds the definitions, module by module as in the source tree;
    Part II holds the properties; Part III holds further properties of
    the code. *)

From Stdlib Require Import QArith Qminmax Qround Qpower Lqa Lia Ascii String.
From Stdlib Require OrderedTypeEx.
From stdpp Require Import gmap strings list sorting.

(** ** Part I: the model *)

(** *** Tensor helpers (the slice of torch / numpy the agents use) *)

Module Tensor.
Local Open Scope Q_scope.

Definition Qltb (x y : Q) : bool := if Qlt_le_dec x y then true else false.

Fixpoint qsum (xs : list Q) : Q :=
  match xs with
  | [] => 0
  | x :: rest => x + qsum rest
  end.

Definition dot (w x : list Q) : Q := qsum (zip_with Qmult w x).

(** [tensor.mean()]; the empty mean is NaN in torch, [0] here. *)
Definition mean (xs : list Q) : Q := qsum xs / inject_Z (Z.of_nat (length xs)).

(** [nn.Linear]: one weight row and one bias per output unit. *)
Record Linear := { weight : list (list Q); bias : list Q }.

(** [(out_features, in_features)] read off the stored tensors. *)
Definition Linear_shape (l : Linear) : list nat * nat :=
  (map length (weight l), length (bias l)).

(** A tensor of the wrong width makes the matrix product raise. *)
Definition linear (l : Linear) (x : list Q) : option (list Q) :=
  if forallb (fun row => length row =? length x)%nat (weight l)
  then Some (zip_with (fun row b => dot row x + b) (weight l) (bias l))
  else None.

Definition relu (x : list Q) : list Q := map (Qmax 0) x.

(** [nn.Dropout(p)] on a module in training mode: unit [i] is kept and
    rescaled by [1/(1-p)] when the drawn mask keeps it, zeroed otherwise. *)
Definition dropout (p : Q) (keep : nat -> bool) (x : list Q) : list Q :=
  imap (fun i v => if keep i then v / (1 - p) else 0) x.

(** Values of a masked array: [None] is [-inf]. *)
Definition ext_lt (a b : option Q) : bool :=
  match a, b with
  | None, None => false
  | None, Some _ => true
  | Some _, None => false
  | Some x, Some y => Qltb x y
  end.

(** [np.argmax] / [tensor.max(...)[1]]: first index of a maximal entry. *)
Fixpoint argmax_from (best_i : nat) (best : option Q) (i : nat)
    (xs : list (option Q)) : nat :=
  match xs with
  | [] => best_i
  | x :: rest =>
      if ext_lt best x then argmax_from i x (S i) rest
      else argmax_from best_i best (S i) rest
  end.

Definition argmax (xs : list (option Q)) : option nat :=
  match xs with
  | [] => None
  | x :: rest => Some (argmax_from 0 x 1 rest)
  end.

(** Entry [i] of a masked array is a number, not [-inf]. *)
Definition finite_at (xs : list (option Q)) (i : nat) : Prop :=
  exists q, xs !! i = Some (Some q).

(** [xs[idx]] with a list of indices; an index out of range raises. *)
Definition take_indices (xs : list Q) (idx : list nat) : option (list Q) :=
  mapM (fun i => xs !! i) idx.

(** [ys[idx] = vs], element by element; an index out of range raises. *)
Fixpoint put_indices (ys : list (option Q)) (idx : list nat) (vs : list Q)
    : option (list (option Q)) :=
  match idx, vs with
  | i :: idx', v :: vs' =>
      if decide (i < length ys)%nat
      then put_indices (<[i := Some v]> ys) idx' vs'
      else None
  | _, _ => Some ys
  end.

(** [tensor.max(1)[0]] on one row. *)
Definition row_max (xs : list Q) : option Q :=
  match xs with
  | [] => None
  | x :: rest => Some (fold_left Qmax rest x)
  end.

(** [nn.MSELoss()(a, b)] on vectors. *)
Definition mse (a b : list Q) : Q :=
  mean (zip_with (fun x y => (x - y) * (x - y)) a b).
End Tensor.

(** *** models/dqn.py: ReplayBuffer *)

Module ReplayBuffer.
(** [(state, action, reward, next_state, done)] *)
Record Transition := {
  t_state : list Q;
  t_action : nat;
  t_reward : Q;
  t_next_state : list Q;
  t_done : bool
}.

(** [deque(maxlen=capacity)], oldest element first. *)
Record t := { maxlen : nat; buffer : list Transition }.

Definition init (capacity : nat) : t := {| maxlen := capacity; buffer := [] |}.

(** [deque.append]: add on the right, then drop the leftmost element when
    the length went over [maxlen]. *)
Definition push (b : t) (x : Transition) : t :=
  let items := buffer b ++ [x] in
  {| maxlen := maxlen b;
     buffer := if (maxlen b <? length items)%nat then drop 1 items else items |}.

Definition len (b : t) : nat := length (buffer b).

(** [random.sample(self.buffer, batch_size)]: the elements at the drawn
    positions [picks].  What [random.sample] draws is [batch_size]
    distinct positions of the buffer; anything else is no draw of it. *)
Definition sample (b : t) (batch_size : nat) (picks : list nat)
    : option (list Transition) :=
  if decide (length picks = batch_size /\ NoDup picks)
  then mapM (fun i => buffer b !! i) picks
  else None.

Definition push_all (b : t) (xs : list Transition) : t := fold_left push xs b.
End ReplayBuffer.

(** *** What the model takes from torch as given

    The automatic-differentiation engine and the optimiser are library code:
    the gradient step of each loss is a field of this interface, as are the
    transcendental functions of the float library.  Every field that takes a
    target, a return or an advantage takes it as plain numbers: that is how
    [torch.no_grad()] and [.detach()] appear here. *)

Module Torch.
Import Tensor.
Local Open Scope Q_scope.

(** Masks drawn by the two [nn.Dropout] layers during one forward pass. *)
Record DropMasks := { drop1 : nat -> bool; drop2 : nat -> bool }.

(** [optim.Adam]: the learning rate of its parameter group and the
    moment estimates it keeps. *)
Record Adam (moments : Type) := { lr : Q; adam_state : moments }.
Arguments lr {moments} _.
Arguments adam_state {moments} _.

Class Backend := {
  (** [exp] of the float library: never negative, and zero where the
      result underflows, far enough below 0 *)
  exp : Q -> Q;
  exp_nonneg : forall x, 0 <= exp x;
  (** [log] and [sqrt] of the float library *)
  ln : Q -> Q;
  sqrt : Q -> Q;
  moments : Type;
  (** the optimiser state of a fresh [optim.Adam] *)
  moments_init : moments;
}.

(** [hidden_size: int = 128], never overridden by the agents. *)
Definition hidden_size : nat := 128.

(** [nn.Dropout(0.2)] *)
Definition dropout_p : Q := 2 # 10.

(** Initial weights drawn by [nn.Linear]: layer, row and column give the
    weight, layer and row the bias. *)
Record Init := { init_w : nat -> nat -> nat -> Q; init_b : nat -> nat -> Q }.

Definition Linear_init (r : Init) (layer inp out : nat) : Linear :=
  {| weight := map (fun i => map (fun j => init_w r layer i j) (seq 0 inp)) (seq 0 out);
     bias := map (fun i => init_b r layer i) (seq 0 out) |}.

(** [nn.Sequential(Linear, ReLU, Dropout(0.2), Linear, ReLU, Dropout(0.2),
    Linear)], the body of [QNetwork], [PolicyNetwork], [ActorNetwork] and
    [CriticNetwork].  No agent ever calls [eval()] on its modules, so the
    dropout layers are live in every forward pass. *)
Record MLP := { fc1 : Linear; fc2 : Linear; fc3 : Linear }.

Definition MLP_init (r : Init) (inp out : nat) : MLP :=
  {| fc1 := Linear_init r 0 inp hidden_size;
     fc2 := Linear_init r 1 hidden_size hidden_size;
     fc3 := Linear_init r 2 hidden_size out |}.

Definition MLP_forward (n : MLP) (m : DropMasks) (x : list Q) : option (list Q) :=
  h1 ← linear (fc1 n) x;
  h2 ← linear (fc2 n) (dropout dropout_p (drop1 m) (relu h1));
  linear (fc3 n) (dropout dropout_p (drop2 m) (relu h2)).

Definition MLP_shape (n : MLP) : list (list nat * nat) :=
  [Linear_shape (fc1 n); Linear_shape (fc2 n); Linear_shape (fc3 n)].

(** The sizes [nn.Linear(inp, out)] allocates, and those of the stack. *)
Definition Linear_dims (inp out : nat) : list nat * nat := (replicate out inp, out).

Definition MLP_dims (inp out : nat) : list (list nat * nat) :=
  [Linear_dims inp hidden_size; Linear_dims hidden_size hidden_size;
   Linear_dims hidden_size out].

(** [torch.softmax(logits, dim=-1)], computed as the library does on the
    logits shifted by their maximum: the largest entry goes through
    [exp] at 0, and an entry far below it may underflow to 0. *)
Definition softmax `{Backend} (logits : list Q) : list Q :=
  let top := default 0 (row_max logits) in
  let e := map (fun x => exp (x - top)) logits in
  map (fun x => x / qsum e) e.

(** [mask = torch.zeros(action_size); mask[available_actions] = 1.0];
    an index out of range raises. *)
Fixpoint fill_indices (ys : list Q) (idx : list nat) (v : Q) : option (list Q) :=
  match idx with
  | [] => Some ys
  | i :: idx' =>
      if decide (i < length ys)%nat
      then fill_indices (<[i := v]> ys) idx' v
      else None
  end.

(** [action_probs * mask]: the widths must agree. *)
Definition mul_mask (probs mask : list Q) : option (list Q) :=
  if decide (length probs = length mask)
  then Some (zip_with Qmult probs mask) else None.

(** [masked_probs / masked_probs.sum()] followed by
    [torch.distributions.Categorical(masked_probs)]: a zero sum gives NaN
    entries, which the constructor's argument validation rejects. *)
Definition Categorical (masked_probs : list Q) : option (list Q) :=
  let total := qsum masked_probs in
  if Qeq_bool total 0 then None
  else Some (map (fun p => p / total) masked_probs).

(** [dist.sample()] by inversion of the cumulative distribution at the
    uniform draw [u] of [[0, 1)]. *)
Fixpoint sample (probs : list Q) (u : Q) : option nat :=
  match probs with
  | [] => None
  | p :: rest => if Qltb u p then Some 0%nat else S <$> sample rest (u - p)
  end.

(** [dist.log_prob(action)] *)
Definition log_prob `{Backend} (probs : list Q) (action : nat) : option Q :=
  p ← probs !! action; Some (ln p).

(** [dist.entropy()]; a zero probability contributes nothing. *)
Definition entropy `{Backend} (probs : list Q) : Q :=
  - qsum (map (fun p => if Qeq_bool p 0 then 0 else p * ln p) probs).

(** The masking and sampling block that every policy agent's
    [select_action] carries: the normalised distribution and the action
    drawn from it. *)
Definition masked_sample (action_size : nat) (action_probs : list Q)
    (available_actions : list nat) (u : Q) : option (list Q * nat) :=
  mask ← fill_indices (replicate action_size 0) available_actions 1;
  masked_probs ← mul_mask action_probs mask;
  dist ← Categorical masked_probs;
  action ← sample dist u;
  Some (dist, action).

(** [(x - x.mean()) / (x.std() + 1e-8)], with the unbiased deviation. *)
Definition standardize `{Backend} (xs : list Q) : list Q :=
  let m := mean xs in
  let var := qsum (map (fun x => (x - m) * (x - m)) xs)
             / inject_Z (Z.of_nat (length xs - 1)) in
  map (fun x => (x - m) / (sqrt var + (1 # 100000000))) xs.

(** The backward pass over an episode: [G = reward + gamma * G]. *)
Fixpoint discounted_returns (gamma : Q) (rewards : list Q) : list Q :=
  match rewards with
  | [] => []
  | r :: rest =>
      let tail := discounted_returns gamma rest in
      (r + gamma * hd 0 tail) :: tail
  end.
End Torch.

(** *** models/dqn.py: QNetwork, DuelingQNetwork and the DQN agents *)

Module DQN.
Import Tensor Torch.
Local Open Scope Q_scope.

(** [QNetwork]: the plain stack of three linear layers. *)
Definition QNetwork := MLP.
Definition QNetwork_init := MLP_init.
Definition QNetwork_forward := MLP_forward.

(** Shared feature layer, value stream and advantage stream. *)
Record DuelingQNetwork := {
  feature_layer : Linear;
  value_stream1 : Linear;
  value_stream2 : Linear;
  advantage_stream1 : Linear;
  advantage_stream2 : Linear
}.

Definition DuelingQNetwork_init (r : Init) (state_size action_size : nat)
    : DuelingQNetwork :=
  {| feature_layer := Linear_init r 0 state_size hidden_size;
     value_stream1 := Linear_init r 1 hidden_size (hidden_size / 2);
     value_stream2 := Linear_init r 2 (hidden_size / 2) 1;
     advantage_stream1 := Linear_init r 3 hidden_size (hidden_size / 2);
     advantage_stream2 := Linear_init r 4 (hidden_size / 2) action_size |}.

(** [value + (advantage - advantage.mean(dim=1, keepdim=True))]: the value
    column has one entry, broadcast over the actions. *)
Definition combine_streams (value advantage : list Q) : option (list Q) :=
  match value with
  | [v] => Some (map (fun a => v + (a - mean advantage)) advantage)
  | _ => None
  end.

Definition DuelingQNetwork_forward (n : DuelingQNetwork) (m : DropMasks)
    (state : list Q) : option (list Q) :=
  f ← linear (feature_layer n) state;
  let features := dropout dropout_p (drop1 m) (relu f) in
  v1 ← linear (value_stream1 n) features;
  value ← linear (value_stream2 n) (relu v1);
  a1 ← linear (advantage_stream1 n) features;
  advantage ← linear (advantage_stream2 n) (relu a1);
  combine_streams value advantage.

(** The module held in [self.q_network] / [self.target_network]. *)
Inductive network :=
| Plain (n : QNetwork)
| Dueling (n : DuelingQNetwork).

Definition forward (n : network) (m : DropMasks) (state : list Q)
    : option (list Q) :=
  match n with
  | Plain q => QNetwork_forward q m state
  | Dueling d => DuelingQNetwork_forward d m state
  end.

(** The tensor sizes of a module's [state_dict()], with its key set
    (the two architectures name their layers differently). *)
Definition network_shape (n : network) : bool * list (list nat * nat) :=
  match n with
  | Plain q => (false, MLP_shape q)
  | Dueling d =>
      (true, [Linear_shape (feature_layer d);
              Linear_shape (value_stream1 d); Linear_shape (value_stream2 d);
              Linear_shape (advantage_stream1 d); Linear_shape (advantage_stream2 d)])
  end.

(** The sizes the two constructors allocate. *)
Definition network_dims (dueling : bool) (ssize asize : nat)
    : bool * list (list nat * nat) :=
  if dueling then
    (true, [Linear_dims ssize hidden_size;
            Linear_dims hidden_size (hidden_size / 2);
            Linear_dims (hidden_size / 2) 1;
            Linear_dims hidden_size (hidden_size / 2);
            Linear_dims (hidden_size / 2) asize])
  else (false, MLP_dims ssize asize).

(** [module.load_state_dict(sd)]: copies the tensors in; raises on a
    missing or unexpected key and on a size mismatch. *)
Definition network_load (current loaded : network) : option network :=
  if decide (network_shape current = network_shape loaded) then Some loaded else None.

(** The forward pass over a batch: row [i] draws its own dropout masks. *)
Definition forward_batch (n : network) (masks : nat -> DropMasks)
    (states : list (list Q)) : option (list (list Q)) :=
  mapM (fun '(i, s) => forward n (masks i) s) (zip (seq 0 (length states)) states).

(** [rows.gather(1, idx.unsqueeze(1)).squeeze(1)] *)
Definition gather (rows : list (list Q)) (idx : list nat) : option (list Q) :=
  mapM (fun '(row, a) => row !! a) (zip rows idx).

(** The three agent classes of the file. *)
Inductive agent_class := DQNAgentClass | DoubleDQNAgentClass | DuelingDQNAgentClass.

Definition is_dueling (c : agent_class) : bool :=
  match c with
  | DuelingDQNAgentClass => true
  | _ => false
  end.

(** Keyword arguments of [DQNAgent.__init__] with their defaults. *)
Record Hyper := {
  learning_rate : Q;
  h_gamma : Q;
  h_epsilon : Q;
  h_epsilon_min : Q;
  h_epsilon_decay : Q;
  buffer_size : nat;
  h_batch_size : nat;
  h_target_update_freq : nat
}.

#[warnings="-abstract-large-number"]
Definition default_hyper : Hyper :=
  {| learning_rate := 1 # 1000; h_gamma := 99 # 100; h_epsilon := 1;
     h_epsilon_min := 1 # 100; h_epsilon_decay := 995 # 1000;
     buffer_size := 10000; h_batch_size := 32; h_target_update_freq := 10 |}.

Section Agent.
Context `{B : Backend}.

(** [zero_grad(); loss.backward(); clip_grad_norm_(params, 1.0);
    optimizer.step()] for [loss = MSELoss(current_q, target_q)], where
    [current_q] is the network's value at the taken actions under the
    masks of that forward pass and [target_q] is a constant. *)
Class ValueStep := value_step :
  Adam moments -> network -> (nat -> DropMasks) ->
  list (list Q) -> list nat -> list Q -> network * Adam moments.
Context {VS : ValueStep}.

Record DQNAgent := {
  class : agent_class;
  state_size : nat;
  action_size : nat;
  gamma : Q;
  epsilon : Q;
  epsilon_min : Q;
  epsilon_decay : Q;
  batch_size : nat;
  target_update_freq : nat;
  update_counter : nat;
  q_network : network;
  target_network : network;
  optimizer : Adam moments;
  memory : ReplayBuffer.t
}.

(** Both networks have the sizes the agent's constructor gave them for its
    [state_size] and [action_size]. *)
Definition well_shaped (self : DQNAgent) : Prop :=
  network_shape (q_network self)
  = network_dims (is_dueling (class self)) (state_size self) (action_size self)
  /\ network_shape (target_network self)
     = network_dims (is_dueling (class self)) (state_size self) (action_size self).

(** [DQNAgent.__init__]; the target network is built and then
    overwritten with a copy of the online one. *)
Definition DQNAgent_init (c : agent_class) (ssize asize : nat) (h : Hyper)
    (r : Init) : DQNAgent :=
  let q := Plain (QNetwork_init r ssize asize) in
  {| class := c; state_size := ssize; action_size := asize;
     gamma := h_gamma h; epsilon := h_epsilon h;
     epsilon_min := h_epsilon_min h; epsilon_decay := h_epsilon_decay h;
     batch_size := h_batch_size h;
     target_update_freq := h_target_update_freq h;
     update_counter := 0;
     q_network := q; target_network := q;
     optimizer := {| lr := learning_rate h; adam_state := moments_init |};
     memory := ReplayBuffer.init (buffer_size h) |}.

(** [DuelingDQNAgent.__init__]: the base constructor, then both networks
    and the optimiser are replaced. *)
Definition DuelingDQNAgent_init (ssize asize : nat) (h : Hyper)
    (r r' : Init) : DQNAgent :=
  let self := DQNAgent_init DuelingDQNAgentClass ssize asize h r in
  let q := Dueling (DuelingQNetwork_init r' (state_size self) (action_size self)) in
  {| class := class self; state_size := state_size self;
     action_size := action_size self;
     gamma := gamma self; epsilon := epsilon self;
     epsilon_min := epsilon_min self; epsilon_decay := epsilon_decay self;
     batch_size := batch_size self;
     target_update_freq := target_update_freq self;
     update_counter := update_counter self;
     q_network := q; target_network := q;
     optimizer := {| lr := 1 # 1000; adam_state := moments_init |};
     memory := memory self |}.

(** What [select_action] draws: [random.random()], the position picked
    by [random.choice], and the dropout masks of the forward pass. *)
Record ActDraw := { rand_unit : Q; rand_index : nat; act_masks : DropMasks }.

(** [random.choice(seq)]; raises on an empty sequence. *)
Definition choice (available : list nat) (k : nat) : option nat :=
  available !! (k mod length available)%nat.

(** Epsilon-greedy action selection. *)
Definition select_action (self : DQNAgent) (state : list Q)
    (available_actions : list nat) (training : bool) (d : ActDraw)
    : option nat :=
  if training && Qltb (rand_unit d) (epsilon self)
  then choice available_actions (rand_index d)
  else
    q_values ← forward (q_network self) (act_masks d) state;
    picked ← take_indices q_values available_actions;
    masked_q ← put_indices (replicate (action_size self) None)
                           available_actions picked;
    argmax masked_q.

Definition remember (self : DQNAgent) (x : ReplayBuffer.Transition) : DQNAgent :=
  {| class := class self; state_size := state_size self;
     action_size := action_size self;
     gamma := gamma self; epsilon := epsilon self;
     epsilon_min := epsilon_min self; epsilon_decay := epsilon_decay self;
     batch_size := batch_size self;
     target_update_freq := target_update_freq self;
     update_counter := update_counter self;
     q_network := q_network self; target_network := target_network self;
     optimizer := optimizer self;
     memory := ReplayBuffer.push (memory self) x |}.

(** What [train_step] draws: the positions sampled from the replay
    buffer, and the dropout masks of each forward pass, row by row:
    the online network on [states], the online network on
    [next_states] (Double DQN only), the target network on
    [next_states]. *)
Record TrainDraw := {
  picks : list nat;
  masks_current : nat -> DropMasks;
  masks_select : nat -> DropMasks;
  masks_next : nat -> DropMasks
}.

(** [dones] as the float tensor it is turned into. *)
Definition done_flag (x : ReplayBuffer.Transition) : Q :=
  if ReplayBuffer.t_done x then 1 else 0.

(** [rewards + (1 - dones) * self.gamma * next_q] *)
Definition bootstrap_target (self : DQNAgent)
    (batch : list ReplayBuffer.Transition) (next_q : list Q) : list Q :=
  zip_with (fun x nq => ReplayBuffer.t_reward x + (1 - done_flag x) * gamma self * nq)
           batch next_q.

(** [if self.epsilon > self.epsilon_min: self.epsilon *= self.epsilon_decay],
    as a function of the three numbers and of the agent. *)
Definition decay_rule (eps_min eps_decay eps : Q) : Q :=
  if Qltb eps_min eps then eps * eps_decay else eps.

Definition decay_epsilon (self : DQNAgent) : Q :=
  decay_rule (epsilon_min self) (epsilon_decay self) (epsilon self).

(** The tail shared by both [train_step] bodies: the counter, the hard
    sync of the target network every [target_update_freq] updates, the
    decay of epsilon.  A zero frequency makes [%] raise. *)
Definition finish_update (self : DQNAgent) (q' : network)
    (opt' : Adam moments) : option DQNAgent :=
  let counter := S (update_counter self) in
  if (target_update_freq self =? 0)%nat then None
  else
    Some {| class := class self; state_size := state_size self;
            action_size := action_size self; gamma := gamma self;
            epsilon := decay_epsilon self;
            epsilon_min := epsilon_min self;
            epsilon_decay := epsilon_decay self;
            batch_size := batch_size self;
            target_update_freq := target_update_freq self;
            update_counter := counter;
            q_network := q';
            target_network :=
              if (counter mod target_update_freq self =? 0)%nat
              then q' else target_network self;
            optimizer := opt';
            memory := memory self |}.

(** The [torch.no_grad()] block of [DQNAgent.train_step]: the maximum of
    the target network's values at the next state. *)
Definition DQNAgent_target_q (self : DQNAgent) (d : TrainDraw)
    (batch : list ReplayBuffer.Transition) : option (list Q) :=
  let next_states := map ReplayBuffer.t_next_state batch in
  next_rows ← forward_batch (target_network self) (masks_next d) next_states;
  next_q ← mapM row_max next_rows;
  Some (bootstrap_target self batch next_q).

(** The [torch.no_grad()] block of [DoubleDQNAgent.train_step]: the online
    network picks the action, the target network values it. *)
Definition DoubleDQNAgent_target_q (self : DQNAgent) (d : TrainDraw)
    (batch : list ReplayBuffer.Transition) : option (list Q) :=
  let next_states := map ReplayBuffer.t_next_state batch in
  select_rows ← forward_batch (q_network self) (masks_select d) next_states;
  next_actions ← mapM (fun row => argmax (Some <$> row)) select_rows;
  next_rows ← forward_batch (target_network self) (masks_next d) next_states;
  next_q ← gather next_rows next_actions;
  Some (bootstrap_target self batch next_q).

(** The Double DQN target in the spec's words: [reward + (1 - done) *
    gamma * Q'(next_state, a)], where [a] maximises the online values
    [Q(next_state)] and [Q'] are the target network's values. *)
Definition maximises (q : list Q) (a : nat) : Prop :=
  exists m, q !! a = Some m /\ forall j y, q !! j = Some y -> y <= m.

Definition double_dqn_target (self : DQNAgent) (x : ReplayBuffer.Transition)
    (q_online q_target : list Q) (target : Q) : Prop :=
  exists a v,
    maximises q_online a /\ q_target !! a = Some v /\
    target = ReplayBuffer.t_reward x + (1 - done_flag x) * gamma self * v.

(** [DQNAgent.train_step] *)
Definition DQNAgent_train_step (self : DQNAgent) (d : TrainDraw)
    : option (Q * DQNAgent) :=
  if (ReplayBuffer.len (memory self) <? batch_size self)%nat
  then Some (0, self)
  else
    batch ← ReplayBuffer.sample (memory self) (batch_size self) (picks d);
    let states := map ReplayBuffer.t_state batch in
    let actions := map ReplayBuffer.t_action batch in
    rows ← forward_batch (q_network self) (masks_current d) states;
    current_q ← gather rows actions;
    target_q ← DQNAgent_target_q self d batch;
    let loss := mse current_q target_q in
    let '(q', opt') :=
      value_step (optimizer self) (q_network self) (masks_current d)
                 states actions target_q in
    self' ← finish_update self q' opt';
    Some (loss, self').

(** [DoubleDQNAgent.train_step] *)
Definition DoubleDQNAgent_train_step (self : DQNAgent) (d : TrainDraw)
    : option (Q * DQNAgent) :=
  if (ReplayBuffer.len (memory self) <? batch_size self)%nat
  then Some (0, self)
  else
    batch ← ReplayBuffer.sample (memory self) (batch_size self) (picks d);
    let states := map ReplayBuffer.t_state batch in
    let actions := map ReplayBuffer.t_action batch in
    rows ← forward_batch (q_network self) (masks_current d) states;
    current_q ← gather rows actions;
    target_q ← DoubleDQNAgent_target_q self d batch;
    let loss := mse current_q target_q in
    let '(q', opt') :=
      value_step (optimizer self) (q_network self) (masks_current d)
                 states actions target_q in
    self' ← finish_update self q' opt';
    Some (loss, self').

(** Method resolution: only [DoubleDQNAgent] overrides [train_step]. *)
Definition train_step (self : DQNAgent) (d : TrainDraw) : option (Q * DQNAgent) :=
  match class self with
  | DoubleDQNAgentClass => DoubleDQNAgent_train_step self d
  | _ => DQNAgent_train_step self d
  end.

(** The dictionary built by [state_dict]; a dictionary handed to
    [load_state_dict] may lack the ['epsilon'] key. *)
Record StateDict := {
  sd_q_network : network;
  sd_target_network : network;
  sd_optimizer : Adam moments;
  sd_epsilon : option Q
}.

Definition state_dict (self : DQNAgent) : StateDict :=
  {| sd_q_network := q_network self;
     sd_target_network := target_network self;
     sd_optimizer := optimizer self;
     sd_epsilon := Some (epsilon self) |}.

Definition load_state_dict (self : DQNAgent) (sd : StateDict) : option DQNAgent :=
  q' ← network_load (q_network self) (sd_q_network sd);
  t' ← network_load (target_network self) (sd_target_network sd);
  Some {| class := class self; state_size := state_size self;
          action_size := action_size self; gamma := gamma self;
          epsilon := default (epsilon self) (sd_epsilon sd);
          epsilon_min := epsilon_min self;
          epsilon_decay := epsilon_decay self;
          batch_size := batch_size self;
          target_update_freq := target_update_freq self;
          update_counter := update_counter self;
          q_network := q'; target_network := t';
          optimizer := sd_optimizer sd;
          memory := memory self |}.
End Agent.
End DQN.

(** *** models/policy_gradient.py: the REINFORCE agent *)

Module PolicyGradient.
Import Tensor Torch.
Local Open Scope Q_scope.

Definition PolicyNetwork := MLP.

Section Agent.
Context `{B : Backend}.

(** [PolicyNetwork.get_action_probs] *)
Definition get_action_probs (n : PolicyNetwork) (m : DropMasks)
    (state : list Q) : option (list Q) :=
  logits ← MLP_forward n m state; Some (softmax logits).

(** A saved [dist.log_prob(action)]: its value, and the inputs of the
    forward pass it hangs on in the autograd graph. *)
Record SavedLogProb := {
  slp_state : list Q;
  slp_masks : DropMasks;
  slp_available : list nat;
  slp_action : nat;
  slp_value : Q
}.

(** [zero_grad(); loss.backward(); clip_grad_norm_(params, 1.0);
    optimizer.step()] for [loss = sum(-log_prob * G)], the returns [G]
    being constants. *)
Class PolicyStep := policy_step :
  Adam moments -> PolicyNetwork -> list SavedLogProb -> list Q ->
  PolicyNetwork * Adam moments.
Context {PS : PolicyStep}.

Record PolicyGradientAgent := {
  state_size : nat;
  action_size : nat;
  gamma : Q;
  policy : PolicyNetwork;
  optimizer : Adam moments;
  saved_log_probs : list SavedLogProb;
  rewards : list Q
}.

Definition well_shaped (self : PolicyGradientAgent) : Prop :=
  MLP_shape (policy self) = MLP_dims (state_size self) (action_size self).

Definition PolicyGradientAgent_init (ssize asize : nat)
    (learning_rate gamma0 : Q) (r : Init) : PolicyGradientAgent :=
  {| state_size := ssize; action_size := asize; gamma := gamma0;
     policy := MLP_init r ssize asize;
     optimizer := {| lr := learning_rate; adam_state := moments_init |};
     saved_log_probs := []; rewards := [] |}.

Definition reset_episode (self : PolicyGradientAgent) : PolicyGradientAgent :=
  {| state_size := state_size self; action_size := action_size self;
     gamma := gamma self; policy := policy self;
     optimizer := optimizer self;
     saved_log_probs := []; rewards := [] |}.

(** The dropout masks of the forward pass and the uniform draw of
    [dist.sample()]. *)
Record ActDraw := { act_masks : DropMasks; rand_unit : Q }.

Definition select_action (self : PolicyGradientAgent) (state : list Q)
    (available_actions : list nat) (training : bool) (d : ActDraw)
    : option (nat * PolicyGradientAgent) :=
  action_probs ← get_action_probs (policy self) (act_masks d) state;
  '(dist, action) ← masked_sample (action_size self) action_probs
                                  available_actions (rand_unit d);
  if training then
    lp ← log_prob dist action;
    Some (action,
          {| state_size := state_size self; action_size := action_size self;
             gamma := gamma self; policy := policy self;
             optimizer := optimizer self;
             saved_log_probs :=
               saved_log_probs self ++
               [{| slp_state := state; slp_masks := act_masks d;
                   slp_available := available_actions;
                   slp_action := action; slp_value := lp |}];
             rewards := rewards self |})
  else Some (action, self).

Definition store_reward (self : PolicyGradientAgent) (reward : Q)
    : PolicyGradientAgent :=
  {| state_size := state_size self; action_size := action_size self;
     gamma := gamma self; policy := policy self;
     optimizer := optimizer self;
     saved_log_probs := saved_log_probs self;
     rewards := rewards self ++ [reward] |}.

(** [train_step]; [torch.stack] raises on an empty list of losses. *)
Definition train_step (self : PolicyGradientAgent)
    : option (Q * PolicyGradientAgent) :=
  if (length (rewards self) =? 0)%nat then Some (0, self)
  else
    let returns := standardize (discounted_returns (gamma self) (rewards self)) in
    let policy_loss :=
      zip_with (fun lp G => - slp_value lp * G) (saved_log_probs self) returns in
    match policy_loss with
    | [] => None
    | _ =>
        let loss := qsum policy_loss in
        let '(policy', opt') :=
          policy_step (optimizer self) (policy self)
                      (saved_log_probs self) returns in
        Some (loss,
              reset_episode
                {| state_size := state_size self;
                   action_size := action_size self;
                   gamma := gamma self; policy := policy';
                   optimizer := opt';
                   saved_log_probs := saved_log_probs self;
                   rewards := rewards self |})
    end.

Record StateDict := { sd_policy : PolicyNetwork; sd_optimizer : Adam moments }.

Definition state_dict (self : PolicyGradientAgent) : StateDict :=
  {| sd_policy := policy self; sd_optimizer := optimizer self |}.

(** [load_state_dict]; the module raises on a size mismatch. *)
Definition load_state_dict (self : PolicyGradientAgent) (sd : StateDict)
    : option PolicyGradientAgent :=
  if decide (MLP_shape (policy self) = MLP_shape (sd_policy sd)) then
    Some {| state_size := state_size self; action_size := action_size self;
            gamma := gamma self; policy := sd_policy sd;
            optimizer := sd_optimizer sd;
            saved_log_probs := saved_log_probs self;
            rewards := rewards self |}
  else None.
End Agent.
End PolicyGradient.

(** *** models/actor_critic.py *)

Module ActorCritic.
Import Tensor Torch.
Local Open Scope Q_scope.

Definition ActorNetwork := MLP.
Definition CriticNetwork := MLP.

(** A one-element tensor read as a number. *)
Definition item (xs : list Q) : option Q :=
  match xs with
  | [x] => Some x
  | _ => None
  end.

Section Agent.
Context `{B : Backend}.

Definition get_action_probs (n : ActorNetwork) (m : DropMasks)
    (state : list Q) : option (list Q) :=
  logits ← MLP_forward n m state; Some (softmax logits).

(** Saved tensors with the inputs of the forward passes they hang on. *)
Record SavedStep := {
  s_state : list Q;
  s_actor_masks : DropMasks;
  s_critic_masks : DropMasks;
  s_available : list nat;
  s_action : nat;
  s_log_prob : Q;
  s_value : Q;
  s_entropy : Q
}.

(** The two gradient steps, each clipped at norm [1.0]: the actor on
    [mean(-log_prob * advantage) - entropy_coef * mean(entropy)] with
    constant advantages, the critic on [MSELoss(values, returns)]. *)
Class ActorCriticStep := {
  actor_step : Adam moments -> ActorNetwork -> Q -> list SavedStep ->
               list Q -> ActorNetwork * Adam moments;
  critic_step : Adam moments -> CriticNetwork -> list SavedStep ->
                list Q -> CriticNetwork * Adam moments
}.
Context {ACS : ActorCriticStep}.

(** [saved_log_probs], [values] and [entropies] grow together, one
    entry per training-mode call of [select_action]: they are kept as
    one list of steps. *)
Record ActorCriticAgent := {
  state_size : nat;
  action_size : nat;
  gamma : Q;
  value_loss_coef : Q;
  entropy_coef : Q;
  actor : ActorNetwork;
  critic : CriticNetwork;
  actor_optimizer : Adam moments;
  critic_optimizer : Adam moments;
  saved : list SavedStep;
  rewards : list Q
}.

Definition well_shaped (self : ActorCriticAgent) : Prop :=
  MLP_shape (actor self) = MLP_dims (state_size self) (action_size self) /\
  MLP_shape (critic self) = MLP_dims (state_size self) 1.

Definition ActorCriticAgent_init (ssize asize : nat)
    (learning_rate gamma0 vcoef ecoef : Q) (r r' : Init) : ActorCriticAgent :=
  {| state_size := ssize; action_size := asize; gamma := gamma0;
     value_loss_coef := vcoef; entropy_coef := ecoef;
     actor := MLP_init r ssize asize;
     critic := MLP_init r' ssize 1;
     actor_optimizer := {| lr := learning_rate; adam_state := moments_init |};
     critic_optimizer := {| lr := learning_rate; adam_state := moments_init |};
     saved := []; rewards := [] |}.

Definition with_buffers (self : ActorCriticAgent) (sv : list SavedStep)
    (rw : list Q) : ActorCriticAgent :=
  {| state_size := state_size self; action_size := action_size self;
     gamma := gamma self; value_loss_coef := value_loss_coef self;
     entropy_coef := entropy_coef self;
     actor := actor self; critic := critic self;
     actor_optimizer := actor_optimizer self;
     critic_optimizer := critic_optimizer self;
     saved := sv; rewards := rw |}.

Definition reset_episode (self : ActorCriticAgent) : ActorCriticAgent :=
  with_buffers self [] [].

Record ActDraw := {
  actor_masks : DropMasks;
  critic_masks : DropMasks;
  rand_unit : Q
}.

Definition select_action (self : ActorCriticAgent) (state : list Q)
    (available_actions : list nat) (training : bool) (d : ActDraw)
    : option (nat * ActorCriticAgent) :=
  action_probs ← get_action_probs (actor self) (actor_masks d) state;
  value ← MLP_forward (critic self) (critic_masks d) state;
  '(dist, action) ← masked_sample (action_size self) action_probs
                                  available_actions (rand_unit d);
  if training then
    lp ← log_prob dist action;
    v ← item value;
    Some (action,
          with_buffers self
            (saved self ++
             [{| s_state := state; s_actor_masks := actor_masks d;
                 s_critic_masks := critic_masks d;
                 s_available := available_actions; s_action := action;
                 s_log_prob := lp; s_value := v;
                 s_entropy := entropy dist |}])
            (rewards self))
  else Some (action, self).

Definition store_reward (self : ActorCriticAgent) (reward : Q)
    : ActorCriticAgent :=
  with_buffers self (saved self) (rewards self ++ [reward]).

(** [train_step]; [torch.cat] and [torch.stack] raise on an empty list,
    and the element-wise operations on a length mismatch. *)
Definition train_step (self : ActorCriticAgent)
    : option ((Q * Q) * ActorCriticAgent) :=
  if (length (rewards self) =? 0)%nat then Some ((0, 0), self)
  else
    let returns := standardize (discounted_returns (gamma self) (rewards self)) in
    match saved self with
    | [] => None
    | _ =>
        let values := map s_value (saved self) in
        if decide (length values = length returns) then
          let advantages := zip_with Qminus returns values in
          let actor_loss :=
            zip_with (fun s a => - s_log_prob s * a) (saved self) advantages in
          let entropy_loss :=
            - entropy_coef self * mean (map s_entropy (saved self)) in
          let critic_loss := mse values returns in
          let total_actor_loss := mean actor_loss + entropy_loss in
          let '(actor', aopt') :=
            actor_step (actor_optimizer self) (actor self)
                       (entropy_coef self) (saved self) advantages in
          let '(critic', copt') :=
            critic_step (critic_optimizer self) (critic self)
                        (saved self) returns in
          Some ((total_actor_loss, critic_loss),
                reset_episode
                  {| state_size := state_size self;
                     action_size := action_size self;
                     gamma := gamma self;
                     value_loss_coef := value_loss_coef self;
                     entropy_coef := entropy_coef self;
                     actor := actor'; critic := critic';
                     actor_optimizer := aopt';
                     critic_optimizer := copt';
                     saved := saved self; rewards := rewards self |})
        else None
    end.

Record StateDict := {
  sd_actor : ActorNetwork;
  sd_critic : CriticNetwork;
  sd_actor_optimizer : Adam moments;
  sd_critic_optimizer : Adam moments
}.

Definition state_dict (self : ActorCriticAgent) : StateDict :=
  {| sd_actor := actor self; sd_critic := critic self;
     sd_actor_optimizer := actor_optimizer self;
     sd_critic_optimizer := critic_optimizer self |}.

(** [load_state_dict]; each module raises on a size mismatch. *)
Definition load_state_dict (self : ActorCriticAgent) (sd : StateDict)
    : option ActorCriticAgent :=
  if decide (MLP_shape (actor self) = MLP_shape (sd_actor sd)) then
    if decide (MLP_shape (critic self) = MLP_shape (sd_critic sd)) then
      Some {| state_size := state_size self; action_size := action_size self;
              gamma := gamma self; value_loss_coef := value_loss_coef self;
              entropy_coef := entropy_coef self;
              actor := sd_actor sd; critic := sd_critic sd;
              actor_optimizer := sd_actor_optimizer sd;
              critic_optimizer := sd_critic_optimizer sd;
              saved := saved self; rewards := rewards self |}
    else None
  else None.
End Agent.
End ActorCritic.

(** *** models/ppo.py *)

Module PPO.
Import Tensor Torch.
Local Open Scope Q_scope.

(** Shared trunk (two linear layers, each followed by ReLU and dropout),
    the actor head and the one-unit critic head. *)
Record ActorCriticNetwork := {
  shared1 : Linear;
  shared2 : Linear;
  actor : Linear;
  critic : Linear
}.

Definition ActorCriticNetwork_init (r : Init) (ssize asize : nat)
    : ActorCriticNetwork :=
  {| shared1 := Linear_init r 0 ssize hidden_size;
     shared2 := Linear_init r 1 hidden_size hidden_size;
     actor := Linear_init r 2 hidden_size asize;
     critic := Linear_init r 3 hidden_size 1 |}.

Definition ActorCriticNetwork_shape (n : ActorCriticNetwork)
    : list (list nat * nat) :=
  [Linear_shape (shared1 n); Linear_shape (shared2 n);
   Linear_shape (actor n); Linear_shape (critic n)].

Definition ActorCriticNetwork_dims (ssize asize : nat) : list (list nat * nat) :=
  [Linear_dims ssize hidden_size; Linear_dims hidden_size hidden_size;
   Linear_dims hidden_size asize; Linear_dims hidden_size 1].

(** [ActorCriticNetwork.forward]: policy logits and value. *)
Definition forward (n : ActorCriticNetwork) (m : DropMasks) (state : list Q)
    : option (list Q * list Q) :=
  h1 ← linear (shared1 n) state;
  h2 ← linear (shared2 n) (dropout dropout_p (drop1 m) (relu h1));
  let features := dropout dropout_p (drop2 m) (relu h2) in
  logits ← linear (actor n) features;
  value ← linear (critic n) features;
  Some (logits, value).

Section Agent.
Context `{B : Backend}.

Definition get_action_probs_and_value (n : ActorCriticNetwork)
    (m : DropMasks) (state : list Q) : option (list Q * list Q) :=
  '(logits, value) ← forward n m state;
  Some (softmax logits, value).

(** The rollout as the tensors handed to one epoch. *)
Record Rollout := {
  r_states : list (list Q);
  r_actions : list nat;
  r_old_log_probs : list Q;
  r_advantages : list Q;
  r_returns : list Q
}.

(** One epoch's [zero_grad(); loss.backward();
    clip_grad_norm_(params, 0.5); optimizer.step()] for the clipped
    surrogate loss over the stored rollout, whose old log-probabilities,
    advantages and returns are constants. *)
Class PPOStep := ppo_step :
  Adam moments -> ActorCriticNetwork -> (nat -> DropMasks) ->
  Q -> Q -> Q -> Rollout -> ActorCriticNetwork * Adam moments.
Context {PS : PPOStep}.

Record PPOAgent := {
  state_size : nat;
  action_size : nat;
  gamma : Q;
  epsilon_clip : Q;
  value_loss_coef : Q;
  entropy_coef : Q;
  gae_lambda : Q;
  ppo_epochs : nat;
  batch_size : nat;
  policy : ActorCriticNetwork;
  optimizer : Adam moments;
  states : list (list Q);
  actions : list nat;
  rewards : list Q;
  values : list Q;
  log_probs : list Q;
  dones : list bool
}.

(** Keyword arguments of [PPOAgent.__init__]. *)
Record Hyper := {
  learning_rate : Q;
  h_gamma : Q;
  h_epsilon_clip : Q;
  h_value_loss_coef : Q;
  h_entropy_coef : Q;
  h_gae_lambda : Q;
  h_ppo_epochs : nat;
  h_batch_size : nat
}.

Definition PPOAgent_init (ssize asize : nat) (h : Hyper) (r : Init) : PPOAgent :=
  {| state_size := ssize; action_size := asize; gamma := h_gamma h;
     epsilon_clip := h_epsilon_clip h;
     value_loss_coef := h_value_loss_coef h;
     entropy_coef := h_entropy_coef h; gae_lambda := h_gae_lambda h;
     ppo_epochs := h_ppo_epochs h; batch_size := h_batch_size h;
     policy := ActorCriticNetwork_init r ssize asize;
     optimizer := {| lr := learning_rate h; adam_state := moments_init |};
     states := []; actions := []; rewards := []; values := [];
     log_probs := []; dones := [] |}.

Definition well_shaped (self : PPOAgent) : Prop :=
  ActorCriticNetwork_shape (policy self)
  = ActorCriticNetwork_dims (state_size self) (action_size self).

(** The buffers replaced, everything else kept. *)
Definition with_trajectory (self : PPOAgent) (st : list (list Q))
    (ac : list nat) (rw vl lp : list Q) (dn : list bool) : PPOAgent :=
  {| state_size := state_size self; action_size := action_size self;
     gamma := gamma self; epsilon_clip := epsilon_clip self;
     value_loss_coef := value_loss_coef self;
     entropy_coef := entropy_coef self; gae_lambda := gae_lambda self;
     ppo_epochs := ppo_epochs self; batch_size := batch_size self;
     policy := policy self; optimizer := optimizer self;
     states := st; actions := ac; rewards := rw; values := vl;
     log_probs := lp; dones := dn |}.

Definition reset_trajectory (self : PPOAgent) : PPOAgent :=
  with_trajectory self [] [] [] [] [] [].

Record ActDraw := { act_masks : DropMasks; rand_unit : Q }.

Definition select_action (self : PPOAgent) (state : list Q)
    (available_actions : list nat) (training : bool) (d : ActDraw)
    : option (nat * PPOAgent) :=
  '(action_probs, value) ←
    get_action_probs_and_value (policy self) (act_masks d) state;
  '(dist, action) ← masked_sample (action_size self) action_probs
                                  available_actions (rand_unit d);
  if training then
    v ← ActorCritic.item value;
    lp ← log_prob dist action;
    Some (action,
          with_trajectory self
            (states self ++ [state]) (actions self ++ [action])
            (rewards self) (values self ++ [v])
            (log_probs self ++ [lp]) (dones self))
  else Some (action, self).

Definition store_reward (self : PPOAgent) (reward : Q) (done : bool)
    : PPOAgent :=
  with_trajectory self (states self) (actions self)
    (rewards self ++ [reward]) (values self) (log_probs self)
    (dones self ++ [done]).

(** A Python bool in arithmetic: [True] is 1, [False] is 0. *)
Definition done_flag (d : bool) : Q := if d then 1 else 0.

(** The loop of [compute_gae] from step [t] on, [fuel] steps long: the
    advantages of steps [t, t+1, ...], the running [gae] being the head
    of what the later steps produced ([0] past the end).  [vals] is
    [self.values + [0]]; an index out of range raises. *)
Fixpoint gae_loop (self : PPOAgent) (vals : list Q) (fuel t : nat)
    : option (list Q) :=
  match fuel with
  | O => Some []
  | S fuel' =>
      later ← gae_loop self vals fuel' (S t);
      r ← rewards self !! t;
      v_next ← vals !! S t;
      d ← dones self !! t;
      v ← vals !! t;
      let delta := r + gamma self * v_next * (1 - done_flag d) - v in
      let gae :=
        delta + gamma self * gae_lambda self * (1 - done_flag d) * hd 0 later in
      Some (gae :: later)
  end.

(** [compute_gae]: advantages and returns. *)
Definition compute_gae (self : PPOAgent) : option (list Q * list Q) :=
  let vals := values self ++ [0] in
  advantages ← gae_loop self vals (length (rewards self)) 0;
  let returns := zip_with Qplus advantages (values self) in
  Some (advantages, returns).

(** [torch.clamp(x, lo, hi)] *)
Definition clamp (lo hi x : Q) : Q := Qmin (Qmax x lo) hi.

(** The body of one epoch up to the loss: the three reported numbers. *)
Definition epoch_losses (self : PPOAgent) (n : ActorCriticNetwork)
    (masks : nat -> DropMasks) (ro : Rollout) : option (Q * Q * Q) :=
  outs ← mapM (fun '(i, s) => forward n (masks i) s)
              (zip (seq 0 (length (r_states ro))) (r_states ro));
  vals ← mapM (fun o => ActorCritic.item (snd o)) outs;
  let dists := map (fun o => softmax (fst o)) outs in
  curr_log_probs ← mapM (fun '(p, a) => log_prob p a) (zip dists (r_actions ro));
  if decide (length curr_log_probs = length (r_old_log_probs ro)
             /\ length curr_log_probs = length (r_advantages ro)
             /\ length vals = length (r_returns ro)) then
    let entropy0 := mean (map entropy dists) in
    let ratio := zip_with (fun c o => exp (c - o)) curr_log_probs (r_old_log_probs ro) in
    let surr1 := zip_with Qmult ratio (r_advantages ro) in
    let surr2 :=
      zip_with (fun x a => clamp (1 - epsilon_clip self) (1 + epsilon_clip self) x * a)
               ratio (r_advantages ro) in
    let policy_loss := - mean (zip_with Qmin surr1 surr2) in
    let value_loss := mse vals (r_returns ro) in
    Some (policy_loss, value_loss, entropy0)
  else None.

(** The epoch loop: running totals of the three losses, the network and
    the optimiser after [fuel] more epochs, the next being epoch [k]. *)
Fixpoint epochs (self : PPOAgent) (masks : nat -> nat -> DropMasks)
    (ro : Rollout) (fuel k : nat) (totals : Q * Q * Q)
    (n : ActorCriticNetwork) (opt : Adam moments)
    : option (Q * Q * Q * ActorCriticNetwork * Adam moments) :=
  match fuel with
  | O => Some (totals, n, opt)
  | S fuel' =>
      '(pl, vl, en) ← epoch_losses self n (masks k) ro;
      let '(n', opt') :=
        ppo_step opt n (masks k) (epsilon_clip self)
                 (value_loss_coef self) (entropy_coef self) ro in
      let '(tp, tv, te) := totals in
      epochs self masks ro fuel' (S k) (tp + pl, tv + vl, te + en) n' opt'
  end.

(** [train_step]; with no epoch at all the averages divide by zero. *)
Definition train_step (self : PPOAgent) (masks : nat -> nat -> DropMasks)
    : option ((Q * Q * Q) * PPOAgent) :=
  if (length (states self) =? 0)%nat then Some ((0, 0, 0), self)
  else
    '(advantages, returns) ← compute_gae self;
    let ro := {| r_states := states self; r_actions := actions self;
                 r_old_log_probs := log_probs self;
                 r_advantages := standardize advantages;
                 r_returns := returns |} in
    '(totals, policy', opt') ←
      epochs self masks ro (ppo_epochs self) 0 (0, 0, 0)
             (policy self) (optimizer self);
    if (ppo_epochs self =? 0)%nat then None
    else
      let '(tp, tv, te) := totals in
      let num_updates := inject_Z (Z.of_nat (ppo_epochs self)) in
      Some ((tp / num_updates, tv / num_updates, te / num_updates),
            reset_trajectory
              {| state_size := state_size self;
                 action_size := action_size self;
                 gamma := gamma self; epsilon_clip := epsilon_clip self;
                 value_loss_coef := value_loss_coef self;
                 entropy_coef := entropy_coef self;
                 gae_lambda := gae_lambda self;
                 ppo_epochs := ppo_epochs self;
                 batch_size := batch_size self;
                 policy := policy'; optimizer := opt';
                 states := states self; actions := actions self;
                 rewards := rewards self; values := values self;
                 log_probs := log_probs self; dones := dones self |}).

Record StateDict := { sd_policy : ActorCriticNetwork; sd_optimizer : Adam moments }.

Definition state_dict (self : PPOAgent) : StateDict :=
  {| sd_policy := policy self; sd_optimizer := optimizer self |}.

(** [load_state_dict]; the module raises on a size mismatch. *)
Definition load_state_dict (self : PPOAgent) (sd : StateDict) : option PPOAgent :=
  if decide (ActorCriticNetwork_shape (policy self)
             = ActorCriticNetwork_shape (sd_policy sd)) then
    Some {| state_size := state_size self; action_size := action_size self;
            gamma := gamma self; epsilon_clip := epsilon_clip self;
            value_loss_coef := value_loss_coef self;
            entropy_coef := entropy_coef self; gae_lambda := gae_lambda self;
            ppo_epochs := ppo_epochs self; batch_size := batch_size self;
            policy := sd_policy sd; optimizer := sd_optimizer sd;
            states := states self; actions := actions self;
            rewards := rewards self; values := values self;
            log_probs := log_probs self; dones := dones self |}
  else None.
End Agent.
End PPO.

(** *** The Agent Contract

    main.py builds one of the agent classes and calls [select_action],
    [train_step], [state_dict] and [load_state_dict] on it whatever the
    class: the dynamic dispatch is a match on the variant. *)

Module Agent.
Import Tensor Torch.
Local Open Scope Q_scope.

Section Contract.
Context `{B : Backend} {VS : DQN.ValueStep}
        {PS : PolicyGradient.PolicyStep}
        {ACS : ActorCritic.ActorCriticStep} {PPS : PPO.PPOStep}.

Inductive agent :=
| OfDQN (self : DQN.DQNAgent)
| OfPolicyGradient (self : PolicyGradient.PolicyGradientAgent)
| OfActorCritic (self : ActorCritic.ActorCriticAgent)
| OfPPO (self : PPO.PPOAgent).

Definition state_size (ag : agent) : nat :=
  match ag with
  | OfDQN self => DQN.state_size self
  | OfPolicyGradient self => PolicyGradient.state_size self
  | OfActorCritic self => ActorCritic.state_size self
  | OfPPO self => PPO.state_size self
  end.

Definition action_size (ag : agent) : nat :=
  match ag with
  | OfDQN self => DQN.action_size self
  | OfPolicyGradient self => PolicyGradient.action_size self
  | OfActorCritic self => ActorCritic.action_size self
  | OfPPO self => PPO.action_size self
  end.

Definition well_shaped (ag : agent) : Prop :=
  match ag with
  | OfDQN self => DQN.well_shaped self
  | OfPolicyGradient self => PolicyGradient.well_shaped self
  | OfActorCritic self => ActorCritic.well_shaped self
  | OfPPO self => PPO.well_shaped self
  end.

(** Everything one call of [select_action] may draw: [random.random()],
    the position [random.choice] picks, the uniform draw of
    [dist.sample()], and the dropout masks of the forward passes. *)
Record Draw := {
  rand_unit : Q;
  rand_index : nat;
  sample_unit : Q;
  masks : DropMasks;
  critic_masks : DropMasks
}.

Definition select_action (ag : agent) (state : list Q)
    (available_actions : list nat) (training : bool) (d : Draw)
    : option (nat * agent) :=
  match ag with
  | OfDQN self =>
      a ← DQN.select_action self state available_actions training
             {| DQN.rand_unit := rand_unit d; DQN.rand_index := rand_index d;
                DQN.act_masks := masks d |};
      Some (a, OfDQN self)
  | OfPolicyGradient self =>
      '(a, self') ← PolicyGradient.select_action self state available_actions training
             {| PolicyGradient.act_masks := masks d;
                PolicyGradient.rand_unit := sample_unit d |};
      Some (a, OfPolicyGradient self')
  | OfActorCritic self =>
      '(a, self') ← ActorCritic.select_action self state available_actions training
             {| ActorCritic.actor_masks := masks d;
                ActorCritic.critic_masks := critic_masks d;
                ActorCritic.rand_unit := sample_unit d |};
      Some (a, OfActorCritic self')
  | OfPPO self =>
      '(a, self') ← PPO.select_action self state available_actions training
             {| PPO.act_masks := masks d; PPO.rand_unit := sample_unit d |};
      Some (a, OfPPO self')
  end.

(** The action probabilities a policy agent's [select_action] starts
    from: [get_action_probs] of its policy (actor) network on the state.
    A value agent has none. *)
Definition action_probs (ag : agent) (state : list Q) (d : Draw)
    : option (list Q) :=
  match ag with
  | OfDQN _ => None
  | OfPolicyGradient self =>
      PolicyGradient.get_action_probs (PolicyGradient.policy self) (masks d) state
  | OfActorCritic self =>
      ActorCritic.get_action_probs (ActorCritic.actor self) (masks d) state
  | OfPPO self =>
      fst <$> PPO.get_action_probs_and_value (PPO.policy self) (masks d) state
  end.

(** Everything one call of [train_step] may draw. *)
Record TrainDraw := {
  replay : DQN.TrainDraw;
  epoch_masks : nat -> nat -> DropMasks
}.

(** [train_step]: the reported loss metrics, one, two or three of them. *)
Definition train_step (ag : agent) (d : TrainDraw) : option (list Q * agent) :=
  match ag with
  | OfDQN self =>
      '(loss, self') ← DQN.train_step self (replay d);
      Some ([loss], OfDQN self')
  | OfPolicyGradient self =>
      '(loss, self') ← PolicyGradient.train_step self;
      Some ([loss], OfPolicyGradient self')
  | OfActorCritic self =>
      '((actor_loss, critic_loss), self') ← ActorCritic.train_step self;
      Some ([actor_loss; critic_loss], OfActorCritic self')
  | OfPPO self =>
      '((policy_loss, value_loss, entropy), self') ← PPO.train_step self (epoch_masks d);
      Some ([policy_loss; value_loss; entropy], OfPPO self')
  end.

(** The buffer each [train_step] looks at before doing anything holds too
    little: fewer transitions than a batch, no reward, no stored state. *)
Definition insufficient (ag : agent) : Prop :=
  match ag with
  | OfDQN self => (ReplayBuffer.len (DQN.memory self) < DQN.batch_size self)%nat
  | OfPolicyGradient self => PolicyGradient.rewards self = []
  | OfActorCritic self => ActorCritic.rewards self = []
  | OfPPO self => PPO.states self = []
  end.

Definition zero_metric (ag : agent) : list Q :=
  match ag with
  | OfDQN _ | OfPolicyGradient _ => [0]
  | OfActorCritic _ => [0; 0]
  | OfPPO _ => [0; 0; 0]
  end.

Inductive snapshot :=
| DQNState (sd : DQN.StateDict)
| PolicyGradientState (sd : PolicyGradient.StateDict)
| ActorCriticState (sd : ActorCritic.StateDict)
| PPOState (sd : PPO.StateDict).

Definition state_dict (ag : agent) : snapshot :=
  match ag with
  | OfDQN self => DQNState (DQN.state_dict self)
  | OfPolicyGradient self => PolicyGradientState (PolicyGradient.state_dict self)
  | OfActorCritic self => ActorCriticState (ActorCritic.state_dict self)
  | OfPPO self => PPOState (PPO.state_dict self)
  end.

(** [load_state_dict]; a dictionary of another agent class lacks the keys
    looked up, which raises. *)
Definition load_state_dict (ag : agent) (sd : snapshot) : option agent :=
  match ag, sd with
  | OfDQN self, DQNState sd => OfDQN <$> DQN.load_state_dict self sd
  | OfPolicyGradient self, PolicyGradientState sd =>
      OfPolicyGradient <$> PolicyGradient.load_state_dict self sd
  | OfActorCritic self, ActorCriticState sd =>
      OfActorCritic <$> ActorCritic.load_state_dict self sd
  | OfPPO self, PPOState sd => OfPPO <$> PPO.load_state_dict self sd
  | _, _ => None
  end.

(** [fresh_for a b]: [b] is what the constructor of [a]'s class returns
    for [a]'s state and action sizes, whatever the other arguments and the
    initial weights drawn. *)
Inductive fresh_for : agent -> agent -> Prop :=
| fresh_dqn self h r :
    DQN.is_dueling (DQN.class self) = false ->
    fresh_for (OfDQN self)
      (OfDQN (DQN.DQNAgent_init (DQN.class self) (DQN.state_size self)
                (DQN.action_size self) h r))
| fresh_dueling self h r r' :
    DQN.is_dueling (DQN.class self) = true ->
    fresh_for (OfDQN self)
      (OfDQN (DQN.DuelingDQNAgent_init (DQN.state_size self)
                (DQN.action_size self) h r r'))
| fresh_policy_gradient self lr0 gamma0 r :
    fresh_for (OfPolicyGradient self)
      (OfPolicyGradient
         (PolicyGradient.PolicyGradientAgent_init (PolicyGradient.state_size self)
            (PolicyGradient.action_size self) lr0 gamma0 r))
| fresh_actor_critic self lr0 gamma0 vcoef ecoef r r' :
    fresh_for (OfActorCritic self)
      (OfActorCritic
         (ActorCritic.ActorCriticAgent_init (ActorCritic.state_size self)
            (ActorCritic.action_size self) lr0 gamma0 vcoef ecoef r r'))
| fresh_ppo self h r :
    fresh_for (OfPPO self)
      (OfPPO (PPO.PPOAgent_init (PPO.state_size self) (PPO.action_size self) h r)).
End Contract.
End Agent.

(** *** utils/checkpoint.py: CheckpointManager

    Dictionaries handed to the manager are objects of a heap, addressed by
    location, so that a mutation is seen by every holder of the reference.
    The file system maps a path to a directory or to a file's content.
    A method returns the world it leaves behind together with its outcome:
    a returned value or a raised exception.  Logging is left out. *)

Module Checkpoint.
Local Open Scope string_scope.

(** Values stored under the keys of a checkpoint. *)
#[warnings="-register-all"]
Inductive pyval :=
| PNone
| PBool (b : bool)
| PInt (z : Z)
| PFloat (q : Q)
| PStr (s : string)
| PTensor (xs : list Q)
| PDict (d : gmap string pyval).

Abbreviation pydict := (gmap string pyval).
Abbreviation loc := nat.

Inductive node :=
| Dir
| Pickle (d : pydict)       (* written by [torch.save] *)
| Json (d : pydict)         (* written by [json.dump] *)
| Other (content : string).

Inductive device := Cpu | Cuda (index : nat).

Record World := {
  heap : gmap loc pydict;
  fs : gmap string node;
  (** what [datetime.now().isoformat()] returns at this moment *)
  now : string;
  (** paths that cannot be opened for writing *)
  denied : gset string;
  (** CUDA devices present *)
  cuda_count : nat
}.

Inductive exn := OSError | TypeError | RuntimeError | UnpicklingError.

Inductive outcome (A : Type) :=
| Return (a : A)
| Raise (e : exn).
Arguments Return {A} _.
Arguments Raise {A} _.

Definition with_heap (w : World) (h : gmap loc pydict) : World :=
  {| heap := h; fs := fs w; now := now w; denied := denied w;
     cuda_count := cuda_count w |}.

Definition with_fs (w : World) (f : gmap string node) : World :=
  {| heap := heap w; fs := f; now := now w; denied := denied w;
     cuda_count := cuda_count w |}.

(** [os.path.isfile] *)
Definition isfile (w : World) (path : string) : bool :=
  match fs w !! path with
  | Some Dir | None => false
  | Some _ => true
  end.

(** [Path.exists] *)
Definition exists_ (w : World) (path : string) : bool :=
  bool_decide (is_Some (fs w !! path)).

Definition is_absolute (path : string) : bool :=
  match path with
  | String "/"%char _ => true
  | _ => false
  end.

(** [dir / rel]: an absolute right operand replaces the left one. *)
Definition path_join (dir rel : string) : string :=
  if is_absolute rel then rel else dir ++ "/" ++ rel.

(** Opening [path] for writing and storing [content]. *)
Definition write (w : World) (path : string) (content : node) : World * outcome () :=
  if bool_decide (path ∈ denied w) then (w, Raise OSError)
  else
    match fs w !! path with
    | Some Dir => (w, Raise OSError)
    | _ => (with_fs w (<[path := content]> (fs w)), Return ())
    end.

(** [torch.save(obj, path)], [obj] being the dictionary at [l]. *)
Definition torch_save (w : World) (l : loc) (path : string) : World * outcome () :=
  match heap w !! l with
  | Some d => write w path (Pickle d)
  | None => (w, Raise TypeError)
  end.

(** The first location no object lives at. *)
Definition fresh (h : gmap loc pydict) : loc :=
  S (map_fold (fun l _ acc => Nat.max l acc) 0%nat h).

(** [torch.load(path)] / [torch.load(path, map_location=device)]: a new
    dictionary object on success. *)
Definition torch_load (w : World) (path : string) (map_location : option device)
    : World * outcome loc :=
  match fs w !! path with
  | Some (Pickle d) =>
      match map_location with
      | Some (Cuda i) =>
          if (i <? cuda_count w)%nat
          then let l := fresh (heap w) in
               (with_heap w (<[l := d]> (heap w)), Return l)
          else (w, Raise RuntimeError)
      | _ =>
          let l := fresh (heap w) in
          (with_heap w (<[l := d]> (heap w)), Return l)
      end
  | Some Dir | None => (w, Raise OSError)
  | Some _ => (w, Raise UnpicklingError)
  end.

Record CheckpointManager := { checkpoint_dir : string }.

(** Truth value of the [metadata] argument: [None] and the empty
    dictionary are false. *)
Definition truthy (metadata : option pydict) : bool :=
  match metadata with
  | None => false
  | Some m => negb (size m =? 0)%nat
  end.

(** [CheckpointManager.save].  Every exception is logged and raised
    again; what was done before it stays done. *)
Definition save (self : CheckpointManager) (w : World) (name : string)
    (checkpoint : loc) (metadata : option pydict) : World * outcome string :=
  let checkpoint_path := path_join (checkpoint_dir self) (name ++ ".pt") in
  match heap w !! checkpoint with
  | None => (w, Raise TypeError)
  | Some d0 =>
      let d1 :=
        if truthy metadata
        then <["metadata" := PDict (default ∅ metadata)]> d0
        else d0 in
      let d2 := <["timestamp" := PStr (now w)]> d1 in
      let w1 := with_heap w (<[checkpoint := d2]> (heap w)) in
      match torch_save w1 checkpoint checkpoint_path with
      | (w2, Raise e) => (w2, Raise e)
      | (w2, Return _) =>
          let metadata_path :=
            path_join (checkpoint_dir self) (name ++ "_metadata.json") in
          let record : pydict :=
            <["name" := PStr name]>
            (<["timestamp" := PStr (now w)]>
            (<["metadata" := default (PDict ∅) (d2 !! "metadata")]>
            (<["episode" := default (PInt 0) (d2 !! "episode")]>
            (<["reward" := default (PInt 0) (d2 !! "reward")]> ∅)))) in
          match write w2 metadata_path (Json record) with
          | (w3, Raise e) => (w3, Raise e)
          | (w3, Return _) => (w3, Return checkpoint_path)
          end
      end
  end.

(** The path [load] looks at: [name] itself when it is a file, the
    checkpoint of that name in the manager's directory otherwise. *)
Definition resolve (self : CheckpointManager) (w : World) (name : string) : string :=
  if isfile w name then name
  else path_join (checkpoint_dir self) (name ++ ".pt").

(** A checkpoint written by [torch.save] is stored at [path]. *)
Definition holds_checkpoint (w : World) (path : string) : Prop :=
  exists d, fs w !! path = Some (Pickle d).

(** [CheckpointManager.load]: every exception is logged and turned into
    [None]. *)
Definition load (self : CheckpointManager) (w : World) (name : string)
    (dev : option device) : World * outcome (option loc) :=
  let checkpoint_path := resolve self w name in
  if negb (exists_ w checkpoint_path) then (w, Return None)
  else
    match torch_load w checkpoint_path dev with
    | (w', Return l) => (w', Return (Some l))
    | (w', Raise _) => (w', Return None)
    end.
End Checkpoint.

(** *** Concrete instances, for running the model on explicit inputs *)

Module Sample.
Import Tensor Torch.
Local Open Scope Q_scope.

(** A step-shaped stand-in for the float exponential: [2 ^ floor x], and
    0 where that is below [2 ^ -149], the smallest positive float32. *)
Definition exp2 (x : Q) : Q := if Qltb x (-(149)) then 0 else 2 ^ Qfloor x.

Lemma exp2_nonneg x : 0 <= exp2 x.
Proof.
  unfold exp2. destruct (Qltb x (-(149))); [apply Qle_refl|].
  apply Qlt_le_weak, Qpower_0_lt. reflexivity.
Qed.

(** A backend whose optimiser keeps no moments. *)
Definition backend : Backend :=
  {| exp := exp2; exp_nonneg := exp2_nonneg;
     ln := fun x => x - 1; sqrt := fun x => x;
     moments := unit; moments_init := tt |}.

(** Gradient steps of a vanishing gradient: parameters stay where they are. *)
Definition value_step : @DQN.ValueStep backend :=
  fun opt n _ _ _ _ => (n, opt).

Definition policy_step : @PolicyGradient.PolicyStep backend :=
  fun opt n _ _ => (n, opt).

Definition actor_critic_step : @ActorCritic.ActorCriticStep backend :=
  {| ActorCritic.actor_step := fun opt n _ _ _ => (n, opt);
     ActorCritic.critic_step := fun opt n _ _ => (n, opt) |}.

Definition ppo_step : @PPO.PPOStep backend :=
  fun opt n _ _ _ _ _ => (n, opt).

(** All-zero initial weights. *)
Definition zeros : Init := {| init_w := fun _ _ _ => 0; init_b := fun _ _ => 0 |}.

(** Dropout masks that keep every unit. *)
Definition keep_all : DropMasks := {| drop1 := fun _ => true; drop2 := fun _ => true |}.

(** The sizes main.py uses. *)
Definition state_size : nat := 101.
Definition action_size : nat := 100.

Definition dqn : @DQN.DQNAgent backend :=
  DQN.DQNAgent_init DQN.DQNAgentClass state_size action_size DQN.default_hyper zeros.

Definition ppo_hyper : PPO.Hyper :=
  {| PPO.learning_rate := 3 # 10000; PPO.h_gamma := 99 # 100;
     PPO.h_epsilon_clip := 2 # 10; PPO.h_value_loss_coef := 1 # 2;
     PPO.h_entropy_coef := 1 # 100; PPO.h_gae_lambda := 95 # 100;
     PPO.h_ppo_epochs := 4; PPO.h_batch_size := 64 |}.

Definition ppo : @PPO.PPOAgent backend :=
  PPO.PPOAgent_init state_size action_size ppo_hyper zeros.

(** The same agent holding a rollout of two steps, the second terminal. *)
Definition ppo_rollout : @PPO.PPOAgent backend :=
  PPO.with_trajectory ppo
    [replicate state_size 0; replicate state_size 0] [3%nat; 17%nat]
    [1; 2] [1 # 2; 1 # 4] [-(1); -(1)] [false; true].

(** A small value agent for running updates: one state feature, two
    actions, batches of one, exploration from 1 down to a floor of 1/2 by
    a factor 3/4; and one remembered transition. *)
Definition small_hyper : DQN.Hyper :=
  {| DQN.learning_rate := 1 # 1000; DQN.h_gamma := 99 # 100;
     DQN.h_epsilon := 1; DQN.h_epsilon_min := 1 # 2;
     DQN.h_epsilon_decay := 3 # 4; DQN.buffer_size := 4;
     DQN.h_batch_size := 1; DQN.h_target_update_freq := 10 |}.

Definition small_dqn : @DQN.DQNAgent backend :=
  DQN.remember
    (DQN.DQNAgent_init DQN.DQNAgentClass 1 2 small_hyper zeros)
    {| ReplayBuffer.t_state := [0]; ReplayBuffer.t_action := 1%nat;
       ReplayBuffer.t_reward := 1; ReplayBuffer.t_next_state := [1];
       ReplayBuffer.t_done := false |}.

(** The same agent built with an exploration rate of 1/4, under the floor. *)
Definition low_dqn : @DQN.DQNAgent backend :=
  DQN.remember
    (DQN.DQNAgent_init DQN.DQNAgentClass 1 2
       {| DQN.learning_rate := 1 # 1000; DQN.h_gamma := 99 # 100;
          DQN.h_epsilon := 1 # 4; DQN.h_epsilon_min := 1 # 2;
          DQN.h_epsilon_decay := 3 # 4; DQN.buffer_size := 4;
          DQN.h_batch_size := 1; DQN.h_target_update_freq := 10 |} zeros)
    {| ReplayBuffer.t_state := [0]; ReplayBuffer.t_action := 1%nat;
       ReplayBuffer.t_reward := 1; ReplayBuffer.t_next_state := [1];
       ReplayBuffer.t_done := false |}.

Definition train_draw : @DQN.TrainDraw :=
  {| DQN.picks := [0%nat]; DQN.masks_current := fun _ => keep_all;
     DQN.masks_select := fun _ => keep_all;
     DQN.masks_next := fun _ => keep_all |}.

(** [n] calls of [train_step] in a row, each under [train_draw]. *)
Fixpoint train_steps (n : nat) (self : @DQN.DQNAgent backend)
    : option (@DQN.DQNAgent backend) :=
  match n with
  | O => Some self
  | S n' =>
      '(_, self') ← @DQN.train_step backend value_step self train_draw;
      train_steps n' self'
  end.

(** Weights of a value network with one state feature in which hidden
    unit 0 feeds action 0 alone and hidden unit 1 feeds action 1 alone:
    the first layer copies the feature into units 0 and 1, the other two
    layers pass units 0 and 1 through; every other weight is zero. *)
Definition two_paths : Init :=
  {| init_w := fun layer i j =>
       match layer with
       | O => if (i <? 2)%nat then 1 else 0
       | _ => if ((i =? j) && (i <? 2))%nat then 1 else 0
       end;
     init_b := fun _ _ => 0 |}.

(** A small [DoubleDQNAgent] with these weights and one remembered
    transition. *)
Definition small_double_dqn : @DQN.DQNAgent backend :=
  DQN.remember
    (DQN.DQNAgent_init DQN.DoubleDQNAgentClass 1 2 small_hyper two_paths)
    {| ReplayBuffer.t_state := [0]; ReplayBuffer.t_action := 1%nat;
       ReplayBuffer.t_reward := 1; ReplayBuffer.t_next_state := [1];
       ReplayBuffer.t_done := false |}.

(** An agent whose networks hold these weights, and a freshly built one
    of the same sizes. *)
Definition trained_dqn : @DQN.DQNAgent backend :=
  DQN.DQNAgent_init DQN.DQNAgentClass 1 2 DQN.default_hyper two_paths.

Definition fresh_dqn : @DQN.DQNAgent backend :=
  DQN.DQNAgent_init DQN.DQNAgentClass 1 2 DQN.default_hyper zeros.

(** A draw whose first dropout layer zeroes hidden unit [k] and keeps the
    others. *)
Definition dropping (k : nat) : DQN.ActDraw :=
  {| DQN.rand_unit := 0; DQN.rand_index := 0%nat;
     DQN.act_masks := {| drop1 := fun i => negb (i =? k)%nat;
                         drop2 := fun _ => true |} |}.

(** A freshly built REINFORCE agent with one state feature and two
    actions, and a draw of [select_action] with sampling draw [u]. *)
Definition small_pg : @PolicyGradient.PolicyGradientAgent backend :=
  PolicyGradient.PolicyGradientAgent_init 1 2 (1 # 1000) (99 # 100) zeros.

Definition sampling (u : Q) : PolicyGradient.ActDraw :=
  {| PolicyGradient.act_masks := keep_all; PolicyGradient.rand_unit := u |}.

(** A checkpoint manager, and a world in which the caller holds one
    dictionary, at location 0, and the checkpoint directory is empty. *)
Definition manager : Checkpoint.CheckpointManager :=
  {| Checkpoint.checkpoint_dir := "checkpoints" |}.

Definition world : Checkpoint.World :=
  {| Checkpoint.heap :=
       {[ 0%nat := {[ "episode" := Checkpoint.PInt 5;
                      "reward" := Checkpoint.PFloat (3 # 2) ]} ]};
     Checkpoint.fs := {[ "checkpoints" := Checkpoint.Dir ]};
     Checkpoint.now := "2024-05-01T12:00:00";
     Checkpoint.denied := ∅;
     Checkpoint.cuda_count := 0 |}.

Definition draw (u : Q) : Agent.Draw :=
  {| Agent.rand_unit := u; Agent.rand_index := 0; Agent.sample_unit := u;
     Agent.masks := keep_all; Agent.critic_masks := keep_all |}.
End Sample.

(** *** utils/checkpoint.py: delete, list_checkpoints, get_latest, get_best

    The queries read the metadata sidecars only.  Sorting is the
    library's: stable, on keys that must be comparable with each other
    (strings with strings, numbers with numbers), a [TypeError]
    otherwise. *)

Module CheckpointQueries.
Import Checkpoint.
Local Open Scope string_scope.

(** [Path.unlink]: raises on a directory, on a missing path and on a path
    the process may not remove ([locked], a matter of the permissions of
    the directory that holds it). *)
Definition unlink (locked : gset string) (w : World) (path : string)
    : World * outcome () :=
  match fs w !! path with
  | Some Dir | None => (w, Raise OSError)
  | Some _ =>
      if bool_decide (path ∈ locked) then (w, Raise OSError)
      else (with_fs w (base.delete path (fs w)), Return ())
  end.

(** [CheckpointManager.delete]: every exception is logged and turned
    into [False]; what was removed before it stays removed. *)
Definition delete (self : CheckpointManager) (locked : gset string) (w : World)
    (name : string) : World * outcome bool :=
  let checkpoint_path := path_join (checkpoint_dir self) (name ++ ".pt") in
  let metadata_path :=
    path_join (checkpoint_dir self) (name ++ "_metadata.json") in
  if exists_ w checkpoint_path then
    match unlink locked w checkpoint_path with
    | (w1, Raise _) => (w1, Return false)
    | (w1, Return _) =>
        if exists_ w1 metadata_path then
          match unlink locked w1 metadata_path with
          | (w2, Raise _) => (w2, Return false)
          | (w2, Return _) => (w2, Return true)
          end
        else (w1, Return true)
    end
  else if exists_ w metadata_path then
    match unlink locked w metadata_path with
    | (w2, Raise _) => (w2, Return false)
    | (w2, Return _) => (w2, Return true)
    end
  else (w, Return false).

Fixpoint contains_slash (s : string) : bool :=
  match s with
  | EmptyString => false
  | String c s' => if Ascii.eqb c "/" then true else contains_slash s'
  end.

(** [s.endswith(suf)] *)
Fixpoint has_suffix (suf s : string) : bool :=
  if String.eqb s suf then true
  else match s with
       | EmptyString => false
       | String _ s' => has_suffix suf s'
       end.

(** [s] without its prefix [pre], when it has it. *)
Fixpoint strip_prefix (pre s : string) : option string :=
  match pre, s with
  | EmptyString, _ => Some s
  | String a pre', String b s' =>
      if Ascii.eqb a b then strip_prefix pre' s' else None
  | String _ _, EmptyString => None
  end.

(** [path] is an entry of the directory [dir] that the pattern
    [*_metadata.json] matches. *)
Definition is_sidecar (dir path : string) : bool :=
  match strip_prefix (dir ++ "/") path with
  | Some entry => negb (contains_slash entry) && has_suffix "_metadata.json" entry
  | None => false
  end.

(** [self.checkpoint_dir.glob("*_metadata.json")], in the order the file
    system lists the directory (here: the order of the map). *)
Definition glob_metadata (self : CheckpointManager) (w : World) : list string :=
  filter (fun path => is_sidecar (checkpoint_dir self) path = true)
         (map fst (map_to_list (fs w))).

(** [json.load] of an opened file, for a file that holds a JSON object;
    content that is not JSON raises, as does opening a directory. *)
Definition read_json (w : World) (path : string) : option pydict :=
  match fs w !! path with
  | Some (Json d) => Some d
  | _ => None
  end.

(** [c] is what some sidecar of the manager's directory holds. *)
Definition listed (self : CheckpointManager) (w : World) (c : pydict) : Prop :=
  exists path,
    is_sidecar (checkpoint_dir self) path = true /\ read_json w path = Some c.

Inductive error := KeyError | AttributeError | TypeError.

Inductive result (A : Type) :=
| Ok (a : A)
| Err (e : error).
Arguments Ok {A} _.
Arguments Err {A} _.

(** Sort keys the library can compare, among the values a sidecar holds
    here (JSON arrays are not among them): strings (by code point, which
    is the order of their bytes), and numbers (a Python bool counts as 0
    or 1).  [None] and dictionaries compare with nothing. *)
Definition sort_key (v : pyval) : option (string + Q) :=
  match v with
  | PStr s => Some (inl s)
  | PInt z => Some (inr (inject_Z z))
  | PFloat q => Some (inr q)
  | PBool b => Some (inr (if b then 1%Q else 0%Q))
  | _ => None
  end.

Definition key_ltb (a b : string + Q) : bool :=
  match a, b with
  | inl s, inl t => String.ltb s t
  | inr x, inr y => Tensor.Qltb x y
  | _, _ => false
  end.

Definition same_class (a b : string + Q) : bool :=
  match a, b with
  | inl _, inl _ | inr _, inr _ => true
  | _, _ => false
  end.

(** Python's [a < b] on two such values; [None] stands for the
    [TypeError] of operands that do not compare. *)
Definition py_lt (a b : pyval) : option bool :=
  match sort_key a, sort_key b with
  | Some x, Some y => if same_class x y then Some (key_ltb x y) else None
  | _, _ => None
  end.

(** Insertion into a list sorted downwards (upwards), before the entries
    of equal key: the stable order of [list.sort(reverse=True)]
    ([reverse=False]) when the items are inserted last to first. *)
Fixpoint insert_desc {A} (x : (string + Q) * A) (l : list ((string + Q) * A))
    : list ((string + Q) * A) :=
  match l with
  | [] => [x]
  | y :: l' => if key_ltb x.1 y.1 then y :: insert_desc x l' else x :: l
  end.

Fixpoint insert_asc {A} (x : (string + Q) * A) (l : list ((string + Q) * A))
    : list ((string + Q) * A) :=
  match l with
  | [] => [x]
  | y :: l' => if key_ltb y.1 x.1 then y :: insert_asc x l' else x :: l
  end.

(** [items.sort(key=..., reverse=...)] on items paired with their keys:
    with two items or more, keys that cannot be compared with each other
    raise. *)
Definition py_sort {A} (reverse : bool) (items : list (pyval * A))
    : result (list A) :=
  match items with
  | [] | [_] => Ok (map snd items)
  | (k0, _) :: _ =>
      match mapM (fun it => k ← sort_key it.1; Some (k, it.2)) items,
            sort_key k0 with
      | Some keyed, Some c0 =>
          if forallb (fun it => same_class c0 it.1) keyed
          then Ok (map snd
                     (foldr (if reverse then insert_desc else insert_asc) [] keyed))
          else Err TypeError
      | _, _ => Err TypeError
      end
  end.

(** [x.get('timestamp', '')] *)
Definition timestamp_of (c : pydict) : pyval :=
  default (PStr "") (c !! "timestamp").

(** [CheckpointManager.list_checkpoints]: the sidecars that can be read,
    newest first. *)
Definition list_checkpoints (self : CheckpointManager) (w : World)
    : result (list pydict) :=
  let checkpoints := omap (read_json w) (glob_metadata self w) in
  py_sort true (map (fun c => (timestamp_of c, c)) checkpoints).

(** [c['name']] *)
Definition name_of (c : pydict) : result pyval :=
  match c !! "name" with
  | Some v => Ok v
  | None => Err KeyError
  end.

(** [[c for c in checkpoints if c['name'].startswith(prefix)]] *)
Fixpoint with_prefix (prefix : string) (checkpoints : list pydict)
    : result (list pydict) :=
  match checkpoints with
  | [] => Ok []
  | c :: rest =>
      match c !! "name" with
      | None => Err KeyError
      | Some (PStr s) =>
          match with_prefix prefix rest with
          | Ok kept => Ok (if String.prefix prefix s then c :: kept else kept)
          | Err e => Err e
          end
      | Some _ => Err AttributeError
      end
  end.

(** [CheckpointManager.get_latest] *)
Definition get_latest (self : CheckpointManager) (w : World) (prefix : string)
    : result (option pyval) :=
  match list_checkpoints self w with
  | Err e => Err e
  | Ok checkpoints =>
      match (if String.eqb prefix "" then Ok checkpoints
             else with_prefix prefix checkpoints) with
      | Err e => Err e
      | Ok [] => Ok None
      | Ok (c :: _) =>
          match name_of c with
          | Ok v => Ok (Some v)
          | Err e => Err e
          end
      end
  end.

(** [metric in c.get('metadata', {}) or metric in c]: key membership in a
    dictionary, substring test in a string, [TypeError] in anything
    else. *)
Definition has_metric (metric : string) (c : pydict) : result bool :=
  match default (PDict ∅) (c !! "metadata") with
  | PDict m =>
      Ok (bool_decide (is_Some (m !! metric)) || bool_decide (is_Some (c !! metric)))
  | PStr s =>
      Ok (bool_decide (is_Some (String.index 0 metric s))
          || bool_decide (is_Some (c !! metric)))
  | _ => Err TypeError
  end.

Fixpoint with_metric (metric : string) (checkpoints : list pydict)
    : result (list pydict) :=
  match checkpoints with
  | [] => Ok []
  | c :: rest =>
      match has_metric metric c with
      | Err e => Err e
      | Ok b =>
          match with_metric metric rest with
          | Ok kept => Ok (if b then c :: kept else kept)
          | Err e => Err e
          end
      end
  end.

(** [x.get('metadata', {}).get(metric, x.get(metric, 0))] *)
Definition metric_of (metric : string) (c : pydict) : result pyval :=
  match default (PDict ∅) (c !! "metadata") with
  | PDict m => Ok (default (default (PInt 0) (c !! metric)) (m !! metric))
  | _ => Err AttributeError
  end.

Fixpoint keyed_by_metric (metric : string) (checkpoints : list pydict)
    : result (list (pyval * pydict)) :=
  match checkpoints with
  | [] => Ok []
  | c :: rest =>
      match metric_of metric c with
      | Err e => Err e
      | Ok k =>
          match keyed_by_metric metric rest with
          | Ok keyed => Ok ((k, c) :: keyed)
          | Err e => Err e
          end
      end
  end.

(** [CheckpointManager.get_best] *)
Definition get_best (self : CheckpointManager) (w : World) (metric : string)
    (maximize : bool) : result (option pyval) :=
  match list_checkpoints self w with
  | Err e => Err e
  | Ok [] => Ok None
  | Ok checkpoints =>
      match with_metric metric checkpoints with
      | Err e => Err e
      | Ok [] => Ok None
      | Ok valid =>
          match keyed_by_metric metric valid with
          | Err e => Err e
          | Ok keyed =>
              match py_sort maximize keyed with
              | Err e => Err e
              | Ok [] => Ok None
              | Ok (c :: _) =>
                  match name_of c with
                  | Ok v => Ok (Some v)
                  | Err e => Err e
                  end
              end
          end
      end
  end.

(** Values [json.dump] can write: everything but a tensor, at any depth.
    On any other value it raises. *)
Inductive json_serialisable : pyval -> Prop :=
| json_none : json_serialisable PNone
| json_bool b : json_serialisable (PBool b)
| json_int z : json_serialisable (PInt z)
| json_float q : json_serialisable (PFloat q)
| json_str s : json_serialisable (PStr s)
| json_dict d :
    map_Forall (fun _ v => json_serialisable v) d -> json_serialisable (PDict d).

(** The three values [save] copies from the checkpoint into the sidecar,
    for a caller's dictionary [d] and a [metadata] argument. *)
Definition sidecar_metadata (d : pydict) (metadata : option pydict) : pyval :=
  if truthy metadata then PDict (default ∅ metadata)
  else default (PDict ∅) (d !! "metadata").

Definition sidecar_serialisable (d : pydict) (metadata : option pydict) : Prop :=
  json_serialisable (sidecar_metadata d metadata) /\
  json_serialisable (default (PInt 0) (d !! "episode")) /\
  json_serialisable (default (PInt 0) (d !! "reward")).
End CheckpointQueries.

(** *** Sequences of calls

    A training loop drives an agent through its state-changing methods in
    some order.  A sequence of calls is run from left to right on the
    agent the previous call left behind; a call that raises ends the
    run. *)

Module Calls.
Import Tensor Torch.

Section Calls.
Context `{B : Backend} {VS : DQN.ValueStep} {PPS : PPO.PPOStep}.

Inductive dqn_call :=
| Remember (x : ReplayBuffer.Transition)
| DQNTrainStep (d : DQN.TrainDraw).

Definition dqn_call_run (self : DQN.DQNAgent) (c : dqn_call)
    : option DQN.DQNAgent :=
  match c with
  | Remember x => Some (DQN.remember self x)
  | DQNTrainStep d => snd <$> DQN.train_step self d
  end.

Fixpoint dqn_run (self : DQN.DQNAgent) (calls : list dqn_call)
    : option DQN.DQNAgent :=
  match calls with
  | [] => Some self
  | c :: rest => self' ← dqn_call_run self c; dqn_run self' rest
  end.

Inductive ppo_call :=
| SelectAction (state : list Q) (available_actions : list nat)
               (training : bool) (d : PPO.ActDraw)
| StoreReward (reward : Q) (done : bool)
| PPOTrainStep (masks : nat -> nat -> DropMasks)
| ResetTrajectory.

Definition ppo_call_run (self : PPO.PPOAgent) (c : ppo_call)
    : option PPO.PPOAgent :=
  match c with
  | SelectAction state available_actions training d =>
      snd <$> PPO.select_action self state available_actions training d
  | StoreReward reward done => Some (PPO.store_reward self reward done)
  | PPOTrainStep masks => snd <$> PPO.train_step self masks
  | ResetTrajectory => Some (PPO.reset_trajectory self)
  end.

Fixpoint ppo_run (self : PPO.PPOAgent) (calls : list ppo_call)
    : option PPO.PPOAgent :=
  match calls with
  | [] => Some self
  | c :: rest => self' ← ppo_call_run self c; ppo_run self' rest
  end.

(** The four lists [select_action] appends to are equally long, and so
    are the two lists [store_reward] appends to. *)
Definition ppo_aligned (self : PPO.PPOAgent) : Prop :=
  length (PPO.actions self) = length (PPO.states self) /\
  length (PPO.values self) = length (PPO.states self) /\
  length (PPO.log_probs self) = length (PPO.states self) /\
  length (PPO.dones self) = length (PPO.rewards self).
End Calls.
End Calls.

(** *** Further concrete instances *)

Module Listing.
Import Checkpoint.
Local Open Scope string_scope.

(** A checkpoint directory holding two sidecars, one checkpoint file, a
    file that is no sidecar, and a sidecar that is not JSON.  The newer
    sidecar carries its reward in its metadata. *)
Definition older : pydict :=
  {[ "name" := PStr "a"; "timestamp" := PStr "2024-05-01T12:00:00";
     "metadata" := PDict ∅; "episode" := PInt 10; "reward" := PFloat (3 # 2) ]}.

Definition newer : pydict :=
  {[ "name" := PStr "b"; "timestamp" := PStr "2024-05-02T08:30:00";
     "metadata" := PDict {[ "reward" := PFloat (1 # 2) ]};
     "episode" := PInt 20; "reward" := PInt 7 ]}.

Definition world : World :=
  with_fs Sample.world
    {[ "checkpoints" := Dir;
       "checkpoints/a_metadata.json" := Json older;
       "checkpoints/b_metadata.json" := Json newer;
       "checkpoints/b.pt" := Pickle ∅;
       "checkpoints/notes.txt" := Other "notes";
       "checkpoints/c_metadata.json" := Other "{" ]}.

(** A world in which the sidecar of [m] cannot be opened for writing. *)
Definition read_only_sidecar : World :=
  {| heap := heap Sample.world; fs := fs Sample.world; now := now Sample.world;
     denied := {[ "checkpoints/m_metadata.json" ]}; cuda_count := 0 |}.

(** A world in which the sidecar path of [m] is a directory. *)
Definition sidecar_is_directory : World :=
  with_fs Sample.world
    {[ "checkpoints/m.pt" := Pickle ∅; "checkpoints/m_metadata.json" := Dir ]}.
End Listing.

(** *** models/gnn.py: build_circuit_graph

    Cells and nets are dictionaries with their keys present; the graph is
    the [Data] object with its edge index as a list of columns. *)

Module CircuitGraph.
Local Open Scope string_scope.

Record Cell := {
  cell_id : string;
  cell_width : Q;
  cell_height : Q;
  cell_pins : list string;
  cell_type : string
}.

Record Net := { net_pins : list string; net_weight : Q }.

(** [pin_id.split('_')[0]] *)
Fixpoint before_underscore (s : string) : string :=
  match s with
  | EmptyString => EmptyString
  | String c s' =>
      if Ascii.eqb c "_" then EmptyString else String c (before_underscore s')
  end.

Fixpoint contains_underscore (s : string) : bool :=
  match s with
  | EmptyString => false
  | String c s' => if Ascii.eqb c "_" then true else contains_underscore s'
  end.

(** [[standard, macro, io]] *)
Definition type_encoding (type : string) : list Q :=
  if String.eqb type "standard" then [1; 0; 0]%Q
  else if String.eqb type "macro" then [0; 1; 0]%Q
  else [0; 0; 1]%Q.

(** [[width, height, num_pins] + type_encoding] *)
Definition features (cell : Cell) : list Q :=
  [cell_width cell; cell_height cell;
   inject_Z (Z.of_nat (length (cell_pins cell)))] ++ type_encoding (cell_type cell).

(** The inner search loop: the index of the first cell with that id,
    counting from [i]. *)
Fixpoint find_cell (cells : list Cell) (id : string) (i : nat) : option nat :=
  match cells with
  | [] => None
  | cell :: rest =>
      if String.eqb (cell_id cell) id then Some i else find_cell rest id (S i)
  end.

(** [cell_ids] of one net: a pin that names no cell is skipped. *)
Definition net_cell_ids (cells : list Cell) (net : Net) : list nat :=
  omap (fun pin_id => find_cell cells (before_underscore pin_id) 0) (net_pins net).

(** The two nested loops over [cell_ids]: both directions of every pair
    of positions [i < j]. *)
Fixpoint clique (cell_ids : list nat) : list (nat * nat) :=
  match cell_ids with
  | [] => []
  | a :: rest => flat_map (fun b => [(a, b); (b, a)]) rest ++ clique rest
  end.

Record Data := {
  x : list (list Q);
  edge_index : list (nat * nat);
  num_nodes : nat;
  (** set only when there is an edge *)
  edge_attr : option (list Q)
}.

Definition build_circuit_graph (cells : list Cell) (nets : list Net) : Data :=
  let edges := flat_map (fun net => clique (net_cell_ids cells net)) nets in
  let edge_weights :=
    flat_map (fun net => replicate (length (clique (net_cell_ids cells net)))
                                   (net_weight net)) nets in
  {| x := map features cells;
     edge_index := edges;
     num_nodes := length cells;
     edge_attr := if (0 <? length edge_weights)%nat then Some edge_weights else None |}.
End CircuitGraph.

(** *** Agents in the middle of an episode, for running the model *)

Module Scenario.
Import Tensor Torch.
Local Open Scope Q_scope.

Definition transition : ReplayBuffer.Transition :=
  {| ReplayBuffer.t_state := [0]; ReplayBuffer.t_action := 1%nat;
     ReplayBuffer.t_reward := 1; ReplayBuffer.t_next_state := [1];
     ReplayBuffer.t_done := false |}.

(** Two updates of the small value agent with a transition remembered in
    between. *)
Definition dqn_calls : list Calls.dqn_call :=
  [Calls.DQNTrainStep Sample.train_draw; Calls.Remember transition;
   Calls.DQNTrainStep Sample.train_draw].

(** A REINFORCE agent that has selected one action in training mode and
    stored one reward. *)
Definition episode_pg : @PolicyGradient.PolicyGradientAgent Sample.backend :=
  PolicyGradient.store_reward
    (default Sample.small_pg
       (snd <$> PolicyGradient.select_action Sample.small_pg [0] [0%nat; 1%nat] true
                  (Sample.sampling (1 # 4))))
    1.

(** A small PPO agent, one episode of two steps, and the update after it. *)
Definition small_ppo : @PPO.PPOAgent Sample.backend :=
  PPO.PPOAgent_init 1 2 Sample.ppo_hyper Sample.zeros.

Definition ppo_draw : PPO.ActDraw :=
  {| PPO.act_masks := Sample.keep_all; PPO.rand_unit := 1 # 4 |}.

Definition ppo_calls : list Calls.ppo_call :=
  [Calls.SelectAction [0] [0%nat; 1%nat] true ppo_draw;
   Calls.StoreReward 1 false;
   Calls.SelectAction [1] [1%nat] true ppo_draw;
   Calls.SelectAction [1] [0%nat; 1%nat] false ppo_draw;
   Calls.StoreReward 2 true].

(** A rollout of one step as one epoch receives it. *)
Definition rollout : PPO.Rollout :=
  {| PPO.r_states := [[0]]; PPO.r_actions := [0%nat];
     PPO.r_old_log_probs := [- (1)]; PPO.r_advantages := [1];
     PPO.r_returns := [1] |}.

(** A dueling network with one state feature and two actions. *)
Definition small_dueling : DQN.DuelingQNetwork :=
  DQN.DuelingQNetwork_init Sample.two_paths 1 2.

(** Three cells and a net over the pins of two of them; the third cell's
    id holds an underscore. *)
Definition cells : list CircuitGraph.Cell :=
  [{| CircuitGraph.cell_id := "c0"; CircuitGraph.cell_width := 2;
      CircuitGraph.cell_height := 1; CircuitGraph.cell_pins := ["c0_a"; "c0_b"]%string;
      CircuitGraph.cell_type := "standard" |};
   {| CircuitGraph.cell_id := "c1"; CircuitGraph.cell_width := 4;
      CircuitGraph.cell_height := 4; CircuitGraph.cell_pins := ["c1_a"]%string;
      CircuitGraph.cell_type := "macro" |};
   {| CircuitGraph.cell_id := "pad_2"; CircuitGraph.cell_width := 1;
      CircuitGraph.cell_height := 1; CircuitGraph.cell_pins := ["pad_2_a"]%string;
      CircuitGraph.cell_type := "pad" |}].

Definition nets : list CircuitGraph.Net :=
  [{| CircuitGraph.net_pins := ["c0_a"; "c1_a"; "pad_2_a"]%string;
      CircuitGraph.net_weight := 3 # 2 |}].

(** A policy that has settled on action 0: every weight is zero and the
    bias of the output layer puts the logit of action 1 lower by 200.
    The agents below hold these weights in their policy (actor, online)
    network; [load_state_dict] puts them into a freshly built agent. *)
Definition settled : Init :=
  {| init_w := fun _ _ _ => 0;
     init_b := fun layer i =>
       match layer, i with
       | 2%nat, 1%nat => - (200)
       | _, _ => 0
       end |}.

Definition settled_pg : @PolicyGradient.PolicyGradientAgent Sample.backend :=
  PolicyGradient.PolicyGradientAgent_init 1 2 (1 # 1000) (99 # 100) settled.

Definition small_ac : @ActorCritic.ActorCriticAgent Sample.backend :=
  ActorCritic.ActorCriticAgent_init 1 2 (1 # 1000) (99 # 100) (1 # 2) (1 # 100)
    Sample.zeros Sample.zeros.

Definition settled_ac : @ActorCritic.ActorCriticAgent Sample.backend :=
  ActorCritic.ActorCriticAgent_init 1 2 (1 # 1000) (99 # 100) (1 # 2) (1 # 100)
    settled Sample.zeros.

Definition settled_ppo : @PPO.PPOAgent Sample.backend :=
  PPO.PPOAgent_init 1 2 Sample.ppo_hyper settled.

Definition settled_dqn : @DQN.DQNAgent Sample.backend :=
  DQN.DQNAgent_init DQN.DQNAgentClass 1 2 DQN.default_hyper settled.
End Scenario.

(** ** Part II: properties *)

Section ReplayBufferFacts.
Import ReplayBuffer.

Lemma push_all_maxlen xs : forall b, maxlen (push_all b xs) = maxlen b.
Proof.
  induction xs as [|x xs IH]; intros b; simpl; [done|].
  unfold push_all in *. simpl. by rewrite IH.
Qed.

Lemma push_len_le b x :
  (len b <= maxlen b)%nat -> (len (push b x) <= maxlen (push b x))%nat.
Proof.
  unfold len, push; simpl. intros H.
  destruct (Nat.ltb_spec (maxlen b) (length (buffer b ++ [x]))) as [Hlt|Hge].
  - rewrite length_drop, length_app. simpl. lia.
  - done.
Qed.

Lemma push_all_len_le xs : forall b,
  (len b <= maxlen b)%nat -> (len (push_all b xs) <= maxlen b)%nat.
Proof.
  induction xs as [|x xs IH]; intros b H; [done|].
  change (push_all b (x :: xs)) with (push_all (push b x) xs).
  pose proof (push_len_le b x H) as H'.
  specialize (IH _ H'). by simpl in IH.
Qed.

Lemma push_buffer b x :
  (len b <= maxlen b)%nat ->
  buffer (push b x)
  = drop (length (buffer b ++ [x]) - maxlen b) (buffer b ++ [x]).
Proof.
  unfold len, push; simpl. intros H.
  destruct (Nat.ltb_spec (maxlen b) (length (buffer b ++ [x]))) as [Hlt|Hge].
  - rewrite length_app in *; simpl in *. f_equal. lia.
  - rewrite length_app in *; simpl in *.
    replace (length (buffer b) + 1 - maxlen b)%nat with 0%nat by lia. done.
Qed.

(** The buffer always holds the most recent [maxlen] pushes, in order. *)
Lemma push_all_buffer xs : forall b,
  (len b <= maxlen b)%nat ->
  buffer (push_all b xs)
  = drop (length (buffer b ++ xs) - maxlen b) (buffer b ++ xs).
Proof.
  induction xs as [|x xs IH]; intros b H.
  - simpl. rewrite app_nil_r. unfold len in H.
    replace (length (buffer b) - maxlen b)%nat with 0%nat by lia. done.
  - change (push_all b (x :: xs)) with (push_all (push b x) xs).
    rewrite IH by (by apply push_len_le).
    rewrite push_buffer by done.
    change (maxlen (push b x)) with (maxlen b).
    set (l := buffer b ++ [x]).
    set (k := (length l - maxlen b)%nat).
    rewrite <- drop_app_le by lia.
    rewrite drop_drop.
    replace (buffer b ++ x :: xs) with (l ++ xs)
      by (unfold l; by rewrite <- app_assoc).
    f_equal. rewrite ?length_drop, ?length_app, ?length_drop.
    unfold k. lia.
Qed.
End ReplayBufferFacts.

(** C5 (replay buffer).  Whatever is pushed, the buffer never holds more
    than its capacity.  After [c + 1] pushes into a buffer of capacity
    [c = S (length mid)] -- an oldest transition, [mid], a newest one --
    the buffer is exactly the last [c] pushes in order: the newest is in
    it, and the oldest is not (unless an equal transition was pushed
    again later). *)
Theorem replay_buffer_capacity_fifo :
  (forall (c : nat) (pushes : list ReplayBuffer.Transition),
     ReplayBuffer.len (ReplayBuffer.push_all (ReplayBuffer.init c) pushes) <= c) /\
  (forall (oldest newest : ReplayBuffer.Transition)
          (mid : list ReplayBuffer.Transition),
     let c := S (length mid) in
     let b := ReplayBuffer.push_all (ReplayBuffer.init c)
                (oldest :: mid ++ [newest]) in
     ReplayBuffer.buffer b = mid ++ [newest] /\
     In newest (ReplayBuffer.buffer b) /\
     (~ In oldest (mid ++ [newest]) -> ~ In oldest (ReplayBuffer.buffer b))).
Proof.
  split.
  - intros c pushes.
    apply (push_all_len_le pushes (ReplayBuffer.init c)).
    unfold ReplayBuffer.len; simpl; lia.
  - intros oldest newest mid c b.
    assert (ReplayBuffer.buffer b = mid ++ [newest]) as Hb.
    { unfold b. rewrite push_all_buffer by (unfold ReplayBuffer.len; simpl; lia).
      simpl ReplayBuffer.buffer. simpl ReplayBuffer.maxlen.
      rewrite app_nil_l. unfold c.
      replace (length (oldest :: mid ++ [newest]) - S (length mid)) with 1.
      - done.
      - simpl. rewrite length_app. simpl. lia. }
    rewrite Hb. split; [done|]. split; [|done].
    apply in_or_app. right. by left.
Qed.

(** A run of the claim's scenario: capacity 2, three pushes. *)
Example replay_buffer_three_pushes :
  let x n := {| ReplayBuffer.t_state := []; ReplayBuffer.t_action := n;
                ReplayBuffer.t_reward := 0; ReplayBuffer.t_next_state := [];
                ReplayBuffer.t_done := false |} in
  ReplayBuffer.buffer
    (ReplayBuffer.push_all (ReplayBuffer.init 2) [x 0; x 1; x 2]) = [x 1; x 2].
Proof. reflexivity. Qed.

Section TensorFacts.
Import Tensor.
Local Open Scope Q_scope.

Lemma Qltb_true x y : Qltb x y = true <-> x < y.
Proof.
  unfold Qltb. destruct (Qlt_le_dec x y) as [H|H]; split; try done.
  intros H'. exfalso. lra.
Qed.

Lemma Qltb_false x y : Qltb x y = false <-> y <= x.
Proof.
  unfold Qltb. destruct (Qlt_le_dec x y) as [H|H]; split; try done.
  intros H'. exfalso. lra.
Qed.

Lemma argmax_from_finite xs : forall best_i best i,
  (is_Some best \/ exists j, finite_at xs j) ->
  let r := argmax_from best_i best i xs in
  (r = best_i /\ is_Some best) \/ (exists j, r = (i + j)%nat /\ finite_at xs j).
Proof.
  induction xs as [|x xs IH]; intros best_i best i H; simpl.
  - left. split; [done|]. destruct H as [H|[j [q Hq]]]; [done|].
    by rewrite lookup_nil in Hq.
  - destruct (ext_lt best x) eqn:Hlt.
    + destruct x as [y|]; [|by destruct best].
      destruct (IH i (Some y) (S i)) as [[-> _]|[j [-> Hj]]]; [left; eauto|..].
      * right. exists 0%nat. split; [lia|]. by exists y.
      * right. exists (S j). split; [lia|]. done.
    + assert (is_Some best \/ exists j, finite_at xs j) as H'.
      { destruct H as [H|[[|j] [q Hq]]]; [by left|..].
        - simpl in Hq. injection Hq as ->. left.
          destruct best; [done|]. simpl in Hlt. done.
        - right. exists j, q. done. }
      destruct (IH best_i best (S i) H') as [[-> Hb]|[j [-> Hj]]].
      * by left.
      * right. exists (S j). split; [lia|]. done.
Qed.

(** The arg-max of an array with a finite entry is a finite entry. *)
Lemma argmax_finite xs :
  (exists j, finite_at xs j) -> exists a, argmax xs = Some a /\ finite_at xs a.
Proof.
  intros [j Hj]. destruct xs as [|x xs].
  - destruct Hj as [q Hq]. by rewrite lookup_nil in Hq.
  - simpl. eexists. split; [done|].
    assert (is_Some x \/ exists j, finite_at xs j) as H.
    { destruct j as [|j]; destruct Hj as [q Hq]; simpl in Hq.
      - injection Hq as ->. by left.
      - right. by exists j, q. }
    destruct (argmax_from_finite xs 0%nat x 1%nat H) as [[-> [q ->]]|[k [-> Hk]]].
    + by exists q.
    + done.
Qed.

Lemma take_indices_Some xs idx :
  Forall (fun i => (i < length xs)%nat) idx ->
  exists vs, take_indices xs idx = Some vs /\ length vs = length idx.
Proof.
  intros H. unfold take_indices.
  destruct (mapM (fun i => xs !! i) idx) as [vs|] eqn:E.
  - exists vs. split; [done|]. apply mapM_Some_1 in E.
    symmetry. by eapply Forall2_length.
  - apply mapM_None_1 in E. apply Exists_exists in E as [i [Hi Hn]].
    rewrite Forall_forall in H. apply H in Hi.
    apply lookup_ge_None in Hn. lia.
Qed.

Lemma put_indices_spec idx : forall vs ys,
  length vs = length idx ->
  Forall (fun i => (i < length ys)%nat) idx ->
  exists ys', put_indices ys idx vs = Some ys' /\
    length ys' = length ys /\
    (forall i, i ∈ idx -> finite_at ys' i) /\
    (forall i, i ∉ idx -> ys' !! i = ys !! i).
Proof.
  induction idx as [|i idx IH]; intros vs ys Hlen Hall.
  - exists ys. simpl. repeat split; try done. intros i Hi. by apply elem_of_nil in Hi.
  - destruct vs as [|v vs]; [done|]. simpl in *.
    apply Forall_cons in Hall as [Hi Hall].
    destruct (decide (i < length ys)%nat) as [_|]; [|lia].
    destruct (IH vs (<[i := Some v]> ys)) as (ys' & -> & Hl & Hin & Hout).
    + lia.
    + by rewrite length_insert.
    + exists ys'. rewrite length_insert in Hl. repeat split; try done.
      * intros j Hj. apply elem_of_cons in Hj as [->|Hj]; [|by apply Hin].
        destruct (decide (i ∈ idx)) as [Hi'|Hi']; [by apply Hin|].
        exists v. rewrite Hout by done. by apply list_lookup_insert_eq.
      * intros j Hj. apply not_elem_of_cons in Hj as [Hne Hj].
        rewrite Hout by done. by apply list_lookup_insert_ne.
Qed.
End TensorFacts.


Section ShapeFacts.
Import Tensor Torch.
Local Open Scope Q_scope.

Lemma linear_Some l x inp out :
  Linear_shape l = Linear_dims inp out -> length x = inp ->
  exists y, linear l x = Some y /\ length y = out.
Proof.
  unfold Linear_shape, Linear_dims, linear. intros [= Hw Hb] Hx.
  assert (length (weight l) = out) as Hlw.
  { rewrite <- (length_map length), Hw. apply length_replicate. }
  rewrite (proj2 (forallb_forall _ _)).
  - eexists. split; [done|]. rewrite length_zip_with. lia.
  - intros row Hrow. apply Nat.eqb_eq. rewrite Hx.
    assert (length row ∈ map length (weight l)) as Hin.
    { apply list_elem_of_In. apply in_map. done. }
    rewrite Hw in Hin. apply elem_of_replicate in Hin. tauto.
Qed.

Lemma length_relu x : length (relu x) = length x.
Proof. apply length_map. Qed.

Lemma length_dropout p keep x : length (dropout p keep x) = length x.
Proof. apply length_imap. Qed.

Lemma MLP_forward_Some n m x inp out :
  MLP_shape n = MLP_dims inp out -> length x = inp ->
  exists y, MLP_forward n m x = Some y /\ length y = out.
Proof.
  unfold MLP_shape, MLP_dims. intros H Hx.
  assert (Linear_shape (fc1 n) = Linear_dims inp hidden_size) as H1 by congruence.
  assert (Linear_shape (fc2 n) = Linear_dims hidden_size hidden_size) as H2 by congruence.
  assert (Linear_shape (fc3 n) = Linear_dims hidden_size out) as H3 by congruence.
  clear H. unfold MLP_forward.
  destruct (linear_Some _ x _ _ H1 Hx) as (h1 & -> & L1). simpl.
  destruct (linear_Some _ (dropout dropout_p (drop1 m) (relu h1)) _ _ H2)
    as (h2 & -> & L2); [by rewrite length_dropout, length_relu|]. simpl.
  apply (linear_Some _ _ _ _ H3). by rewrite length_dropout, length_relu.
Qed.
End ShapeFacts.

Section SamplingFacts.
Import Tensor Torch.
Local Open Scope Q_scope.

Lemma qsum_nonneg xs : Forall (fun x => 0 <= x) xs -> 0 <= qsum xs.
Proof.
  induction 1 as [|x xs Hx _ IH]; simpl; lra.
Qed.

Lemma qsum_pos xs i x :
  Forall (fun x => 0 <= x) xs -> xs !! i = Some x -> 0 < x -> 0 < qsum xs.
Proof.
  intros H. revert i. induction H as [|y ys Hy Hys IH]; intros i Hi Hx.
  - by rewrite lookup_nil in Hi.
  - simpl. pose proof (qsum_nonneg ys Hys). destruct i as [|i]; simpl in Hi.
    + injection Hi as ->. lra.
    + specialize (IH i Hi Hx). lra.
Qed.







Section Softmax.
Context `{B : Backend}.


End Softmax.

End SamplingFacts.

Section NetworkFacts.
Import Tensor Torch.
Local Open Scope Q_scope.

Lemma DuelingQNetwork_forward_Some n m x ssize asize :
  DQN.network_shape (DQN.Dueling n) = DQN.network_dims true ssize asize ->
  length x = ssize ->
  exists y, DQN.DuelingQNetwork_forward n m x = Some y /\ length y = asize.
Proof.
  unfold DQN.network_shape, DQN.network_dims. intros H Hx.
  assert (Linear_shape (DQN.feature_layer n) = Linear_dims ssize hidden_size)
    as H1 by congruence.
  assert (Linear_shape (DQN.value_stream1 n) = Linear_dims hidden_size (hidden_size / 2))
    as H2 by congruence.
  assert (Linear_shape (DQN.value_stream2 n) = Linear_dims (hidden_size / 2) 1)
    as H3 by congruence.
  assert (Linear_shape (DQN.advantage_stream1 n) = Linear_dims hidden_size (hidden_size / 2))
    as H4 by congruence.
  assert (Linear_shape (DQN.advantage_stream2 n) = Linear_dims (hidden_size / 2) asize)
    as H5 by congruence.
  clear H. unfold DQN.DuelingQNetwork_forward.
  destruct (linear_Some _ x _ _ H1 Hx) as (f & -> & Lf). simpl.
  set (features := dropout dropout_p (drop1 m) (relu f)).
  assert (length features = hidden_size) as Lfe
    by (unfold features; by rewrite length_dropout, length_relu).
  destruct (linear_Some _ features _ _ H2 Lfe) as (v1 & -> & Lv1). simpl.
  destruct (linear_Some _ (relu v1) _ _ H3) as (value & -> & Lv);
    [by rewrite length_relu|]. simpl.
  destruct (linear_Some _ features _ _ H4 Lfe) as (a1 & -> & La1). simpl.
  destruct (linear_Some _ (relu a1) _ _ H5) as (adv & -> & La);
    [by rewrite length_relu|]. simpl.
  destruct value as [|v [|? ?]]; try done.
  simpl. eexists. split; [done|]. by rewrite length_map.
Qed.

Lemma network_forward_Some n m x dueling ssize asize :
  DQN.network_shape n = DQN.network_dims dueling ssize asize ->
  length x = ssize ->
  exists q, DQN.forward n m x = Some q /\ length q = asize.
Proof.
  intros Hs Hl. destruct n as [n|n]; simpl.
  - destruct dueling; [done|].
    apply MLP_forward_Some with (inp := ssize); [|done].
    unfold DQN.network_shape, DQN.network_dims in Hs. congruence.
  - destruct dueling; [|done].
    by apply DuelingQNetwork_forward_Some with (ssize := ssize).
Qed.


(** What the constructors allocate has the sizes asked for. *)
Lemma Linear_init_shape r k inp out :
  Linear_shape (Linear_init r k inp out) = Linear_dims inp out.
Proof.
  unfold Linear_shape, Linear_init, Linear_dims. simpl.
  rewrite !length_map, length_seq. f_equal.
  rewrite <- (length_seq out 0) at 2.
  induction (seq 0 out) as [|i l IH]; simpl; [done|].
  rewrite length_map, length_seq. f_equal. apply IH.
Qed.

Lemma MLP_init_shape r inp out : MLP_shape (MLP_init r inp out) = MLP_dims inp out.
Proof. unfold MLP_shape, MLP_init, MLP_dims. simpl. by rewrite !Linear_init_shape. Qed.

Lemma DuelingQNetwork_init_shape r ssize asize :
  DQN.network_shape (DQN.Dueling (DQN.DuelingQNetwork_init r ssize asize))
  = DQN.network_dims true ssize asize.
Proof.
  unfold DQN.network_shape, DQN.DuelingQNetwork_init, DQN.network_dims.
  cbn [DQN.feature_layer DQN.value_stream1 DQN.value_stream2
       DQN.advantage_stream1 DQN.advantage_stream2].
  by rewrite !Linear_init_shape.
Qed.

Lemma ActorCriticNetwork_init_shape r ssize asize :
  PPO.ActorCriticNetwork_shape (PPO.ActorCriticNetwork_init r ssize asize)
  = PPO.ActorCriticNetwork_dims ssize asize.
Proof.
  unfold PPO.ActorCriticNetwork_shape, PPO.ActorCriticNetwork_init,
    PPO.ActorCriticNetwork_dims.
  cbn [PPO.shared1 PPO.shared2 PPO.actor PPO.critic].
  by rewrite !Linear_init_shape.
Qed.
End NetworkFacts.

Section SelectActionFacts.
Import Tensor Torch.
Local Open Scope Q_scope.
Context `{B : Backend} {VS : DQN.ValueStep}
        {PS : PolicyGradient.PolicyStep}
        {ACS : ActorCritic.ActorCriticStep} {PPS : PPO.PPOStep}.

Lemma choice_available available k :
  available <> [] -> exists a, DQN.choice available k = Some a /\ a ∈ available.
Proof.
  intros Hne. unfold DQN.choice.
  destruct (lookup_lt_is_Some_2 available (k mod length available)) as [a Ha].
  - apply Nat.mod_upper_bound. destruct available; [done|]. simpl. lia.
  - exists a. split; [done|]. by eapply list_elem_of_lookup_2.
Qed.

Lemma DQN_select_action_available (self : DQN.DQNAgent) state available training d :
  DQN.well_shaped self -> length state = DQN.state_size self ->
  available <> [] ->
  Forall (fun a => (a < DQN.action_size self)%nat) available ->
  exists a, DQN.select_action self state available training d = Some a
            /\ a ∈ available.
Proof.
  intros [Hs _] Hl Hne Hav. unfold DQN.select_action.
  destruct (training && Qltb (DQN.rand_unit d) (DQN.epsilon self)).
  - by apply choice_available.
  - destruct (network_forward_Some _ (DQN.act_masks d) state _ _ _ Hs Hl)
      as (q & -> & Lq).
    simpl.
    destruct (take_indices_Some q available) as (vals & -> & Lv).
    { by rewrite Lq. }
    simpl.
    destruct (put_indices_spec available vals (replicate (DQN.action_size self) None))
      as (masked & -> & Lm & Hin & Hout); [done| by rewrite length_replicate |].
    simpl.
    destruct (argmax_finite masked) as (a & -> & [v Hv]).
    { destruct available as [|a0 ?]; [done|]. exists a0. apply Hin. by left. }
    exists a. split; [done|].
    destruct (decide (a ∈ available)) as [|Hn]; [done|]. exfalso.
    rewrite (Hout a Hn) in Hv. apply lookup_replicate in Hv as [? _]. done.
Qed.




End SelectActionFacts.

Section ConstructorFacts.
Import Tensor Torch.
Context `{B : Backend}.

Lemma DQNAgent_init_well_shaped c ssize asize h r :
  DQN.is_dueling c = false ->
  DQN.well_shaped (DQN.DQNAgent_init c ssize asize h r).
Proof.
  intros Hc. unfold DQN.well_shaped, DQN.DQNAgent_init.
  cbn [DQN.q_network DQN.target_network DQN.class DQN.state_size DQN.action_size].
  rewrite Hc. unfold DQN.network_shape, DQN.network_dims, DQN.QNetwork_init.
  by rewrite MLP_init_shape.
Qed.

Lemma DuelingDQNAgent_init_well_shaped ssize asize h r r' :
  DQN.well_shaped (DQN.DuelingDQNAgent_init ssize asize h r r').
Proof.
  unfold DQN.well_shaped, DQN.DuelingDQNAgent_init, DQN.DQNAgent_init.
  cbn [DQN.q_network DQN.target_network DQN.class DQN.state_size
       DQN.action_size DQN.is_dueling].
  by rewrite DuelingQNetwork_init_shape.
Qed.

Lemma PolicyGradientAgent_init_well_shaped ssize asize lr0 g r :
  PolicyGradient.well_shaped (PolicyGradient.PolicyGradientAgent_init ssize asize lr0 g r).
Proof. apply MLP_init_shape. Qed.

Lemma ActorCriticAgent_init_well_shaped ssize asize lr0 g v e r r' :
  ActorCritic.well_shaped (ActorCritic.ActorCriticAgent_init ssize asize lr0 g v e r r').
Proof. split; apply MLP_init_shape. Qed.

Lemma PPOAgent_init_well_shaped ssize asize h r :
  PPO.well_shaped (PPO.PPOAgent_init ssize asize h r).
Proof. apply ActorCriticNetwork_init_shape. Qed.
End ConstructorFacts.

(** C1 (selection respects the available set): where the code departs
    from it.  Each policy agent, having loaded the weights of a policy
    settled on action 0 (networks of its constructor's sizes), is asked
    for an action on a state of its size with action 1 alone available.
    The probability of action 1 has underflowed to zero, the mask leaves
    no mass to renormalise, and [select_action] raises, in both modes and
    whatever the sampling draw.  The value agent with the same weights
    returns action 1. *)
Theorem policy_select_action_raises_on_underflow :
  let state := [0%Q] in
  let available := [1%nat] in
  (available <> [] /\ Forall (fun a => a < 2) available) /\
  (let self := Scenario.settled_pg in
   PolicyGradient.load_state_dict Sample.small_pg (PolicyGradient.state_dict self)
   = Some self /\
   PolicyGradient.well_shaped self /\
   length state = PolicyGradient.state_size self /\
   PolicyGradient.action_size self = 2 /\
   @PolicyGradient.get_action_probs Sample.backend (PolicyGradient.policy self)
     Sample.keep_all state
   = Some [1%Q; 0%Q] /\
   forall training u,
     PolicyGradient.select_action self state available training (Sample.sampling u)
     = None) /\
  (let self := Scenario.settled_ac in
   ActorCritic.load_state_dict Scenario.small_ac (ActorCritic.state_dict self)
   = Some self /\
   ActorCritic.well_shaped self /\
   length state = ActorCritic.state_size self /\
   ActorCritic.action_size self = 2 /\
   @ActorCritic.get_action_probs Sample.backend (ActorCritic.actor self)
     Sample.keep_all state
   = Some [1%Q; 0%Q] /\
   forall training u,
     ActorCritic.select_action self state available training
       {| ActorCritic.actor_masks := Sample.keep_all;
          ActorCritic.critic_masks := Sample.keep_all;
          ActorCritic.rand_unit := u |}
     = None) /\
  (let self := Scenario.settled_ppo in
   PPO.load_state_dict Scenario.small_ppo (PPO.state_dict self) = Some self /\
   PPO.well_shaped self /\
   length state = PPO.state_size self /\
   PPO.action_size self = 2 /\
   fst <$> @PPO.get_action_probs_and_value Sample.backend (PPO.policy self)
             Sample.keep_all state
   = Some [1%Q; 0%Q] /\
   forall training u,
     PPO.select_action self state available training
       {| PPO.act_masks := Sample.keep_all; PPO.rand_unit := u |}
     = None) /\
  (let self := Scenario.settled_dqn in
   DQN.load_state_dict Sample.fresh_dqn (DQN.state_dict self) = Some self /\
   forall training,
     DQN.select_action self state available training (Sample.dropping 0) = Some 1).
Proof.
  intros state available. split; [split; [discriminate|repeat constructor]|].
  split; [|split; [|split]].
  - split; [vm_compute; reflexivity|].
    split; [apply PolicyGradientAgent_init_well_shaped|].
    split; [reflexivity|]. split; [reflexivity|].
    split; [vm_compute; reflexivity|].
    intros [] u; vm_compute; reflexivity.
  - split; [vm_compute; reflexivity|].
    split; [apply ActorCriticAgent_init_well_shaped|].
    split; [reflexivity|]. split; [reflexivity|].
    split; [vm_compute; reflexivity|].
    intros [] u; vm_compute; reflexivity.
  - split; [vm_compute; reflexivity|].
    split; [apply PPOAgent_init_well_shaped|].
    split; [reflexivity|]. split; [reflexivity|].
    split; [vm_compute; reflexivity|].
    intros [] u; vm_compute; reflexivity.
  - split; [vm_compute; reflexivity|].
    intros []; vm_compute; reflexivity.
Qed.

Section TrainStepFacts.
Import Tensor Torch.
Local Open Scope Q_scope.
Context `{B : Backend} {VS : DQN.ValueStep}
        {PS : PolicyGradient.PolicyStep}
        {ACS : ActorCritic.ActorCriticStep} {PPS : PPO.PPOStep}.

Lemma DQN_train_step_short (self : DQN.DQNAgent) d :
  (ReplayBuffer.len (DQN.memory self) < DQN.batch_size self)%nat ->
  DQN.train_step self d = Some (0, self).
Proof.
  intros H. apply Nat.ltb_lt in H.
  unfold DQN.train_step, DQN.DQNAgent_train_step, DQN.DoubleDQNAgent_train_step.
  destruct (DQN.class self); by rewrite H.
Qed.

Lemma PG_train_step_empty (self : PolicyGradient.PolicyGradientAgent) :
  PolicyGradient.rewards self = [] ->
  PolicyGradient.train_step self = Some (0, self).
Proof. intros H. unfold PolicyGradient.train_step. by rewrite H. Qed.

Lemma AC_train_step_empty (self : ActorCritic.ActorCriticAgent) :
  ActorCritic.rewards self = [] ->
  ActorCritic.train_step self = Some ((0, 0), self).
Proof. intros H. unfold ActorCritic.train_step. by rewrite H. Qed.

Lemma PPO_train_step_empty (self : PPO.PPOAgent) masks :
  PPO.states self = [] ->
  PPO.train_step self masks = Some ((0, 0, 0), self).
Proof. intros H. unfold PPO.train_step. by rewrite H. Qed.

(** C3 (no-op on insufficient data).  Whatever the variant, when the
    buffer its [train_step] checks holds too little (fewer transitions
    than a batch; no reward; no stored state), the call returns the zero
    metric and the agent it leaves is the agent it found: network
    parameters, optimiser state, scalars and buffers alike. *)
Theorem train_step_insufficient_noop (ag : Agent.agent) (d : Agent.TrainDraw) :
  Agent.insufficient ag ->
  Agent.train_step ag d = Some (Agent.zero_metric ag, ag).
Proof.
  destruct ag as [self|self|self|self]; simpl; intros H.
  - by rewrite DQN_train_step_short.
  - by rewrite PG_train_step_empty.
  - by rewrite AC_train_step_empty.
  - by rewrite PPO_train_step_empty.
Qed.
End TrainStepFacts.

(** The claim at work: a freshly built DQN agent has an empty replay
    buffer and a batch size of 32. *)
Lemma train_step_insufficient_noop_witness :
  let ag := @Agent.OfDQN Sample.backend Sample.dqn in
  let d := {| Agent.replay :=
                {| DQN.picks := []; DQN.masks_current := fun _ => Sample.keep_all;
                   DQN.masks_select := fun _ => Sample.keep_all;
                   DQN.masks_next := fun _ => Sample.keep_all |};
              Agent.epoch_masks := fun _ _ => Sample.keep_all |} in
  Agent.insufficient ag /\
  @Agent.train_step Sample.backend Sample.value_step Sample.policy_step
    Sample.actor_critic_step Sample.ppo_step ag d
  = Some (Agent.zero_metric ag, ag).
Proof.
  intros ag d.
  assert (Agent.insufficient ag) as H.
  { simpl. unfold ReplayBuffer.len. simpl. lia. }
  split; [exact H|].
  exact (@train_step_insufficient_noop Sample.backend Sample.value_step
           Sample.policy_step Sample.actor_critic_step Sample.ppo_step ag d H).
Defined.

Section EpsilonFacts.
Import Tensor Torch.
Local Open Scope Q_scope.
Context `{B : Backend} {VS : DQN.ValueStep}.

Lemma finish_update_epsilon (self self' : DQN.DQNAgent) q' opt' :
  DQN.finish_update self q' opt' = Some self' ->
  DQN.epsilon self' = DQN.decay_epsilon self /\
  DQN.epsilon_min self' = DQN.epsilon_min self /\
  DQN.epsilon_decay self' = DQN.epsilon_decay self.
Proof.
  unfold DQN.finish_update. destruct (DQN.target_update_freq self =? 0)%nat; [done|].
  intros [= <-]. done.
Qed.

(** A completed update leaves epsilon decayed once, floor and factor as
    they were. *)
Lemma train_step_epsilon (self self' : DQN.DQNAgent) d loss :
  (DQN.batch_size self <= ReplayBuffer.len (DQN.memory self))%nat ->
  DQN.train_step self d = Some (loss, self') ->
  DQN.epsilon self' = DQN.decay_epsilon self /\
  DQN.epsilon_min self' = DQN.epsilon_min self /\
  DQN.epsilon_decay self' = DQN.epsilon_decay self.
Proof.
  intros Hlen. apply Nat.ltb_ge in Hlen.
  unfold DQN.train_step, DQN.DQNAgent_train_step, DQN.DoubleDQNAgent_train_step.
  destruct (DQN.class self); rewrite Hlen; intros H;
    repeat (match type of H with
            | (mbind _ ?m) = Some _ => destruct m eqn:?; simpl in H; [|done]
            | (let '(_, _) := ?p in _) = _ => destruct p eqn:?
            end);
    injection H as _ <-; by eapply finish_update_epsilon.
Qed.

(** Above the floor the rate is multiplied by the factor; at or below the
    floor it stays. *)
Lemma decay_epsilon_above (self : DQN.DQNAgent) :
  DQN.epsilon_min self < DQN.epsilon self ->
  DQN.decay_epsilon self = DQN.epsilon self * DQN.epsilon_decay self.
Proof.
  intros H. unfold DQN.decay_epsilon, DQN.decay_rule.
  by rewrite (proj2 (Qltb_true _ _) H).
Qed.

Lemma decay_epsilon_at_floor (self : DQN.DQNAgent) :
  DQN.epsilon self <= DQN.epsilon_min self ->
  DQN.decay_epsilon self = DQN.epsilon self.
Proof.
  intros H. unfold DQN.decay_epsilon, DQN.decay_rule.
  by rewrite (proj2 (Qltb_false _ _) H).
Qed.

(** How far below the floor the decay can land: less than one factor. *)
Lemma decay_epsilon_lower_bound (self : DQN.DQNAgent) :
  0 < DQN.epsilon_decay self -> DQN.epsilon_decay self < 1 ->
  0 <= DQN.epsilon_min self ->
  DQN.epsilon_min self * DQN.epsilon_decay self <= DQN.epsilon self ->
  DQN.epsilon_min self * DQN.epsilon_decay self <= DQN.decay_epsilon self.
Proof.
  intros Hd0 Hd1 Hm He. unfold DQN.decay_epsilon, DQN.decay_rule.
  destruct (Qltb (DQN.epsilon_min self) (DQN.epsilon self)) eqn:E; [|done].
  apply Qltb_true in E. nra.
Qed.
End EpsilonFacts.

(** C2 (exploration decay), as amended.  A completed update multiplies
    epsilon by [epsilon_decay] when it found it above [epsilon_min], and
    leaves it as it is otherwise; the floor and the factor never change. *)
Theorem epsilon_decay_rule `{B : Torch.Backend} {VS : DQN.ValueStep}
    (self self' : DQN.DQNAgent) (d : DQN.TrainDraw) (loss : Q) :
  DQN.batch_size self <= ReplayBuffer.len (DQN.memory self) ->
  DQN.train_step self d = Some (loss, self') ->
  DQN.epsilon_min self' = DQN.epsilon_min self /\
  DQN.epsilon_decay self' = DQN.epsilon_decay self /\
  ((DQN.epsilon_min self < DQN.epsilon self)%Q ->
   DQN.epsilon self' = (DQN.epsilon self * DQN.epsilon_decay self)%Q) /\
  ((DQN.epsilon self <= DQN.epsilon_min self)%Q ->
   DQN.epsilon self' = DQN.epsilon self).
Proof.
  intros Hlen Hstep.
  destruct (train_step_epsilon self self' d loss Hlen Hstep) as (He & Hm & Hd).
  repeat split; try done.
  - intros H. rewrite He. by apply decay_epsilon_above.
  - intros H. rewrite He. by apply decay_epsilon_at_floor.
Qed.

(** The rule on the small agent: one stored transition, batches of one. *)
Lemma epsilon_decay_rule_witness :
  let self := Sample.small_dqn in
  exists loss self',
    (DQN.batch_size self <= ReplayBuffer.len (DQN.memory self) /\
     @DQN.train_step Sample.backend Sample.value_step self Sample.train_draw
     = Some (loss, self')) /\
    (DQN.epsilon_min self' = DQN.epsilon_min self /\
     DQN.epsilon_decay self' = DQN.epsilon_decay self /\
     ((DQN.epsilon_min self < DQN.epsilon self)%Q ->
      DQN.epsilon self' = (DQN.epsilon self * DQN.epsilon_decay self)%Q) /\
     ((DQN.epsilon self <= DQN.epsilon_min self)%Q ->
      DQN.epsilon self' = DQN.epsilon self)).
Proof.
  intros self.
  destruct (@DQN.train_step Sample.backend Sample.value_step self Sample.train_draw)
    as [[loss self']|] eqn:E; [|vm_compute in E; discriminate E].
  assert (DQN.batch_size self <= ReplayBuffer.len (DQN.memory self)) as Hlen.
  { vm_compute. lia. }
  exists loss, self'. split; [split; [exact Hlen|reflexivity]|].
  exact (@epsilon_decay_rule Sample.backend Sample.value_step self self'
           Sample.train_draw loss Hlen E).
Defined.

(** C2, the claim as stated refuted on two agents.  The first is built
    with [epsilon = 1], [epsilon_min = 1/2], [epsilon_decay = 3/4]: its
    third completed update finds epsilon at [9/16], above the floor, and
    leaves it at [27/64], below.  The second differs in [epsilon = 1/4]
    only: it is below the floor from the start and its first completed
    update leaves it there. *)
Lemma epsilon_falls_below_floor :
  let report (self : DQN.DQNAgent) :=
    (DQN.update_counter self, DQN.epsilon_min self, DQN.epsilon self) in
  (report <$> Sample.train_steps 3 Sample.small_dqn
   = Some (3, (1 # 2)%Q, (27 # 64)%Q) /\ (27 # 64 < 1 # 2)%Q) /\
  (report <$> Sample.train_steps 1 Sample.low_dqn
   = Some (1, (1 # 2)%Q, (1 # 4)%Q) /\ (1 # 4 < 1 # 2)%Q).
Proof.
  split; (split; [vm_compute; reflexivity|reflexivity]).
Qed.

(** The same with the constructor's defaults: from [1.0], floor [0.01],
    factor [0.995], the 919th update is the first to land below the floor. *)
Example default_epsilon_below_floor :
  let step := DQN.decay_rule (1 # 100) (995 # 1000) in
  (1 # 100 < Nat.iter 918 step 1)%Q /\ (Nat.iter 919 step 1 < 1 # 100)%Q.
Proof. split; vm_compute; reflexivity. Qed.

Section RoundTripFacts.
Import Tensor Torch.
Local Open Scope Q_scope.
Context `{B : Backend}.

Lemma network_load_same_shape current loaded :
  DQN.network_shape current = DQN.network_shape loaded ->
  DQN.network_load current loaded = Some loaded.
Proof. intros H. unfold DQN.network_load. by rewrite decide_True. Qed.

(** Loading into an agent whose networks have the sizes of the saved ones
    succeeds and installs the saved networks, optimiser and epsilon. *)
Lemma DQN_load_state_dict_Some (a b : DQN.DQNAgent) :
  DQN.network_shape (DQN.q_network b) = DQN.network_shape (DQN.q_network a) ->
  DQN.network_shape (DQN.target_network b) = DQN.network_shape (DQN.target_network a) ->
  exists b', DQN.load_state_dict b (DQN.state_dict a) = Some b' /\
    DQN.q_network b' = DQN.q_network a /\
    DQN.target_network b' = DQN.target_network a /\
    DQN.optimizer b' = DQN.optimizer a /\
    DQN.epsilon b' = DQN.epsilon a /\
    DQN.action_size b' = DQN.action_size b.
Proof.
  intros Hq Ht. unfold DQN.load_state_dict, DQN.state_dict. simpl.
  rewrite (network_load_same_shape _ _ Hq). simpl.
  rewrite (network_load_same_shape _ _ Ht). simpl.
  eexists. split; [done|]. done.
Qed.

Lemma DQN_greedy_same (a b : DQN.DQNAgent) state available d :
  DQN.q_network b = DQN.q_network a ->
  DQN.action_size b = DQN.action_size a ->
  DQN.select_action b state available false d
  = DQN.select_action a state available false d.
Proof. intros Hq Ha. unfold DQN.select_action. simpl. by rewrite Hq, Ha. Qed.

(** C4 (round trip), as amended.  A freshly constructed agent of the
    class and sizes of [a] accepts [a]'s state dictionary, and from then
    on answers every [select_action] call in evaluation mode as [a]
    answers it under the same random draws (dropout masks, sampling
    draw): for every state and every list of available actions. *)
Theorem load_state_dict_same_choice (a b : Agent.agent) :
  Agent.well_shaped a -> Agent.fresh_for a b ->
  exists b',
    Agent.load_state_dict b (Agent.state_dict a) = Some b' /\
    forall (state : list Q) (available_actions : list nat) (d : Agent.Draw),
      fst <$> Agent.select_action b' state available_actions false d
      = fst <$> Agent.select_action a state available_actions false d.
Proof.
  intros Hs Hf. destruct Hf as [self h r Hc|self h r r' Hc|self lr0 g r
                               |self lr0 g v e r r'|self h r]; simpl in Hs.
  - destruct Hs as [Hq Ht].
    pose proof (DQNAgent_init_well_shaped (DQN.class self) (DQN.state_size self)
                  (DQN.action_size self) h r Hc) as [Hq' Ht'].
    destruct (DQN_load_state_dict_Some self
                (DQN.DQNAgent_init (DQN.class self) (DQN.state_size self)
                   (DQN.action_size self) h r)) as (b' & Hb & Eq & _ & _ & _ & Ea).
    { rewrite Hq', Hq. done. }
    { rewrite Ht', Ht. done. }
    exists (Agent.OfDQN b'). simpl. rewrite Hb. split; [done|].
    intros state av d. simpl.
    rewrite (DQN_greedy_same self b') by done.
    by destruct (DQN.select_action self _ _ _ _).
  - destruct Hs as [Hq Ht].
    pose proof (DuelingDQNAgent_init_well_shaped (DQN.state_size self)
                  (DQN.action_size self) h r r') as [Hq' Ht'].
    destruct (DQN_load_state_dict_Some self
                (DQN.DuelingDQNAgent_init (DQN.state_size self)
                   (DQN.action_size self) h r r')) as (b' & Hb & Eq & _ & _ & _ & Ea).
    { rewrite Hq', Hq. simpl. by rewrite Hc. }
    { rewrite Ht', Ht. simpl. by rewrite Hc. }
    exists (Agent.OfDQN b'). simpl. rewrite Hb. split; [done|].
    intros state av d. simpl.
    rewrite (DQN_greedy_same self b') by done.
    by destruct (DQN.select_action self _ _ _ _).
  - unfold PolicyGradient.well_shaped in Hs. simpl.
    unfold PolicyGradient.load_state_dict.
    cbn [PolicyGradient.state_dict PolicyGradient.sd_policy PolicyGradient.sd_optimizer
         PolicyGradient.PolicyGradientAgent_init PolicyGradient.policy].
    rewrite decide_True by (by rewrite MLP_init_shape, Hs).
    eexists. split; [done|]. intros state av d. simpl.
    unfold PolicyGradient.select_action. simpl.
    destruct (PolicyGradient.get_action_probs _ _ _) as [probs|]; [|done]. simpl.
    destruct (masked_sample _ _ _ _) as [[dist act]|]; done.
  - destruct Hs as [Hsa Hsc]. simpl.
    unfold ActorCritic.load_state_dict.
    cbn [ActorCritic.state_dict ActorCritic.sd_actor ActorCritic.sd_critic
         ActorCritic.ActorCriticAgent_init ActorCritic.actor ActorCritic.critic].
    rewrite decide_True by (by rewrite MLP_init_shape, Hsa).
    rewrite decide_True by (by rewrite MLP_init_shape, Hsc).
    eexists. split; [done|]. intros state av d. simpl.
    unfold ActorCritic.select_action. simpl.
    destruct (ActorCritic.get_action_probs _ _ _) as [probs|]; [|done]. simpl.
    destruct (MLP_forward _ _ _) as [value|]; [|done]. simpl.
    destruct (masked_sample _ _ _ _) as [[dist act]|]; done.
  - unfold PPO.well_shaped in Hs. simpl.
    unfold PPO.load_state_dict.
    cbn [PPO.state_dict PPO.sd_policy PPO.PPOAgent_init PPO.policy].
    rewrite decide_True by (by rewrite ActorCriticNetwork_init_shape, Hs).
    eexists. split; [done|]. intros state av d. simpl.
    unfold PPO.select_action. simpl.
    destruct (PPO.get_action_probs_and_value _ _ _) as [[probs value]|]; [|done]. simpl.
    destruct (masked_sample _ _ _ _) as [[dist act]|]; done.
Qed.
End RoundTripFacts.

(** The round trip on a value agent whose network has two separate paths
    to its two actions, loaded into a freshly built agent of its sizes. *)
Lemma load_state_dict_same_choice_witness :
  let a := @Agent.OfDQN Sample.backend Sample.trained_dqn in
  let b := @Agent.OfDQN Sample.backend Sample.fresh_dqn in
  (Agent.well_shaped a /\ Agent.fresh_for a b) /\
  exists b',
    Agent.load_state_dict b (Agent.state_dict a) = Some b' /\
    forall (state : list Q) (available_actions : list nat) (d : Agent.Draw),
      fst <$> Agent.select_action b' state available_actions false d
      = fst <$> Agent.select_action a state available_actions false d.
Proof.
  intros a b.
  assert (Agent.well_shaped a) as H1.
  { by apply (@DQNAgent_init_well_shaped Sample.backend). }
  assert (Agent.fresh_for a b) as H2.
  { exact (Agent.fresh_dqn Sample.trained_dqn DQN.default_hyper Sample.zeros eq_refl). }
  split; [by split|].
  exact (load_state_dict_same_choice a b H1 H2).
Defined.

(** C4, the claim as stated refuted.  With [training = false] the answer
    of [select_action] still depends on what is drawn.  The dropout
    layers of the value network are live: on the state [[1]] with both
    actions available, the agent answers 0 when the mask drawn zeroes
    hidden unit 1 and answers 1 when it zeroes hidden unit 0, and so does
    the agent loaded from it.  The policy agents sample: a freshly built
    REINFORCE agent answers 0 on a sampling draw of 1/4 and 1 on a draw
    of 3/4.  Two calls, one of each agent, need not agree. *)
Lemma greedy_choice_varies_with_dropout :
  (exists b',
     DQN.load_state_dict Sample.fresh_dqn (DQN.state_dict Sample.trained_dqn)
     = Some b' /\
     DQN.select_action Sample.trained_dqn [1%Q] [0; 1] false (Sample.dropping 1)
     = Some 0 /\
     DQN.select_action b' [1%Q] [0; 1] false (Sample.dropping 0) = Some 1 /\
     DQN.select_action Sample.trained_dqn [1%Q] [0; 1] false (Sample.dropping 0)
     = Some 1) /\
  fst <$> PolicyGradient.select_action Sample.small_pg [1%Q] [0; 1] false
            (Sample.sampling (1 # 4)) = Some 0 /\
  fst <$> PolicyGradient.select_action Sample.small_pg [1%Q] [0; 1] false
            (Sample.sampling (3 # 4)) = Some 1.
Proof.
  split.
  - eexists. split; [vm_compute; reflexivity|].
    repeat split; vm_compute; reflexivity.
  - split; vm_compute; reflexivity.
Qed.

Section GAEFacts.
Import Tensor Torch.
Local Open Scope Q_scope.
Context `{B : Backend}.

Lemma hd_lookup (l : list Q) : hd 0 l = default 0 (l !! 0%nat).
Proof. by destruct l. Qed.

(** What the loop produces, step by step. *)
Lemma gae_loop_steps (self : PPO.PPOAgent) vals fuel : forall t advs,
  PPO.gae_loop self vals fuel t = Some advs ->
  length advs = fuel /\
  forall k, (k < fuel)%nat ->
    exists r v_next d v,
      PPO.rewards self !! (t + k)%nat = Some r /\
      vals !! S (t + k) = Some v_next /\
      PPO.dones self !! (t + k)%nat = Some d /\
      vals !! (t + k)%nat = Some v /\
      advs !! k =
        Some (r + PPO.gamma self * v_next * (1 - PPO.done_flag d) - v
              + PPO.gamma self * PPO.gae_lambda self * (1 - PPO.done_flag d)
                * default 0 (advs !! S k)).
Proof.
  induction fuel as [|fuel IH]; intros t advs H; simpl in H.
  - injection H as <-. split; [done|]. intros k Hk. lia.
  - destruct (PPO.gae_loop self vals fuel (S t)) as [later|] eqn:E; [|done].
    simpl in H.
    destruct (PPO.rewards self !! t) as [r|] eqn:Er; [|done]. simpl in H.
    destruct (vals !! S t) as [v1|] eqn:Ev1; [|done]. simpl in H.
    destruct (PPO.dones self !! t) as [d|] eqn:Ed; [|done]. simpl in H.
    destruct (vals !! t) as [v|] eqn:Ev; [|done]. simpl in H.
    injection H as <-.
    destruct (IH _ _ E) as [Hl Hk]. split; [simpl; lia|].
    intros [|k] Hlt.
    + exists r, v1, d, v. rewrite Nat.add_0_r. repeat split; try done.
      simpl. by rewrite hd_lookup.
    + destruct (Hk k) as (r' & v1' & d' & v' & ? & ? & ? & ? & ?); [lia|].
      exists r', v1', d', v'.
      replace (t + S k)%nat with (S t + k)%nat by lia. done.
Qed.

(** The loop runs through when the buffers are long enough. *)
Lemma gae_loop_Some (self : PPO.PPOAgent) vals fuel : forall t,
  (t + fuel <= length (PPO.rewards self))%nat ->
  (t + fuel <= length (PPO.dones self))%nat ->
  (t + fuel < length vals)%nat ->
  is_Some (PPO.gae_loop self vals fuel t).
Proof.
  induction fuel as [|fuel IH]; intros t Hr Hd Hv; simpl; [done|].
  destruct (IH (S t)) as [later ->]; [lia..|]. simpl.
  destruct (lookup_lt_is_Some_2 (PPO.rewards self) t) as [r ->]; [lia|]. simpl.
  destruct (lookup_lt_is_Some_2 vals (S t)) as [v1 ->]; [lia|]. simpl.
  destruct (lookup_lt_is_Some_2 (PPO.dones self) t) as [d ->]; [lia|]. simpl.
  destruct (lookup_lt_is_Some_2 vals t) as [v ->]; [lia|]. simpl. done.
Qed.

Lemma bootstrap_lookup (values : list Q) t :
  (t <= length values)%nat ->
  (values ++ [0]) !! t = Some (default 0 (values !! t)).
Proof.
  intros H. destruct (decide (t < length values)%nat) as [Hlt|Hge].
  - rewrite lookup_app_l by done.
    destruct (lookup_lt_is_Some_2 values t Hlt) as [v ->]. done.
  - assert (t = length values) as -> by lia.
    rewrite lookup_app_r by lia. rewrite Nat.sub_diag.
    rewrite (proj2 (lookup_ge_None values (length values))) by lia. done.
Qed.

(** C6 (generalised advantage estimation).  On a rollout with one value
    and one done flag per reward, [compute_gae] returns; the value past
    the last step is the appended 0; at every step [t] the advantage is
    [delta_t + gamma * lambda * (1 - done_t) * A_(t+1)] with
    [delta_t = r_t + gamma * V_(t+1) * (1 - done_t) - V_t] and [A] past the
    end 0, and the return is the advantage plus [V_t]; with [lambda = 0]
    the advantage is [delta_t]; on a one-step rollout that is done the
    advantage is [reward - V]. *)
Theorem compute_gae_recurrence (self : PPO.PPOAgent) :
  length (PPO.values self) = length (PPO.rewards self) ->
  length (PPO.dones self) = length (PPO.rewards self) ->
  exists advantages returns,
    PPO.compute_gae self = Some (advantages, returns) /\
    length advantages = length (PPO.rewards self) /\
    length returns = length (PPO.rewards self) /\
    (forall t r v d,
       PPO.rewards self !! t = Some r ->
       PPO.values self !! t = Some v ->
       PPO.dones self !! t = Some d ->
       let v_next := default 0 (PPO.values self !! S t) in
       let a_next := default 0 (advantages !! S t) in
       let delta := r + PPO.gamma self * v_next * (1 - PPO.done_flag d) - v in
       let a := delta + PPO.gamma self * PPO.gae_lambda self * (1 - PPO.done_flag d) * a_next in
       advantages !! t = Some a /\
       returns !! t = Some (a + v) /\
       (PPO.gae_lambda self == 0 -> a == delta)) /\
    (forall r v,
       PPO.rewards self = [r] -> PPO.values self = [v] -> PPO.dones self = [true] ->
       exists a, advantages = [a] /\ a == r - v).
Proof.
  intros Hv Hd. unfold PPO.compute_gae.
  destruct (gae_loop_Some self (PPO.values self ++ [0]) (length (PPO.rewards self)) 0)
    as [advs E]; [lia|lia|rewrite length_app; simpl; lia|].
  rewrite E. simpl. eexists _, _. split; [done|].
  destruct (gae_loop_steps self _ _ _ _ E) as [Hl Hk].
  split; [done|]. split; [rewrite length_zip_with; lia|].
  assert (forall t r v d,
       PPO.rewards self !! t = Some r ->
       PPO.values self !! t = Some v ->
       PPO.dones self !! t = Some d ->
       advs !! t =
         Some (r + PPO.gamma self * default 0 (PPO.values self !! S t)
                   * (1 - PPO.done_flag d) - v
               + PPO.gamma self * PPO.gae_lambda self * (1 - PPO.done_flag d)
                 * default 0 (advs !! S t))) as Hstep.
  { intros t r v d Hr Hvt Hdt.
    assert (t < length (PPO.rewards self))%nat as Hlt by (by eapply lookup_lt_Some).
    destruct (Hk t Hlt) as (r' & v1 & d' & v' & Hr' & Hv1 & Hd' & Hv' & Ha).
    simpl in *. rewrite Hr in Hr'. injection Hr' as <-.
    rewrite Hdt in Hd'. injection Hd' as <-.
    rewrite bootstrap_lookup in Hv1 by lia. injection Hv1 as <-.
    rewrite bootstrap_lookup in Hv' by lia. rewrite Hvt in Hv'. injection Hv' as <-.
    done. }
  split.
  - intros t r v d Hr Hvt Hdt.
    pose proof (Hstep t r v d Hr Hvt Hdt) as Ha.
    split; [done|]. split.
    + rewrite lookup_zip_with, Ha. simpl. by rewrite Hvt.
    + intros Hz. rewrite Hz. ring.
  - intros r v Hr Hvs Hds.
    destruct advs as [|a [|? ?]]; rewrite Hr in Hl; simpl in Hl; try lia.
    exists a. split; [done|].
    assert (PPO.rewards self !! 0%nat = Some r) as H1 by (by rewrite Hr).
    assert (PPO.values self !! 0%nat = Some v) as H2 by (by rewrite Hvs).
    assert (PPO.dones self !! 0%nat = Some true) as H3 by (by rewrite Hds).
    pose proof (Hstep 0%nat r v true H1 H2 H3) as Ha.
    rewrite Hvs in Ha. simpl in Ha. injection Ha as ->. ring.
Qed.
End GAEFacts.

(** The claim on a rollout of two steps, the second terminal. *)
Lemma compute_gae_recurrence_witness :
  let self := Sample.ppo_rollout in
  (length (PPO.values self) = length (PPO.rewards self) /\
   length (PPO.dones self) = length (PPO.rewards self)) /\
  exists advantages returns,
    PPO.compute_gae self = Some (advantages, returns) /\
    length advantages = length (PPO.rewards self) /\
    length returns = length (PPO.rewards self) /\
    (forall t r v d,
       PPO.rewards self !! t = Some r ->
       PPO.values self !! t = Some v ->
       PPO.dones self !! t = Some d ->
       let v_next := default 0%Q (PPO.values self !! S t) in
       let a_next := default 0%Q (advantages !! S t) in
       let delta :=
         (r + PPO.gamma self * v_next * (1 - PPO.done_flag d) - v)%Q in
       let a :=
         (delta + PPO.gamma self * PPO.gae_lambda self * (1 - PPO.done_flag d)
                  * a_next)%Q in
       advantages !! t = Some a /\
       returns !! t = Some (a + v)%Q /\
       ((PPO.gae_lambda self == 0)%Q -> (a == delta)%Q)) /\
    (forall r v,
       PPO.rewards self = [r] -> PPO.values self = [v] -> PPO.dones self = [true] ->
       exists a, advantages = [a] /\ (a == r - v)%Q).
Proof.
  intros self.
  assert (length (PPO.values self) = length (PPO.rewards self)) as H1 by reflexivity.
  assert (length (PPO.dones self) = length (PPO.rewards self)) as H2 by reflexivity.
  split; [by split|].
  exact (compute_gae_recurrence self H1 H2).
Defined.

(** The numbers of that rollout: rewards 1 and 2, values 1/2 and 1/4,
    discount 0.99, lambda 0.95. *)
Example compute_gae_two_steps :
  exists a0 a1 r0 r1,
    PPO.compute_gae Sample.ppo_rollout = Some ([a0; a1], [r0; r1]) /\
    (a1 == 2 - (1 # 4))%Q /\
    (a0 == 1 + (99 # 100) * (1 # 4) - (1 # 2)
           + (99 # 100) * (95 # 100) * (2 - (1 # 4)))%Q /\
    (r1 == 2)%Q.
Proof.
  eexists _, _, _, _. split; [vm_compute; reflexivity|].
  repeat split.
Qed.

Section ArgmaxFacts.
Import Tensor Torch.
Local Open Scope Q_scope.

Lemma argmax_from_max xs : forall best_i b i,
  (argmax_from best_i (Some b) i (Some <$> xs) = best_i /\
   forall j y, xs !! j = Some y -> y <= b) \/
  (exists j m, argmax_from best_i (Some b) i (Some <$> xs) = (i + j)%nat /\
               xs !! j = Some m /\ b <= m /\
               forall k y, xs !! k = Some y -> y <= m).
Proof.
  induction xs as [|x xs IH]; intros best_i b i.
  - left. split; [done|]. intros j y Hy. by rewrite lookup_nil in Hy.
  - rewrite fmap_cons. cbn [argmax_from ext_lt].
    destruct (Qltb b x) eqn:E.
    + apply Qltb_true in E.
      destruct (IH i x (S i)) as [[-> Hall]|(j & m & -> & Hj & Hle & Hall)].
      * right. exists 0%nat, x. split; [lia|]. split; [done|]. split; [lra|].
        intros [|k] y Hy; simpl in Hy; [injection Hy as <-; lra|by eapply Hall].
      * right. exists (S j), m. split; [lia|]. split; [done|]. split; [lra|].
        intros [|k] y Hy; simpl in Hy; [injection Hy as <-; lra|by eapply Hall].
    + apply Qltb_false in E.
      destruct (IH best_i b (S i)) as [[-> Hall]|(j & m & -> & Hj & Hle & Hall)].
      * left. split; [done|].
        intros [|k] y Hy; simpl in Hy; [injection Hy as <-; lra|by eapply Hall].
      * right. exists (S j), m. split; [lia|]. split; [done|]. split; [lra|].
        intros [|k] y Hy; simpl in Hy; [injection Hy as <-; lra|by eapply Hall].
Qed.

(** The arg-max of a row of numbers is the position of a largest one. *)
Lemma argmax_maximises row a :
  argmax (Some <$> row) = Some a -> DQN.maximises row a.
Proof.
  destruct row as [|x xs]; [done|]. rewrite fmap_cons. cbn [argmax]. intros [= <-].
  destruct (argmax_from_max xs 0%nat x 1%nat) as [[-> Hall]|(j & m & -> & Hj & Hle & Hall)].
  - exists x. split; [done|].
    intros [|k] y Hy; simpl in Hy; [injection Hy as <-; lra|by eapply Hall].
  - exists m. split; [done|].
    intros [|k] y Hy; simpl in Hy; [injection Hy as <-; lra|by eapply Hall].
Qed.
End ArgmaxFacts.

Section DoubleDQNFacts.
Import Tensor Torch.
Local Open Scope Q_scope.
Context `{B : Backend} {VS : DQN.ValueStep}.

Lemma forward_batch_lookup n masks states rows :
  DQN.forward_batch n masks states = Some rows ->
  length rows = length states /\
  forall i s, states !! i = Some s ->
    exists row, rows !! i = Some row /\ DQN.forward n (masks i) s = Some row.
Proof.
  unfold DQN.forward_batch. intros H. apply mapM_Some_1 in H.
  pose proof (Forall2_length _ _ _ H) as Hl.
  rewrite length_zip_with, length_seq, Nat.min_id in Hl.
  split; [done|]. intros i s Hs.
  assert (zip (seq 0 (length states)) states !! i = Some (i, s)) as Hz.
  { apply lookup_zip_with_Some. exists i, s. split; [done|]. split; [|done].
    apply lookup_seq. split; [done|]. by eapply lookup_lt_Some. }
  destruct (Forall2_lookup_l _ _ _ _ _ H Hz) as (row & Hrow & Hf).
  by exists row.
Qed.

Lemma gather_lookup rows idx vs :
  DQN.gather rows idx = Some vs ->
  length vs = Nat.min (length rows) (length idx) /\
  forall i row a, rows !! i = Some row -> idx !! i = Some a ->
    exists v, vs !! i = Some v /\ row !! a = Some v.
Proof.
  unfold DQN.gather. intros H. apply mapM_Some_1 in H.
  pose proof (Forall2_length _ _ _ H) as Hl.
  rewrite length_zip_with in Hl. split; [done|].
  intros i row a Hr Ha.
  assert (zip rows idx !! i = Some (row, a)) as Hz.
  { apply lookup_zip_with_Some. by exists row, a. }
  destruct (Forall2_lookup_l _ _ _ _ _ H Hz) as (v & Hv & Hf).
  by exists v.
Qed.

(** What the no-gradient block of [DoubleDQNAgent.train_step] computes. *)
Lemma DoubleDQNAgent_target_q_spec (self : DQN.DQNAgent) d batch target_q :
  DQN.DoubleDQNAgent_target_q self d batch = Some target_q ->
  length target_q = length batch /\
  forall i x, batch !! i = Some x ->
    exists q_online q_target t,
      DQN.forward (DQN.q_network self) (DQN.masks_select d i)
                  (ReplayBuffer.t_next_state x) = Some q_online /\
      DQN.forward (DQN.target_network self) (DQN.masks_next d i)
                  (ReplayBuffer.t_next_state x) = Some q_target /\
      target_q !! i = Some t /\
      DQN.double_dqn_target self x q_online q_target t.
Proof.
  unfold DQN.DoubleDQNAgent_target_q. intros H.
  destruct (DQN.forward_batch (DQN.q_network self) _ _) as [select_rows|] eqn:Es;
    [|done]. simpl in H.
  destruct (mapM _ select_rows) as [next_actions|] eqn:Ea; [|done]. simpl in H.
  destruct (DQN.forward_batch (DQN.target_network self) _ _) as [next_rows|] eqn:En;
    [|done]. simpl in H.
  destruct (DQN.gather next_rows next_actions) as [next_q|] eqn:Eg; [|done].
  simpl in H. injection H as <-.
  destruct (forward_batch_lookup _ _ _ _ Es) as [Ls Hs].
  destruct (forward_batch_lookup _ _ _ _ En) as [Ln Hn].
  rewrite length_map in Ls, Ln.
  apply mapM_Some_1 in Ea. pose proof (Forall2_length _ _ _ Ea) as La.
  destruct (gather_lookup _ _ _ Eg) as [Lg Hg].
  unfold DQN.bootstrap_target.
  split; [rewrite length_zip_with; lia|].
  intros i x Hx.
  assert (map ReplayBuffer.t_next_state batch !! i = Some (ReplayBuffer.t_next_state x)) as Hx'.
  { by rewrite list_lookup_fmap, Hx. }
  destruct (Hs _ _ Hx') as (q_online & Hqo & Hfo).
  destruct (Hn _ _ Hx') as (q_target & Hqt & Hft).
  destruct (Forall2_lookup_l _ _ _ _ _ Ea Hqo) as (a & Ha & Harg).
  destruct (Hg _ _ _ Hqt Ha) as (v & Hv & Hrow).
  exists q_online, q_target. eexists. split; [done|]. split; [done|].
  split.
  - rewrite lookup_zip_with, Hx. simpl. rewrite Hv. simpl. done.
  - exists a, v. split; [by apply argmax_maximises|]. done.
Qed.

(** C7 (Double DQN target).  A completed [train_step] of a
    [DoubleDQNAgent] computes, for each transition of the sampled batch,
    the target [reward + (1 - done) * gamma * Q'(next_state, a)], [a]
    being an action that maximises the online network's values at the
    next state and [Q'] the target network; the reported loss is the mean
    squared error against these targets, and the gradient step receives
    them as constants. *)
Theorem double_dqn_train_step_target (self self' : DQN.DQNAgent)
    (d : DQN.TrainDraw) (loss : Q) :
  DQN.class self = DQN.DoubleDQNAgentClass ->
  (DQN.batch_size self <= ReplayBuffer.len (DQN.memory self))%nat ->
  DQN.train_step self d = Some (loss, self') ->
  exists batch current_q target_q,
    ReplayBuffer.sample (DQN.memory self) (DQN.batch_size self)
        (DQN.picks d) = Some batch /\
    length target_q = length batch /\
    (forall i x, batch !! i = Some x ->
       exists q_online q_target t,
         DQN.forward (DQN.q_network self) (DQN.masks_select d i)
                     (ReplayBuffer.t_next_state x) = Some q_online /\
         DQN.forward (DQN.target_network self) (DQN.masks_next d i)
                     (ReplayBuffer.t_next_state x) = Some q_target /\
         target_q !! i = Some t /\
         DQN.double_dqn_target self x q_online q_target t) /\
    loss = mse current_q target_q /\
    DQN.q_network self' =
      fst (DQN.value_step (DQN.optimizer self) (DQN.q_network self)
             (DQN.masks_current d) (map ReplayBuffer.t_state batch)
             (map ReplayBuffer.t_action batch) target_q).
Proof.
  intros Hc Hlen. apply Nat.ltb_ge in Hlen.
  unfold DQN.train_step. rewrite Hc. unfold DQN.DoubleDQNAgent_train_step.
  rewrite Hlen. intros H.
  destruct (ReplayBuffer.sample _ _ _) as [batch|] eqn:Eb; [|done]. simpl in H.
  destruct (DQN.forward_batch _ _ _) as [rows|] eqn:Er; [|done]. simpl in H.
  destruct (DQN.gather rows _) as [current_q|] eqn:Ec; [|done]. simpl in H.
  destruct (DQN.DoubleDQNAgent_target_q self d batch) as [target_q|] eqn:Et;
    [|done]. simpl in H.
  destruct (DQN.value_step _ _ _ _ _ _) as [q' opt'] eqn:Ev.
  destruct (DQN.finish_update self q' opt') as [s1|] eqn:Ef; [|done].
  simpl in H. injection H as <- <-.
  destruct (DoubleDQNAgent_target_q_spec self d batch target_q Et) as [Hl Ht].
  exists batch, current_q, target_q. repeat split; try done.
  unfold DQN.finish_update in Ef.
  destruct (DQN.target_update_freq self =? 0)%nat; [done|].
  injection Ef as <-. simpl. by rewrite Ev.
Qed.
End DoubleDQNFacts.

(** The claim on a small [DoubleDQNAgent] holding one transition. *)
Lemma double_dqn_train_step_target_witness :
  let self := Sample.small_double_dqn in
  let d := Sample.train_draw in
  exists loss self',
    (DQN.class self = DQN.DoubleDQNAgentClass /\
     DQN.batch_size self <= ReplayBuffer.len (DQN.memory self) /\
     @DQN.train_step Sample.backend Sample.value_step self d = Some (loss, self')) /\
    exists batch current_q target_q,
      ReplayBuffer.sample (DQN.memory self) (DQN.batch_size self)
        (DQN.picks d) = Some batch /\
      length target_q = length batch /\
      (forall i x, batch !! i = Some x ->
         exists q_online q_target t,
           DQN.forward (DQN.q_network self) (DQN.masks_select d i)
                       (ReplayBuffer.t_next_state x) = Some q_online /\
           DQN.forward (DQN.target_network self) (DQN.masks_next d i)
                       (ReplayBuffer.t_next_state x) = Some q_target /\
           target_q !! i = Some t /\
           DQN.double_dqn_target self x q_online q_target t) /\
      loss = Tensor.mse current_q target_q /\
      DQN.q_network self' =
        fst (@DQN.value_step Sample.backend Sample.value_step
               (DQN.optimizer self) (DQN.q_network self)
               (DQN.masks_current d) (map ReplayBuffer.t_state batch)
               (map ReplayBuffer.t_action batch) target_q).
Proof.
  intros self d.
  destruct (@DQN.train_step Sample.backend Sample.value_step self d)
    as [[loss self']|] eqn:E; [|vm_compute in E; discriminate E].
  assert (DQN.class self = DQN.DoubleDQNAgentClass) as H1 by reflexivity.
  assert (DQN.batch_size self <= ReplayBuffer.len (DQN.memory self)) as H2.
  { vm_compute. lia. }
  exists loss, self'. split; [by repeat split|].
  exact (@double_dqn_train_step_target Sample.backend Sample.value_step
           self self' d loss H1 H2 E).
Defined.

(** The numbers of that update: the online values at the next state are
    [25/16] for both actions, the first maximal action is 0, and the
    target is [1 + 0.99 * 25/16]. *)
Example double_dqn_target_value :
  exists t,
    DQN.DoubleDQNAgent_target_q Sample.small_double_dqn Sample.train_draw
      [{| ReplayBuffer.t_state := [0%Q]; ReplayBuffer.t_action := 1;
          ReplayBuffer.t_reward := 1%Q; ReplayBuffer.t_next_state := [1%Q];
          ReplayBuffer.t_done := false |}] = Some [t] /\
    (t == 1 + (99 # 100) * (25 # 16))%Q.
Proof. eexists. split; [vm_compute; reflexivity|]. reflexivity. Qed.

Section DuelingFacts.
Import Tensor Torch.
Local Open Scope Q_scope.
Context `{B : Backend} {VS : DQN.ValueStep}.

(** The dueling network combines its streams as [V + (A - mean A)]. *)
Lemma DuelingQNetwork_forward_combines n m state q :
  DQN.DuelingQNetwork_forward n m state = Some q ->
  exists features v1 a1 v advantage,
    linear (DQN.value_stream2 n) (relu v1) = Some [v] /\
    linear (DQN.advantage_stream2 n) (relu a1) = Some advantage /\
    linear (DQN.value_stream1 n) features = Some v1 /\
    linear (DQN.advantage_stream1 n) features = Some a1 /\
    q = map (fun a => v + (a - mean advantage)) advantage.
Proof.
  unfold DQN.DuelingQNetwork_forward. intros H.
  destruct (linear (DQN.feature_layer n) state) as [f|]; [|done]. simpl in H.
  destruct (linear (DQN.value_stream1 n) _) as [v1|] eqn:E1; [|done]. simpl in H.
  destruct (linear (DQN.value_stream2 n) _) as [value|] eqn:E2; [|done]. simpl in H.
  destruct (linear (DQN.advantage_stream1 n) _) as [a1|] eqn:E3; [|done]. simpl in H.
  destruct (linear (DQN.advantage_stream2 n) _) as [adv|] eqn:E4; [|done]. simpl in H.
  unfold DQN.combine_streams in H. destruct value as [|v [|? ?]]; try done.
  injection H as <-. by eexists _, v1, a1, v, adv.
Qed.

(** [DuelingDQNAgent] inherits [train_step] from [DQNAgent]. *)
Lemma dueling_train_step_inherited (self : DQN.DQNAgent) d :
  DQN.class self = DQN.DuelingDQNAgentClass ->
  DQN.train_step self d = DQN.DQNAgent_train_step self d.
Proof. intros H. unfold DQN.train_step. by rewrite H. Qed.

(** The base constructor hands the optimiser the learning rate it was
    given; the dueling one hands it 0.001 whatever it was given. *)
Lemma DQNAgent_init_lr c ssize asize h r :
  lr (DQN.optimizer (DQN.DQNAgent_init c ssize asize h r)) = DQN.learning_rate h.
Proof. reflexivity. Qed.

Lemma DuelingDQNAgent_init_lr ssize asize h r r' :
  lr (DQN.optimizer (DQN.DuelingDQNAgent_init ssize asize h r r')) = 1 # 1000.
Proof. reflexivity. Qed.
End DuelingFacts.

(** C8 (dueling variant), the code at a failing input.  Both constructors
    are given the sizes of main.py and a learning rate of 0.01, every
    other argument at its default: the base agent's optimiser steps with
    0.01, the dueling agent's with 0.001. *)
Theorem dueling_optimizer_ignores_learning_rate :
  let h := {| DQN.learning_rate := 1 # 100; DQN.h_gamma := 99 # 100;
              DQN.h_epsilon := 1; DQN.h_epsilon_min := 1 # 100;
              DQN.h_epsilon_decay := 995 # 1000;
              DQN.buffer_size := DQN.buffer_size DQN.default_hyper;
              DQN.h_batch_size := 32; DQN.h_target_update_freq := 10 |} in
  Torch.lr (DQN.optimizer
              (@DQN.DQNAgent_init Sample.backend DQN.DQNAgentClass
                 Sample.state_size Sample.action_size h Sample.zeros))
  = (1 # 100)%Q /\
  Torch.lr (DQN.optimizer
              (@DQN.DuelingDQNAgent_init Sample.backend
                 Sample.state_size Sample.action_size h Sample.zeros Sample.zeros))
  = (1 # 1000)%Q.
Proof. split; reflexivity. Qed.

Section CheckpointFacts.
Import Checkpoint.
Local Open Scope string_scope.

Lemma fresh_bound (h : gmap loc pydict) :
  forall l, is_Some (h !! l) -> l < fresh h.
Proof.
  unfold fresh.
  apply (map_fold_weak_ind (fun acc (m : gmap loc pydict) =>
           forall l, is_Some (m !! l) -> l < S acc)).
  - intros l [x Hx]. by rewrite lookup_empty in Hx.
  - intros i x m r Hi IH l Hl.
    destruct (decide (l = i)) as [->|Hne]; [lia|].
    rewrite lookup_insert_ne in Hl by done. specialize (IH l Hl). lia.
Qed.

Lemma fresh_free (h : gmap loc pydict) : h !! fresh h = None.
Proof.
  destruct (h !! fresh h) eqn:E; [|done].
  pose proof (fresh_bound h (fresh h) (mk_is_Some _ _ E)). lia.
Qed.

Lemma torch_load_outcome w path dev :
  (exists d l, fs w !! path = Some (Pickle d) /\
     torch_load w path dev = (with_heap w (<[l := d]> (heap w)), Return l) /\
     heap w !! l = None) \/
  (exists e, torch_load w path dev = (w, Raise e)).
Proof.
  unfold torch_load. destruct (fs w !! path) as [[|d|d|c]|] eqn:E;
    try (right; by eexists).
  destruct dev as [[|i]|].
  - left. exists d, (fresh (heap w)). split; [done|]. split; [done|apply fresh_free].
  - destruct (i <? cuda_count w)%nat.
    + left. exists d, (fresh (heap w)). split; [done|]. split; [done|apply fresh_free].
    + right. by eexists.
  - left. exists d, (fresh (heap w)). split; [done|]. split; [done|apply fresh_free].
Qed.

(** C9 (load accepts a name or a path, and signals absence).  [load]
    never raises: it always returns, either a dictionary or [None].  It
    looks at [name] itself when that is a file, and at
    [<checkpoint_dir>/<name>.pt] otherwise.  A checkpoint stored at
    [name] itself is returned, and so is, when [name] is no file, the
    checkpoint stored under that bare name in the manager's directory
    (the device asked for, if any, being present): as a new dictionary
    object holding what is stored, everything else left as it was.  When
    no checkpoint is stored at the path looked at (nothing, a directory,
    or a file [torch.load] cannot read) it returns [None] and changes
    nothing; and a dictionary it returns is a new object holding what
    was stored. *)
Theorem load_absent_never_raises (self : CheckpointManager) (w : World)
    (name : string) (dev : option device) :
  (exists w' r, load self w name dev = (w', Return r)) /\
  (~ holds_checkpoint w (resolve self w name) ->
   load self w name dev = (w, Return None)) /\
  (isfile w name = true -> resolve self w name = name) /\
  (isfile w name = false ->
   resolve self w name = path_join (checkpoint_dir self) (name ++ ".pt")) /\
  (forall w' l, load self w name dev = (w', Return (Some l)) ->
     exists d, fs w !! resolve self w name = Some (Pickle d) /\
               heap w !! l = None /\ heap w' !! l = Some d) /\
  (forall d,
     fs w !! name = Some (Pickle d) \/
     (isfile w name = false /\
      fs w !! path_join (checkpoint_dir self) (name ++ ".pt") = Some (Pickle d)) ->
     match dev with Some (Cuda i) => (i < cuda_count w)%nat | _ => True end ->
     exists l,
       load self w name dev
       = (with_heap w (<[l := d]> (heap w)), Return (Some l)) /\
       heap w !! l = None).
Proof.
  split; [|split; [|split; [|split; [|split]]]].
  - unfold load. destruct (negb (exists_ w (resolve self w name))); [by eexists _, _|].
    destruct (torch_load_outcome w (resolve self w name) dev)
      as [(d & l & _ & -> & _)|[e ->]]; by eexists _, _.
  - intros Hn. unfold load.
    destruct (negb (exists_ w (resolve self w name))); [done|].
    destruct (torch_load_outcome w (resolve self w name) dev)
      as [(d & l & Hfs & _ & _)|[e ->]]; [|done].
    exfalso. apply Hn. by exists d.
  - by unfold resolve; intros ->.
  - by unfold resolve; intros ->.
  - intros w' l. unfold load.
    destruct (negb (exists_ w (resolve self w name))); [done|].
    destruct (torch_load_outcome w (resolve self w name) dev)
      as [(d & l0 & Hfs & -> & Hfree)|[e ->]]; [|done].
    intros [= <- <-]. exists d. split; [done|]. split; [done|].
    simpl. apply lookup_insert_eq.
  - intros d Hstored Hdev.
    assert (fs w !! resolve self w name = Some (Pickle d)) as Hfs.
    { unfold resolve. destruct Hstored as [Hn|[Hf Hn]].
      - assert (isfile w name = true) as -> by (unfold isfile; by rewrite Hn). done.
      - by rewrite Hf. }
    exists (fresh (heap w)). split; [|apply fresh_free].
    unfold load.
    assert (exists_ w (resolve self w name) = true) as ->.
    { unfold exists_. apply bool_decide_eq_true. by rewrite Hfs. }
    simpl. unfold torch_load. rewrite Hfs.
    destruct dev as [[|i]|]; try done.
    apply Nat.ltb_lt in Hdev. by rewrite Hdev.
Qed.
End CheckpointFacts.

Section SaveFacts.
Import Checkpoint.
Local Open Scope string_scope.

Lemma write_heap w path content : heap (write w path content).1 = heap w.
Proof.
  unfold write. destruct (bool_decide (path ∈ denied w)); [done|].
  by destruct (fs w !! path) as [[]|].
Qed.

(** Whether it returns or raises, [save] leaves the heap as it was but
    for the dictionary passed in. *)
Lemma save_heap self w name l d metadata :
  heap w !! l = Some d ->
  heap (save self w name l metadata).1 =
    <[l := <["timestamp" := PStr (now w)]>
             (if truthy metadata
              then <["metadata" := PDict (default ∅ metadata)]> d else d)]>
      (heap w).
Proof.
  intros Hl. unfold save. rewrite Hl.
  set (d2 := <["timestamp" := _]> _).
  set (w1 := with_heap w (<[l := d2]> (heap w))).
  unfold torch_save.
  assert (heap w1 !! l = Some d2) as -> by (simpl; apply lookup_insert_eq).
  destruct (write w1 _ (Pickle d2)) as [w2 [[]|e]] eqn:E2.
  - pose proof (write_heap w1 (path_join (checkpoint_dir self) (name ++ ".pt")) (Pickle d2)) as H2.
    rewrite E2 in H2. simpl in H2.
    match goal with |- context [write w2 ?p ?c] =>
      pose proof (write_heap w2 p c) as H3; destruct (write w2 p c) as [w3 [[]|e]] end;
      simpl in *; by rewrite H3, H2.
  - pose proof (write_heap w1 (path_join (checkpoint_dir self) (name ++ ".pt")) (Pickle d2)) as H2.
    rewrite E2 in H2. simpl in *. by rewrite H2.
Qed.

(** C10 (save mutates the caller's dictionary), as amended.  Whether
    [save] returns or raises, the dictionary object passed in holds
    afterwards, under ['timestamp'], the time of the call; under
    ['metadata'], the metadata argument when that is a non-empty
    dictionary, and what it held before otherwise ([None] or an empty
    dictionary adds no key); every other key keeps its value and no key is
    removed; the dictionary differs from what it was unless it already
    held that very timestamp; no other object of the heap changes. *)
Theorem save_mutates_checkpoint (self : CheckpointManager) (w : World)
    (name : string) (checkpoint : loc) (d : pydict) (metadata : option pydict) :
  heap w !! checkpoint = Some d ->
  let w' := (save self w name checkpoint metadata).1 in
  exists d',
    heap w' !! checkpoint = Some d' /\
    d' !! "timestamp" = Some (PStr (now w)) /\
    (truthy metadata = true ->
     d' !! "metadata" = Some (PDict (default ∅ metadata))) /\
    (truthy metadata = false -> d' !! "metadata" = d !! "metadata") /\
    (forall k, k <> "timestamp" -> k <> "metadata" -> d' !! k = d !! k) /\
    (forall k, is_Some (d !! k) -> is_Some (d' !! k)) /\
    (d !! "timestamp" <> Some (PStr (now w)) -> d' <> d) /\
    (forall l, l <> checkpoint -> heap w' !! l = heap w !! l).
Proof.
  intros Hl w'. unfold w'. rewrite (save_heap self w name checkpoint d metadata Hl).
  eexists. split; [apply lookup_insert_eq|].
  split; [apply lookup_insert_eq|].
  split.
  { intros ->. rewrite lookup_insert_ne by done. apply lookup_insert_eq. }
  split.
  { intros ->. by rewrite lookup_insert_ne. }
  split.
  { intros k H1 H2. rewrite lookup_insert_ne by done.
    destruct (truthy metadata); [by rewrite lookup_insert_ne|done]. }
  split.
  { intros k Hk. destruct (decide (k = "timestamp")) as [->|H1].
    - rewrite lookup_insert_eq. by eexists.
    - rewrite lookup_insert_ne by done.
      destruct (truthy metadata); [|done].
      destruct (decide (k = "metadata")) as [->|H2].
      + rewrite lookup_insert_eq. by eexists.
      + by rewrite lookup_insert_ne. }
  split.
  { intros Hne Heq. apply Hne. rewrite <- Heq at 1. apply lookup_insert_eq. }
  intros l Hne. by rewrite lookup_insert_ne.
Qed.
End SaveFacts.

(** The amended claim on a dictionary with two keys and a one-key metadata. *)
Lemma save_mutates_checkpoint_witness :
  let w := Sample.world in
  let d : Checkpoint.pydict :=
    {[ "episode" := Checkpoint.PInt 5; "reward" := Checkpoint.PFloat (3 # 2) ]} in
  let metadata : option Checkpoint.pydict :=
    Some {[ "algorithm" := Checkpoint.PStr "dqn" ]} in
  Checkpoint.heap w !! 0 = Some d /\
  let w' := (Checkpoint.save Sample.manager w "m" 0 metadata).1 in
  exists d',
    Checkpoint.heap w' !! 0 = Some d' /\
    d' !! "timestamp" = Some (Checkpoint.PStr (Checkpoint.now w)) /\
    (Checkpoint.truthy metadata = true ->
     d' !! "metadata" = Some (Checkpoint.PDict (default ∅ metadata))) /\
    (Checkpoint.truthy metadata = false -> d' !! "metadata" = d !! "metadata") /\
    (forall k, k <> "timestamp" -> k <> "metadata" -> d' !! k = d !! k) /\
    (forall k, is_Some (d !! k) -> is_Some (d' !! k)) /\
    (d !! "timestamp" <> Some (Checkpoint.PStr (Checkpoint.now w)) -> d' <> d) /\
    (forall l, l <> 0 -> Checkpoint.heap w' !! l = Checkpoint.heap w !! l).
Proof.
  intros w d metadata.
  assert (Checkpoint.heap w !! 0 = Some d) as H by reflexivity.
  split; [exact H|].
  exact (save_mutates_checkpoint Sample.manager w "m" 0 d metadata H).
Defined.

(** C10, the claim as stated refuted: a metadata argument is supplied, the
    empty dictionary; [save] returns the checkpoint's path, the caller's
    dictionary has gained its timestamp and kept its keys, and holds no
    ['metadata'] key. *)
Lemma save_empty_metadata_adds_no_key :
  let out := Checkpoint.save Sample.manager Sample.world "m" 0 (Some ∅) in
  out.2 = Checkpoint.Return "checkpoints/m.pt" /\
  (Checkpoint.heap out.1 !! 0) ≫= (fun d' => d' !! "timestamp")
  = Some (Checkpoint.PStr "2024-05-01T12:00:00") /\
  (Checkpoint.heap out.1 !! 0) ≫= (fun d' => d' !! "episode") = Some (Checkpoint.PInt 5) /\
  (Checkpoint.heap out.1 !! 0) ≫= (fun d' => d' !! "metadata") = None.
Proof.
  repeat split; vm_compute; reflexivity.
Qed.

(** [Checkpoint.save] and then [Checkpoint.load], by name and by path; names that resolve to
    nothing, to a directory, or to the metadata sidecar; and a device that
    is not there. *)
Example load_after_save :
  let w1 := (Checkpoint.save Sample.manager Sample.world "m" 0 None).1 in
  (Checkpoint.load Sample.manager w1 "m" None).2 = Checkpoint.Return (Some 1) /\
  (Checkpoint.heap (Checkpoint.load Sample.manager w1 "m" None).1 !! 1) ≫= (fun d => d !! "episode")
  = Some (Checkpoint.PInt 5) /\
  (Checkpoint.load Sample.manager w1 "checkpoints/m.pt" None).2 = Checkpoint.Return (Some 1) /\
  (Checkpoint.load Sample.manager w1 "other" None).2 = Checkpoint.Return None /\
  (Checkpoint.load Sample.manager w1 "checkpoints" None).2 = Checkpoint.Return None /\
  (Checkpoint.load Sample.manager w1 "checkpoints/m_metadata.json" None).2 = Checkpoint.Return None /\
  (Checkpoint.load Sample.manager w1 "m" (Some (Checkpoint.Cuda 0))).2 = Checkpoint.Return None.
Proof.
  repeat split; vm_compute; reflexivity.
Qed.

(** ** Part III: further properties of the code

    *** utils/checkpoint.py: save, load and delete together *)

Section PathFacts.
Import Checkpoint.
Local Open Scope string_scope.

Lemma append_inj_l (s a b : string) : s ++ a = s ++ b -> a = b.
Proof. induction s as [|c s IH]; simpl; [done|]. intros [= H]. auto. Qed.

Lemma length_append (s t : string) :
  String.length (s ++ t) = (String.length s + String.length t)%nat.
Proof. induction s as [|c s IH]; simpl; [done|]. by rewrite IH. Qed.

Lemma is_absolute_append (name a b : string) :
  is_absolute a = is_absolute b ->
  is_absolute (name ++ a) = is_absolute (name ++ b).
Proof.
  destruct name as [|c name]; simpl; [done|].
  by destruct c as [[] [] [] [] [] [] [] []].
Qed.

Lemma path_join_inj (dir name a b : string) :
  is_absolute a = is_absolute b ->
  path_join dir (name ++ a) = path_join dir (name ++ b) -> a = b.
Proof.
  intros Hab. unfold path_join. rewrite (is_absolute_append name a b Hab).
  destruct (is_absolute (name ++ b)).
  - apply append_inj_l.
  - intros H. apply append_inj_l in H. apply (append_inj_l "/") in H.
    by apply append_inj_l in H.
Qed.

(** A name never is the path of its own checkpoint or sidecar. *)
Lemma path_join_ne_name (dir name a : string) :
  a <> "" -> path_join dir (name ++ a) <> name.
Proof.
  intros Ha H. apply (f_equal String.length) in H. unfold path_join in H.
  assert (0 < String.length a)%nat by (destruct a; [done|simpl; lia]).
  destruct (is_absolute (name ++ a)); rewrite ?length_append in H; simpl in H; lia.
Qed.

Lemma checkpoint_path_ne_metadata_path (dir name : string) :
  path_join dir (name ++ ".pt") <> path_join dir (name ++ "_metadata.json").
Proof. intros H. by apply path_join_inj in H. Qed.
End PathFacts.

Section SaveLoadFacts.
Import Checkpoint.
Local Open Scope string_scope.

Lemma write_Return w path content w' :
  write w path content = (w', Return ()) ->
  w' = with_fs w (<[path := content]> (fs w)).
Proof.
  unfold write. destruct (bool_decide (path ∈ denied w)); [done|].
  destruct (fs w !! path) as [[]|]; intros [= <-]; done.
Qed.

(** The world a returning [save] leaves behind. *)
Lemma save_Return self w name l metadata w1 p :
  save self w name l metadata = (w1, Return p) ->
  exists d d2 record,
    heap w !! l = Some d /\
    d2 = <["timestamp" := PStr (now w)]>
           (if truthy metadata
            then <["metadata" := PDict (default ∅ metadata)]> d else d) /\
    record = <["name" := PStr name]>
            (<["timestamp" := PStr (now w)]>
            (<["metadata" := default (PDict ∅) (d2 !! "metadata")]>
            (<["episode" := default (PInt 0) (d2 !! "episode")]>
            (<["reward" := default (PInt 0) (d2 !! "reward")]> ∅)))) /\
    p = path_join (checkpoint_dir self) (name ++ ".pt") /\
    w1 = {| heap := <[l := d2]> (heap w);
            fs := <[path_join (checkpoint_dir self) (name ++ "_metadata.json")
                    := Json record]>
                    (<[path_join (checkpoint_dir self) (name ++ ".pt")
                       := Pickle d2]> (fs w));
            now := now w; denied := denied w; cuda_count := cuda_count w |}.
Proof.
  unfold save. destruct (heap w !! l) as [d|] eqn:Hl; [|done].
  set (d2 := <["timestamp" := _]> _).
  unfold torch_save. simpl. rewrite lookup_insert_eq.
  destruct (write _ _ (Pickle d2)) as [w2 [[]|e]] eqn:E2; [|done].
  apply write_Return in E2 as ->.
  match goal with |- context [write ?w ?p ?c] =>
    destruct (write w p c) as [w3 [[]|e]] eqn:E3 end; [|done].
  apply write_Return in E3 as ->.
  intros [= <- <-]. eexists d, d2, _. repeat split; reflexivity.
Qed.

Lemma isfile_lookup w w' path :
  fs w' !! path = fs w !! path -> isfile w' path = isfile w path.
Proof. unfold isfile. by intros ->. Qed.

Lemma load_stored self w name dev d :
  fs w !! resolve self w name = Some (Pickle d) ->
  match dev with Some (Cuda i) => (i < cuda_count w)%nat | _ => True end ->
  load self w name dev
  = (with_heap w (<[fresh (heap w) := d]> (heap w)), Return (Some (fresh (heap w)))).
Proof.
  intros Hfs Hdev. unfold load, exists_, torch_load. rewrite Hfs.
  rewrite bool_decide_eq_true_2 by by eexists. simpl.
  destruct dev as [[|i]|]; try done.
  apply Nat.ltb_lt in Hdev. by rewrite Hdev.
Qed.

(** X1 (save, then load).  After a [save] that returns (the values it
    copies into the sidecar being ones JSON can hold), [load] of the same
    name, [name] not being a file itself, returns a new dictionary object
    that holds what the caller's dictionary holds after the call, the
    timestamp included; [load] of the path [save] returned gives the same;
    the device asked for, if any, being present.  The caller's dictionary
    stays in place and the file system is not touched by the load. *)
Theorem save_then_load_round_trip (self : CheckpointManager) (w : World)
    (name : string) (l : loc) (d : pydict) (metadata : option pydict)
    (w1 : World) (p : string) (dev : option device) :
  heap w !! l = Some d ->
  CheckpointQueries.sidecar_serialisable d metadata ->
  save self w name l metadata = (w1, Return p) ->
  isfile w name = false ->
  match dev with Some (Cuda i) => (i < cuda_count w)%nat | _ => True end ->
  exists d' l' w2,
    heap w1 !! l = Some d' /\
    d' !! "timestamp" = Some (PStr (now w)) /\
    p = path_join (checkpoint_dir self) (name ++ ".pt") /\
    load self w1 name dev = (w2, Return (Some l')) /\
    load self w1 p dev = (w2, Return (Some l')) /\
    heap w1 !! l' = None /\
    heap w2 !! l' = Some d' /\
    heap w2 !! l = Some d' /\
    fs w2 = fs w1.
Proof.
  intros _ _ Hsave Hname Hdev.
  apply save_Return in Hsave as (d0 & d2 & record & Hl & Hd2 & Hrec & -> & ->).
  set (cp := path_join (checkpoint_dir self) (name ++ ".pt")).
  set (mp := path_join (checkpoint_dir self) (name ++ "_metadata.json")).
  set (w1 := {| heap := _ |}).
  assert (fs w1 !! cp = Some (Pickle d2)) as Hcp.
  { simpl. rewrite lookup_insert_ne by (symmetry; apply checkpoint_path_ne_metadata_path).
    apply lookup_insert_eq. }
  assert (isfile w1 name = false) as Hname1.
  { rewrite <- Hname. apply isfile_lookup. simpl.
    rewrite !lookup_insert_ne; [done| |]; apply path_join_ne_name; done. }
  assert (resolve self w1 name = cp) as Hres by (unfold resolve; by rewrite Hname1).
  assert (resolve self w1 cp = cp) as Hres'.
  { unfold resolve, isfile. by rewrite Hcp. }
  exists d2, (fresh (heap w1)), (with_heap w1 (<[fresh (heap w1) := d2]> (heap w1))).
  split; [simpl; apply lookup_insert_eq|].
  split; [rewrite Hd2; apply lookup_insert_eq|].
  split; [done|].
  split; [apply load_stored; [by rewrite Hres|done]|].
  split; [apply load_stored; [by rewrite Hres'|done]|].
  split; [apply fresh_free|].
  split; [simpl; apply lookup_insert_eq|].
  split; [|done].
  simpl. rewrite lookup_insert_ne; [apply lookup_insert_eq|].
  intros Heq. pose proof (fresh_free (heap w1)) as Hf. simpl in Hf.
  rewrite Heq in Hf. by rewrite lookup_insert_eq in Hf.
Qed.

(** X2 (no rollback).  When the checkpoint file can be written and the
    sidecar cannot (its path is denied or is a directory), [save] raises
    [OSError] after having stamped the caller's dictionary and written
    the checkpoint file: the file stays, the sidecar is as it was, and a
    [load] of the name returns the checkpoint. *)
Theorem save_sidecar_failure_keeps_checkpoint (self : CheckpointManager)
    (w : World) (name : string) (l : loc) (d : pydict)
    (metadata : option pydict) :
  let checkpoint_path := path_join (checkpoint_dir self) (name ++ ".pt") in
  let metadata_path := path_join (checkpoint_dir self) (name ++ "_metadata.json") in
  heap w !! l = Some d ->
  checkpoint_path ∉ denied w ->
  fs w !! checkpoint_path <> Some Dir ->
  metadata_path ∈ denied w \/ fs w !! metadata_path = Some Dir ->
  isfile w name = false ->
  exists w1 d',
    save self w name l metadata = (w1, Raise OSError) /\
    heap w1 !! l = Some d' /\
    d' !! "timestamp" = Some (PStr (now w)) /\
    fs w1 !! checkpoint_path = Some (Pickle d') /\
    fs w1 !! metadata_path = fs w !! metadata_path /\
    exists l' w2,
      load self w1 name None = (w2, Return (Some l')) /\
      heap w2 !! l' = Some d'.
Proof.
  intros cp mp Hl Hden Hdir Hmp Hname.
  unfold save. rewrite Hl. fold cp mp.
  set (d2 := <["timestamp" := _]> _).
  set (w0 := with_heap w _).
  set (record := <["name" := _]> _).
  unfold torch_save.
  assert (heap w0 !! l = Some d2) as -> by (simpl; apply lookup_insert_eq).
  assert (write w0 cp (Pickle d2) = (with_fs w0 (<[cp := Pickle d2]> (fs w0)), Return ())) as ->.
  { unfold write. simpl. rewrite bool_decide_eq_false_2 by done.
    destruct (fs w !! cp) as [[]|]; done. }
  set (w1 := with_fs w0 _).
  assert (cp <> mp) as Hne by apply checkpoint_path_ne_metadata_path.
  assert (write w1 mp (Json record) = (w1, Raise OSError)) as ->.
  { unfold write. simpl. destruct Hmp as [Hmp|Hmp].
    - by rewrite bool_decide_eq_true_2.
    - destruct (bool_decide (mp ∈ denied w)); [done|].
      by rewrite lookup_insert_ne, Hmp. }
  assert (fs w1 !! cp = Some (Pickle d2)) as Hcp by (simpl; apply lookup_insert_eq).
  exists w1, d2.
  split; [done|]. split; [simpl; apply lookup_insert_eq|].
  split; [apply lookup_insert_eq|]. split; [done|].
  split; [simpl; by rewrite lookup_insert_ne|].
  assert (isfile w1 name = false) as Hname1.
  { rewrite <- Hname. apply isfile_lookup. simpl.
    rewrite lookup_insert_ne; [done|]. apply path_join_ne_name; done. }
  exists (fresh (heap w1)), (with_heap w1 (<[fresh (heap w1) := d2]> (heap w1))).
  split; [|simpl; apply lookup_insert_eq].
  apply load_stored; [|done]. unfold resolve. rewrite Hname1. exact Hcp.
Qed.
End SaveLoadFacts.

(** X1 on the sample world: a dictionary with an episode and a reward,
    saved without metadata under the name [m]. *)
Lemma save_then_load_round_trip_witness :
  let d : Checkpoint.pydict :=
    {[ "episode" := Checkpoint.PInt 5; "reward" := Checkpoint.PFloat (3 # 2) ]} in
  let w1 := (Checkpoint.save Sample.manager Sample.world "m" 0 None).1 in
  (Checkpoint.heap Sample.world !! 0 = Some d /\
   CheckpointQueries.sidecar_serialisable d None /\
   Checkpoint.save Sample.manager Sample.world "m" 0 None
   = (w1, Checkpoint.Return "checkpoints/m.pt") /\
   Checkpoint.isfile Sample.world "m" = false) /\
  exists d' l' w2,
    Checkpoint.heap w1 !! 0 = Some d' /\
    d' !! "timestamp" = Some (Checkpoint.PStr (Checkpoint.now Sample.world)) /\
    "checkpoints/m.pt"
    = Checkpoint.path_join (Checkpoint.checkpoint_dir Sample.manager) ("m" ++ ".pt") /\
    Checkpoint.load Sample.manager w1 "m" None = (w2, Checkpoint.Return (Some l')) /\
    Checkpoint.load Sample.manager w1 "checkpoints/m.pt" None
    = (w2, Checkpoint.Return (Some l')) /\
    Checkpoint.heap w1 !! l' = None /\
    Checkpoint.heap w2 !! l' = Some d' /\
    Checkpoint.heap w2 !! 0 = Some d' /\
    Checkpoint.fs w2 = Checkpoint.fs w1.
Proof.
  intros d w1.
  assert (Checkpoint.heap Sample.world !! 0 = Some d) as H0 by reflexivity.
  assert (CheckpointQueries.sidecar_serialisable d None) as Hj.
  { repeat split; [apply CheckpointQueries.json_dict, map_Forall_empty
                  |apply CheckpointQueries.json_int|apply CheckpointQueries.json_float]. }
  assert (Checkpoint.save Sample.manager Sample.world "m" 0 None
          = (w1, Checkpoint.Return "checkpoints/m.pt")) as H1 by (vm_compute; reflexivity).
  assert (Checkpoint.isfile Sample.world "m" = false) as H2 by reflexivity.
  split; [exact (conj H0 (conj Hj (conj H1 H2)))|].
  exact (save_then_load_round_trip Sample.manager Sample.world "m" 0 d None w1
           "checkpoints/m.pt" None H0 Hj H1 H2 I).
Defined.

(** X2 on a world in which the sidecar of [m] cannot be opened for
    writing. *)
Lemma save_sidecar_failure_keeps_checkpoint_witness :
  let w := Listing.read_only_sidecar in
  let d : Checkpoint.pydict :=
    {[ "episode" := Checkpoint.PInt 5; "reward" := Checkpoint.PFloat (3 # 2) ]} in
  exists w1 d',
    Checkpoint.save Sample.manager w "m" 0 None = (w1, Checkpoint.Raise Checkpoint.OSError) /\
    Checkpoint.heap w1 !! 0 = Some d' /\
    d' !! "timestamp" = Some (Checkpoint.PStr (Checkpoint.now w)) /\
    Checkpoint.fs w1 !! "checkpoints/m.pt" = Some (Checkpoint.Pickle d') /\
    Checkpoint.fs w1 !! "checkpoints/m_metadata.json"
    = Checkpoint.fs w !! "checkpoints/m_metadata.json" /\
    exists l' w2,
      Checkpoint.load Sample.manager w1 "m" None = (w2, Checkpoint.Return (Some l')) /\
      Checkpoint.heap w2 !! l' = Some d'.
Proof.
  intros w d.
  apply (save_sidecar_failure_keeps_checkpoint Sample.manager w "m" 0 d None).
  - reflexivity.
  - intros H. unfold w, Listing.read_only_sidecar in H. cbn [Checkpoint.denied] in H.
    apply elem_of_singleton in H. discriminate H.
  - vm_compute. discriminate.
  - left. unfold w, Listing.read_only_sidecar. cbn [Checkpoint.denied].
    apply elem_of_singleton. reflexivity.
  - reflexivity.
Defined.

Section DeleteFacts.
Import Checkpoint.
Local Open Scope string_scope.

Lemma unlink_outcome locked w path :
  (CheckpointQueries.unlink locked w path
   = (with_fs w (base.delete path (fs w)), Return ()) /\
   is_Some (fs w !! path)) \/
  (CheckpointQueries.unlink locked w path = (w, Raise OSError)).
Proof.
  unfold CheckpointQueries.unlink.
  destruct (fs w !! path) as [n|] eqn:E; [|right; auto].
  destruct (bool_decide (path ∈ locked)); [right; by destruct n|].
  destruct n; [right; auto|left..]; split; try done; by eexists.
Qed.

Lemma exists_true w path : exists_ w path = true <-> is_Some (fs w !! path).
Proof. unfold exists_. apply bool_decide_eq_true. Qed.

Lemma exists_false w path : exists_ w path = false <-> fs w !! path = None.
Proof.
  unfold exists_. rewrite bool_decide_eq_false. rewrite <- eq_None_not_Some. done.
Qed.

(** Every way [delete] can go. *)
Lemma delete_cases (self : CheckpointManager) (locked : gset string)
    (w : World) (name : string) :
  let cp := path_join (checkpoint_dir self) (name ++ ".pt") in
  let mp := path_join (checkpoint_dir self) (name ++ "_metadata.json") in
  exists w' b,
    CheckpointQueries.delete self locked w name = (w', Return b) /\
    heap w' = heap w /\
    (forall path, path <> cp -> path <> mp -> fs w' !! path = fs w !! path) /\
    (b = true ->
     fs w' !! cp = None /\ fs w' !! mp = None /\
     (is_Some (fs w !! cp) \/ is_Some (fs w !! mp))) /\
    (b = false -> fs w' !! mp = fs w !! mp) /\
    (fs w !! cp = None -> fs w !! mp = None -> b = false /\ w' = w).
Proof.
  intros cp mp. unfold CheckpointQueries.delete. fold cp mp.
  assert (cp <> mp) as Hne by apply checkpoint_path_ne_metadata_path.
  destruct (exists_ w cp) eqn:Ecp.
  - apply exists_true in Ecp.
    destruct (unlink_outcome locked w cp) as [(-> & _)| ->].
    + set (w1 := with_fs w _).
      assert (fs w1 !! mp = fs w !! mp) as Hmp by (simpl; by rewrite lookup_delete_ne).
      destruct (exists_ w1 mp) eqn:Emp.
      * destruct (unlink_outcome locked w1 mp) as [(-> & _)| ->].
        -- eexists _, true. split; [done|]. split; [done|].
           split; [intros q H1 H2; simpl; by rewrite !lookup_delete_ne|].
           split.
           { intros _. simpl. split; [|split; [apply lookup_delete_eq|by left]].
             rewrite lookup_delete_ne by done. apply lookup_delete_eq. }
           split; [done|]. intros H. rewrite H in Ecp. by destruct Ecp.
        -- eexists _, false. split; [done|]. split; [done|].
           split; [intros q H1 H2; simpl; by rewrite lookup_delete_ne|].
           split; [done|]. split; [done|].
           intros H. rewrite H in Ecp. by destruct Ecp.
      * apply exists_false in Emp.
        eexists _, true. split; [done|]. split; [done|].
        split; [intros q H1 H2; simpl; by rewrite lookup_delete_ne|].
        split.
        { intros _. split; [simpl; apply lookup_delete_eq|]. split; [done|by left]. }
        split; [done|]. intros H. rewrite H in Ecp. by destruct Ecp.
    + eexists _, false. split; [done|]. split; [done|]. split; [done|].
      split; [done|]. split; [done|]. intros H. rewrite H in Ecp. by destruct Ecp.
  - apply exists_false in Ecp.
    destruct (exists_ w mp) eqn:Emp.
    + apply exists_true in Emp.
      destruct (unlink_outcome locked w mp) as [(-> & _)| ->].
      * eexists _, true. split; [done|]. split; [done|].
        split; [intros q H1 H2; simpl; by rewrite lookup_delete_ne|].
        split.
        { intros _. simpl. split; [by rewrite lookup_delete_ne|].
          split; [apply lookup_delete_eq|by right]. }
        split; [done|]. intros _ H. rewrite H in Emp. by destruct Emp.
      * eexists _, false. split; [done|]. split; [done|]. split; [done|].
        split; [done|]. split; [done|]. intros _ H. rewrite H in Emp. by destruct Emp.
    + eexists _, false. split; [done|]. split; [done|]. split; [done|].
      split; [done|]. split; [done|]. done.
Qed.

(** X3 (delete never raises).  [delete] always returns a boolean.  It
    touches nothing but the checkpoint file and the sidecar of that name,
    and no object of the heap.  When it returns [True], neither of the two
    paths exists afterwards and at least one existed before; when neither
    existed it returns [False] and changes nothing. *)
Theorem delete_outcome (self : CheckpointManager) (locked : gset string)
    (w : World) (name : string) :
  let checkpoint_path := path_join (checkpoint_dir self) (name ++ ".pt") in
  let metadata_path := path_join (checkpoint_dir self) (name ++ "_metadata.json") in
  exists w' deleted,
    CheckpointQueries.delete self locked w name = (w', Return deleted) /\
    heap w' = heap w /\
    (forall path, path <> checkpoint_path -> path <> metadata_path ->
       fs w' !! path = fs w !! path) /\
    (deleted = true ->
     exists_ w' checkpoint_path = false /\ exists_ w' metadata_path = false /\
     (exists_ w checkpoint_path = true \/ exists_ w metadata_path = true)) /\
    (exists_ w checkpoint_path = false -> exists_ w metadata_path = false ->
     deleted = false /\ w' = w).
Proof.
  intros cp mp.
  destruct (delete_cases self locked w name) as (w' & b & E & Hh & Ho & Ht & _ & Hn).
  exists w', b. split; [done|]. split; [done|]. split; [done|]. split.
  - intros Hb. destruct (Ht Hb) as (H1 & H2 & H3).
    rewrite !exists_false, !exists_true. done.
  - rewrite !exists_false. apply Hn.
Qed.

(** X4 (delete, then nothing is left).  After a [delete] that returned
    [True], [load] of the same name ([name] not being a file itself)
    returns [None] and changes nothing, and a second [delete] returns
    [False] and changes nothing. *)
Theorem delete_then_nothing_left (self : CheckpointManager)
    (locked locked' : gset string) (w w' : World) (name : string)
    (dev : option device) :
  CheckpointQueries.delete self locked w name = (w', Return true) ->
  isfile w name = false ->
  load self w' name dev = (w', Return None) /\
  CheckpointQueries.delete self locked' w' name = (w', Return false).
Proof.
  intros Hdel Hname.
  destruct (delete_cases self locked w name) as (w2 & b & E & _ & Hother & Htrue & _).
  rewrite Hdel in E. injection E as <- <-.
  destruct (Htrue eq_refl) as (Hcp & Hmp & _). split.
  - assert (isfile w' name = false) as Hname'.
    { rewrite <- Hname. apply isfile_lookup.
      apply Hother; apply not_eq_sym, path_join_ne_name; done. }
    unfold load, resolve. rewrite Hname'. apply exists_false in Hcp. by rewrite Hcp.
  - unfold CheckpointQueries.delete. apply exists_false in Hcp, Hmp.
    by rewrite Hcp, Hmp.
Qed.

(** X5 (a failed delete may have deleted).  When the checkpoint file can
    be removed and the sidecar exists and cannot (it is a directory, or
    the process may not remove it), [delete] returns [False]; the
    checkpoint file is gone all the same, and the sidecar is still
    there. *)
Theorem delete_reports_failure_after_removing_checkpoint
    (self : CheckpointManager) (locked : gset string) (w : World)
    (name : string) (d : pydict) :
  let checkpoint_path := path_join (checkpoint_dir self) (name ++ ".pt") in
  let metadata_path := path_join (checkpoint_dir self) (name ++ "_metadata.json") in
  fs w !! checkpoint_path = Some (Pickle d) ->
  checkpoint_path ∉ locked ->
  fs w !! metadata_path = Some Dir \/
  (is_Some (fs w !! metadata_path) /\ metadata_path ∈ locked) ->
  exists w',
    CheckpointQueries.delete self locked w name = (w', Return false) /\
    fs w' !! checkpoint_path = None /\
    is_Some (fs w' !! metadata_path) /\
    fs w' !! metadata_path = fs w !! metadata_path.
Proof.
  intros cp mp Hcp Hlock Hmp.
  assert (cp <> mp) as Hne by apply checkpoint_path_ne_metadata_path.
  unfold CheckpointQueries.delete. fold cp mp.
  assert (exists_ w cp = true) as -> by (apply exists_true; by rewrite Hcp).
  assert (CheckpointQueries.unlink locked w cp
          = (with_fs w (base.delete cp (fs w)), Return ())) as ->.
  { unfold CheckpointQueries.unlink. rewrite Hcp. by rewrite bool_decide_eq_false_2. }
  set (w1 := with_fs w _).
  assert (fs w1 !! mp = fs w !! mp) as Hmp1 by (simpl; by rewrite lookup_delete_ne).
  assert (is_Some (fs w !! mp)) as Hsome.
  { destruct Hmp as [->|[? _]]; [by eexists|done]. }
  assert (exists_ w1 mp = true) as -> by (apply exists_true; by rewrite Hmp1).
  assert (CheckpointQueries.unlink locked w1 mp = (w1, Raise OSError)) as ->.
  { unfold CheckpointQueries.unlink. rewrite Hmp1.
    destruct Hmp as [->|[[n Hn] Hin]]; [done|]. rewrite Hn.
    rewrite bool_decide_eq_true_2 by done. by destruct n. }
  exists w1. split; [done|]. split; [simpl; apply lookup_delete_eq|].
  split; [by rewrite Hmp1|done].
Qed.
End DeleteFacts.

(** X4 on the sample world after a save under the name [m]. *)
Lemma delete_then_nothing_left_witness :
  let w := (Checkpoint.save Sample.manager Sample.world "m" 0 None).1 in
  let w' := (CheckpointQueries.delete Sample.manager ∅ w "m").1 in
  (CheckpointQueries.delete Sample.manager ∅ w "m" = (w', Checkpoint.Return true) /\
   Checkpoint.isfile w "m" = false) /\
  Checkpoint.load Sample.manager w' "m" None = (w', Checkpoint.Return None) /\
  CheckpointQueries.delete Sample.manager ∅ w' "m" = (w', Checkpoint.Return false).
Proof.
  intros w w'.
  assert (CheckpointQueries.delete Sample.manager ∅ w "m" = (w', Checkpoint.Return true))
    as H1 by (vm_compute; reflexivity).
  assert (Checkpoint.isfile w "m" = false) as H2 by (vm_compute; reflexivity).
  split; [exact (conj H1 H2)|].
  exact (delete_then_nothing_left Sample.manager ∅ ∅ w w' "m" None H1 H2).
Defined.

(** X5 on a world in which the sidecar path of [m] is a directory. *)
Lemma delete_reports_failure_after_removing_checkpoint_witness :
  let w := Listing.sidecar_is_directory in
  exists w',
    CheckpointQueries.delete Sample.manager ∅ w "m" = (w', Checkpoint.Return false) /\
    Checkpoint.fs w' !! "checkpoints/m.pt" = None /\
    is_Some (Checkpoint.fs w' !! "checkpoints/m_metadata.json") /\
    Checkpoint.fs w' !! "checkpoints/m_metadata.json"
    = Checkpoint.fs w !! "checkpoints/m_metadata.json".
Proof.
  intros w.
  apply (delete_reports_failure_after_removing_checkpoint Sample.manager ∅ w "m" ∅).
  - reflexivity.
  - apply not_elem_of_empty.
  - left. reflexivity.
Defined.

(** *** utils/checkpoint.py: list_checkpoints, get_latest, get_best *)

Section SortFacts.
Import Checkpoint CheckpointQueries.
Local Open Scope string_scope.

Lemma string_ltb_lt s t : String.ltb s t = true <-> OrderedTypeEx.String_as_OT.lt s t.
Proof.
  unfold String.ltb. rewrite <- OrderedTypeEx.String_as_OT.cmp_lt.
  unfold OrderedTypeEx.String_as_OT.cmp. destruct (String.compare s t); split; done.
Qed.

Lemma string_ltb_irrefl s : String.ltb s s = false.
Proof.
  destruct (String.ltb s s) eqn:E; [|done]. apply string_ltb_lt in E.
  by apply OrderedTypeEx.String_as_OT.lt_not_eq in E.
Qed.

Lemma string_ltb_trans s t u :
  String.ltb s t = true -> String.ltb t u = true -> String.ltb s u = true.
Proof.
  rewrite !string_ltb_lt. apply OrderedTypeEx.String_as_OT.lt_trans.
Qed.

Lemma string_ltb_total s t :
  String.ltb s t = false -> String.ltb t s = false -> s = t.
Proof.
  unfold String.ltb. pose proof (String.compare_antisym s t) as H.
  destruct (String.compare s t) eqn:E.
  - intros _ _. by apply String.compare_eq_iff.
  - done.
  - by destruct (String.compare t s).
Qed.

Lemma key_ltb_asym x y : key_ltb x y = true -> key_ltb y x = false.
Proof.
  destruct x as [s|p], y as [t|q]; simpl; try done.
  - intros H. destruct (String.ltb t s) eqn:E; [|done].
    pose proof (string_ltb_trans _ _ _ H E) as H'. by rewrite string_ltb_irrefl in H'.
  - rewrite Qltb_true, Qltb_false. intros H. by apply Qlt_le_weak.
Qed.

Lemma key_ltb_irrefl k : key_ltb k k = false.
Proof.
  destruct (key_ltb k k) eqn:E; [|done]. by rewrite (key_ltb_asym _ _ E) in E.
Qed.

Lemma py_lt_irrefl v : py_lt v v <> Some true.
Proof.
  unfold py_lt. destruct (sort_key v) as [k|]; [|done].
  destruct (same_class k k); [|done]. by rewrite key_ltb_irrefl.
Qed.

(** [x] does not sort below [y], both being of one class. *)
Local Abbreviation not_below :=
  (fun x y : string + Q => same_class x y = true /\ key_ltb x y = false).

Lemma not_below_trans x y z : not_below x y -> not_below y z -> not_below x z.
Proof.
  destruct x as [s|p], y as [t|q], z as [u|r]; simpl; try (intros [? ?]; done);
    intros [_ H1] [_ H2]; (split; [done|]).
  - destruct (String.ltb s u) eqn:E; [|done]. exfalso.
    destruct (String.ltb t s) eqn:Ets.
    + pose proof (string_ltb_trans _ _ _ Ets E). congruence.
    + pose proof (string_ltb_total _ _ H1 Ets). subst. congruence.
  - rewrite Qltb_false in *. by apply Qle_trans with q.
Qed.

Lemma same_class_trans c x y :
  same_class c x = true -> same_class c y = true -> same_class x y = true.
Proof. by destruct c, x, y. Qed.

Section Insert.
Context {A : Type}.
Implicit Types (x y : (string + Q) * A) (l : list ((string + Q) * A)).

Local Abbreviation desc := (fun x y => not_below x.1 y.1).
Local Abbreviation asc := (fun x y => not_below y.1 x.1).

Lemma insert_desc_perm x l : insert_desc x l ≡ₚ x :: l.
Proof.
  induction l as [|y l IH]; simpl; [done|].
  destruct (key_ltb x.1 y.1); [|done]. rewrite IH. apply Permutation_swap.
Qed.

Lemma insert_asc_perm x l : insert_asc x l ≡ₚ x :: l.
Proof.
  induction l as [|y l IH]; simpl; [done|].
  destruct (key_ltb y.1 x.1); [|done]. rewrite IH. apply Permutation_swap.
Qed.

Lemma insert_desc_sorted c x l :
  same_class c x.1 = true ->
  Forall (fun y => same_class c y.1 = true) l ->
  StronglySorted desc l -> StronglySorted desc (insert_desc x l).
Proof.
  intros Hx Hl Hs. induction Hs as [|y l Hs IH Hy]; simpl.
  - repeat constructor.
  - apply Forall_cons in Hl as [Hcy Hl].
    destruct (key_ltb x.1 y.1) eqn:E.
    + constructor; [by apply IH|].
      rewrite insert_desc_perm. constructor; [|done].
      split; [by eapply same_class_trans|by apply key_ltb_asym].
    + assert (not_below x.1 y.1) as Hxy by (split; [by eapply same_class_trans|done]).
      constructor; [by constructor|]. constructor; [done|].
      eapply Forall_impl; [exact Hy|]. intros z Hz. simpl in Hz.
      by apply (not_below_trans x.1 y.1 z.1).
Qed.

Lemma insert_asc_sorted c x l :
  same_class c x.1 = true ->
  Forall (fun y => same_class c y.1 = true) l ->
  StronglySorted asc l -> StronglySorted asc (insert_asc x l).
Proof.
  intros Hx Hl Hs. induction Hs as [|y l Hs IH Hy]; simpl.
  - repeat constructor.
  - apply Forall_cons in Hl as [Hcy Hl].
    destruct (key_ltb y.1 x.1) eqn:E.
    + constructor; [by apply IH|].
      rewrite insert_asc_perm. constructor; [|done].
      split; [by eapply same_class_trans|by apply key_ltb_asym].
    + assert (not_below y.1 x.1) as Hxy by (split; [by eapply same_class_trans|done]).
      constructor; [by constructor|]. constructor; [done|].
      eapply Forall_impl; [exact Hy|]. intros z Hz. simpl in Hz.
      by apply (not_below_trans z.1 y.1 x.1).
Qed.

Lemma foldr_insert_perm (reverse : bool) l :
  foldr (if reverse then insert_desc else insert_asc) [] l ≡ₚ l.
Proof.
  induction l as [|x l IH]; simpl; [done|].
  destruct reverse; [rewrite insert_desc_perm|rewrite insert_asc_perm]; by rewrite IH.
Qed.

Lemma foldr_insert_desc_sorted c l :
  Forall (fun y => same_class c y.1 = true) l ->
  StronglySorted desc (foldr insert_desc [] l).
Proof.
  induction 1 as [|x l Hx Hl IH]; simpl; [constructor|].
  apply (insert_desc_sorted c); [done| |done].
  by rewrite (foldr_insert_perm true l).
Qed.

Lemma foldr_insert_asc_sorted c l :
  Forall (fun y => same_class c y.1 = true) l ->
  StronglySorted asc (foldr insert_asc [] l).
Proof.
  induction 1 as [|x l Hx Hl IH]; simpl; [constructor|].
  apply (insert_asc_sorted c); [done| |done].
  by rewrite (foldr_insert_perm false l).
Qed.
End Insert.

Lemma StronglySorted_lookup {A} (R : relation A) (l : list A) i j x y :
  StronglySorted R l -> (i < j)%nat -> l !! i = Some x -> l !! j = Some y -> R x y.
Proof.
  intros Hs. revert i j. induction Hs as [|z l Hs IH Hz]; intros i j Hij Hi Hj.
  - by rewrite lookup_nil in Hi.
  - destruct j as [|j]; [lia|]. simpl in Hj. destruct i as [|i].
    + injection Hi as ->. rewrite Forall_forall in Hz. apply Hz.
      by eapply list_elem_of_lookup_2.
    + simpl in Hi. apply (IH i j); [lia|done..].
Qed.

(** [a] does not sort before [b] under [reverse]. *)
Local Abbreviation in_order reverse a b :=
  (py_lt (if reverse then a else b) (if reverse then b else a) = Some false).

(** What [list.sort(key=..., reverse=...)] returns: the same items, and no
    item behind one it should come before. *)
Lemma py_sort_spec {A} (key : A -> pyval) (reverse : bool) (xs out : list A) :
  py_sort reverse (map (fun x => (key x, x)) xs) = Ok out ->
  out ≡ₚ xs /\
  forall i j x y, (i < j)%nat -> out !! i = Some x -> out !! j = Some y ->
    in_order reverse (key x) (key y).
Proof.
  destruct xs as [|x0 [|x1 xs]].
  - intros [= <-]. split; [done|]. intros i j x y _ Hi. by rewrite lookup_nil in Hi.
  - intros [= <-]. split; [done|]. intros [|i] [|j] x y Hij Hi Hj; try lia; done.
  - set (xs' := x0 :: x1 :: xs). unfold py_sort.
    change (map (fun x => (key x, x)) xs')
      with ((key x0, x0) :: (key x1, x1) :: map (fun x => (key x, x)) xs).
    cbv iota beta.
    change ((key x0, x0) :: (key x1, x1) :: map (fun x => (key x, x)) xs)
      with (map (fun x => (key x, x)) xs').
    destruct (mapM _ _) as [keyed|] eqn:Ek; [|done].
    destruct (sort_key (key x0)) as [c0|] eqn:Ec0; [|done].
    destruct (forallb _ keyed) eqn:Eall; [|done]. intros [= <-].
    apply mapM_Some in Ek.
    assert (Forall (fun it => same_class c0 it.1 = true) keyed) as Hclass.
    { apply Forall_forall. intros it Hin. apply list_elem_of_In in Hin.
      by apply (proj1 (forallb_forall _ _) Eall). }
    assert (Forall (fun it : (string + Q) * A => sort_key (key it.2) = Some it.1) keyed)
      as Hkeys.
    { clear -Ek. generalize dependent keyed. generalize xs'. clear.
      induction xs' as [|x xs IH]; intros keyed H.
      - simpl in H. by apply Forall2_nil_inv_l in H as ->.
      - simpl in H. apply Forall2_cons_inv_l in H as (it & keyed' & Hit & H & ->).
        constructor; [|by apply IH]. simpl in Hit.
        destruct (sort_key (key x)) eqn:Ekx; simpl in Hit; [|done].
        by injection Hit as <-. }
    assert (keyed.*2 = xs') as Hsnd.
    { clear -Ek. generalize dependent keyed. generalize xs'. clear.
      induction xs' as [|x xs IH]; intros keyed H.
      - simpl in H. by apply Forall2_nil_inv_l in H as ->.
      - simpl in H. apply Forall2_cons_inv_l in H as (it & keyed' & Hit & H & ->).
        simpl in Hit. destruct (sort_key (key x)); simpl in Hit; [|done].
        injection Hit as <-. simpl. f_equal. by apply IH. }
    set (sorted := foldr _ [] keyed).
    assert (sorted ≡ₚ keyed) as Hperm by apply foldr_insert_perm.
    split.
    { rewrite <- Hsnd. change (map snd sorted) with (sorted.*2). by rewrite Hperm. }
    intros i j x y Hij Hi Hj.
    change (map snd sorted) with (sorted.*2) in Hi, Hj.
    apply list_lookup_fmap_Some in Hi as (xi & -> & Hxi).
    apply list_lookup_fmap_Some in Hj as (yj & -> & Hyj).
    assert (Forall (fun it : (string + Q) * A => sort_key (key it.2) = Some it.1) sorted)
      as Hkeys' by (by rewrite Hperm).
    rewrite Forall_forall in Hkeys'.
    pose proof (Hkeys' xi (list_elem_of_lookup_2 _ _ _ Hxi)) as Kx.
    pose proof (Hkeys' yj (list_elem_of_lookup_2 _ _ _ Hyj)) as Ky.
    unfold py_lt. destruct reverse.
    + pose proof (foldr_insert_desc_sorted c0 keyed Hclass) as Hs.
      destruct (StronglySorted_lookup _ _ i j xi yj Hs Hij Hxi Hyj) as [Hc Hlt].
      by rewrite Kx, Ky, Hc, Hlt.
    + pose proof (foldr_insert_asc_sorted c0 keyed Hclass) as Hs.
      destruct (StronglySorted_lookup _ _ i j xi yj Hs Hij Hxi Hyj) as [Hc Hlt].
      by rewrite Kx, Ky, Hc, Hlt.
Qed.

(** The sort raises only on two items whose keys do not compare. *)
Lemma py_sort_Err {A} (key : A -> pyval) (reverse : bool) (xs : list A) e :
  py_sort reverse (map (fun x => (key x, x)) xs) = Err e ->
  e = TypeError /\
  exists x y, x ∈ xs /\ y ∈ xs /\ py_lt (key x) (key y) = None.
Proof.
  destruct xs as [|x0 [|x1 xs]]; [done..|].
  set (xs' := x0 :: x1 :: xs). unfold py_sort.
  change (map (fun x => (key x, x)) xs')
    with ((key x0, x0) :: (key x1, x1) :: map (fun x => (key x, x)) xs).
  cbv iota beta.
  change ((key x0, x0) :: (key x1, x1) :: map (fun x => (key x, x)) xs)
    with (map (fun x => (key x, x)) xs').
  assert (x0 ∈ xs') as H0 by (unfold xs'; by left).
  destruct (mapM _ _) as [keyed|] eqn:Ek.
  - destruct (sort_key (key x0)) as [c0|] eqn:Ec0.
    + destruct (forallb _ keyed) eqn:Eall; [done|]. intros [= <-]. split; [done|].
      apply mapM_Some in Ek.
      assert (exists it, it ∈ keyed /\ same_class c0 it.1 = false) as (it & Hin & Hc).
      { clear -Eall. induction keyed as [|it keyed IH]; [done|]. simpl in Eall.
        destruct (same_class c0 it.1) eqn:E.
        - destruct (IH Eall) as (it' & Hin & Hc). exists it'. split; [by right|done].
        - exists it. split; [by left|done]. }
      apply list_elem_of_lookup in Hin as [i Hi].
      destruct (Forall2_lookup_r _ _ _ _ _ Ek Hi) as (x & Hx & Hit).
      apply list_lookup_fmap_Some in Hx as (x' & -> & Hx'). simpl in Hit.
      destruct (sort_key (key x')) as [k|] eqn:Ek'; simpl in Hit; [|done].
      injection Hit as <-. simpl in Hc.
      exists x0, x'. split; [done|]. split; [by eapply list_elem_of_lookup_2|].
      unfold py_lt. by rewrite Ec0, Ek', Hc.
    + intros [= <-]. split; [done|]. exists x0, x0. split; [done|]. split; [done|].
      unfold py_lt. by rewrite Ec0.
  - intros He. assert (e = TypeError) as -> by (destruct (sort_key (key x0)); congruence).
    split; [done|]. apply mapM_None in Ek. apply Exists_exists in Ek as (it & Hin & Hit).
    apply list_elem_of_fmap in Hin as (x & -> & Hx). simpl in Hit.
    destruct (sort_key (key x)) eqn:Ekx; [done|].
    exists x, x. split; [done|]. split; [done|]. unfold py_lt. by rewrite Ekx.
Qed.

(** The head of a sorted list is sorted before nothing of the list. *)
Lemma sorted_head {A} (R : A -> A -> Prop) (l l2 : list A) (h : A) :
  (forall i j x y, (i < j)%nat -> l !! i = Some x -> l !! j = Some y -> R x y) ->
  forall l1 : list A, l = (l1 ++ h :: l2)%list -> forall y, y ∈ l2 -> R h y.
Proof.
  intros Hs l1 -> y Hy. apply list_elem_of_lookup in Hy as [k Hk].
  apply (Hs (length l1) (length l1 + S k)%nat); [lia| |].
  - by rewrite lookup_app_r, Nat.sub_diag by lia.
  - rewrite lookup_app_r by lia.
    replace (length l1 + S k - length l1)%nat with (S k) by lia. done.
Qed.
End SortFacts.

Section ListFacts.
Import Checkpoint CheckpointQueries.
Local Open Scope string_scope.

Lemma strip_prefix_dir dir s : strip_prefix (dir ++ "/") (dir ++ "/" ++ s) = Some s.
Proof.
  induction dir as [|a dir IH]; simpl; [done|]. by rewrite Ascii.eqb_refl.
Qed.

Lemma contains_slash_append s t :
  contains_slash (s ++ t) = contains_slash s || contains_slash t.
Proof.
  induction s as [|a s IH]; simpl; [done|]. by destruct (Ascii.eqb a "/").
Qed.

Lemma has_suffix_unfold suf s :
  has_suffix suf s
  = if String.eqb s suf then true
    else match s with
         | EmptyString => false
         | String _ s' => has_suffix suf s'
         end.
Proof. by destruct s. Qed.

Lemma has_suffix_append suf s : has_suffix suf (s ++ suf) = true.
Proof.
  induction s as [|a s IH]; rewrite has_suffix_unfold.
  - by rewrite String.eqb_refl.
  - destruct (String.eqb _ suf); [done|]. exact IH.
Qed.

Lemma contains_slash_not_absolute name suffix :
  contains_slash name = false -> is_absolute suffix = false ->
  is_absolute (name ++ suffix) = false.
Proof.
  destruct name as [|a name]; simpl; [done|].
  destruct (Ascii.eqb a "/") eqn:E; [done|]. intros _ _.
  apply Ascii.eqb_neq in E.
  destruct a as [[] [] [] [] [] [] [] []]; try done.
Qed.

(** The sidecar of a name without [/] is an entry of the directory that
    the pattern matches. *)
Lemma is_sidecar_metadata_path dir name :
  contains_slash name = false ->
  is_sidecar dir (path_join dir (name ++ "_metadata.json")) = true.
Proof.
  intros Hname. unfold path_join.
  rewrite contains_slash_not_absolute by done.
  unfold is_sidecar.
  rewrite strip_prefix_dir, contains_slash_append, Hname, has_suffix_append.
  done.
Qed.

Lemma elem_of_glob_metadata self w path :
  path ∈ glob_metadata self w <->
  is_sidecar (checkpoint_dir self) path = true /\ is_Some (fs w !! path).
Proof.
  unfold glob_metadata. rewrite list_elem_of_filter.
  change (map fst (map_to_list (fs w))) with ((map_to_list (fs w)).*1).
  rewrite list_elem_of_fmap. split.
  - intros [Hs ([p n] & -> & Hin)]. split; [done|].
    apply elem_of_map_to_list in Hin. by eexists.
  - intros [Hs [n Hn]]. split; [done|]. exists (path, n). split; [done|].
    by apply elem_of_map_to_list.
Qed.

Lemma elem_of_readable self w c :
  c ∈ omap (read_json w) (glob_metadata self w) <-> listed self w c.
Proof.
  rewrite list_elem_of_omap. unfold listed. split.
  - intros (path & Hin & Hr). apply elem_of_glob_metadata in Hin as [Hs _]. eauto.
  - intros (path & Hs & Hr). exists path. split; [|done].
    apply elem_of_glob_metadata. split; [done|].
    unfold read_json in Hr. destruct (fs w !! path); [by eexists|done].
Qed.

(** X6 (listing, newest first).  What [list_checkpoints] returns holds
    every sidecar of the directory that can be read as JSON, each once,
    and nothing else; and no entry comes before one with a greater
    timestamp, a missing timestamp counting as the empty string. *)
Theorem list_checkpoints_newest_first (self : CheckpointManager) (w : World)
    (checkpoints : list pydict) :
  list_checkpoints self w = Ok checkpoints ->
  checkpoints ≡ₚ omap (read_json w) (glob_metadata self w) /\
  (forall c, c ∈ checkpoints <-> listed self w c) /\
  (forall i j ci cj, (i < j)%nat ->
     checkpoints !! i = Some ci -> checkpoints !! j = Some cj ->
     py_lt (timestamp_of ci) (timestamp_of cj) = Some false).
Proof.
  unfold list_checkpoints. intros H.
  apply (py_sort_spec timestamp_of true) in H as [Hperm Hsorted].
  split; [done|]. split; [|done].
  intros c. rewrite Hperm. apply elem_of_readable.
Qed.

(** X7 (when the listing raises).  In a directory whose sidecars hold
    JSON objects or content that is not JSON, [list_checkpoints] raises
    nothing but [TypeError], and only when two readable sidecars hold
    timestamps that do not compare with each other (a string with a
    number, or a value such as [null]); when every readable sidecar holds
    a string timestamp or none, as those written by [save] do, it
    returns. *)
Theorem list_checkpoints_raises_on_incomparable_timestamps
    (self : CheckpointManager) (w : World) :
  (forall e, list_checkpoints self w = Err e ->
     e = TypeError /\
     exists c c', listed self w c /\ listed self w c' /\
       py_lt (timestamp_of c) (timestamp_of c') = None) /\
  ((forall c, listed self w c -> exists s, timestamp_of c = PStr s) ->
   exists checkpoints, list_checkpoints self w = Ok checkpoints).
Proof.
  unfold list_checkpoints. split.
  - intros e He. apply py_sort_Err in He as (-> & c & c' & Hc & Hc' & Hlt).
    split; [done|]. exists c, c'. by rewrite <- !elem_of_readable.
  - intros Hall. destruct (py_sort true _) as [out|e] eqn:E; [by eexists|].
    apply py_sort_Err in E as (_ & x & y & Hx & Hy & Hlt).
    destruct (Hall x (proj1 (elem_of_readable _ _ _) Hx)) as [s Hs].
    destruct (Hall y (proj1 (elem_of_readable _ _ _) Hy)) as [t Ht].
    unfold py_lt in Hlt. by rewrite Hs, Ht in Hlt.
Qed.

(** X8 (a saved checkpoint is listed).  After a [save] that returns,
    under a name without [/] (the values copied into the sidecar being
    ones JSON can hold), the directory holds a readable sidecar with the
    name, the time of the call, the metadata now in the checkpoint (an
    empty dictionary when there is none), and the checkpoint's episode
    and reward (0 when missing), and with no other key; every listing
    that returns contains it. *)
Theorem save_then_listed (self : CheckpointManager) (w : World) (name : string)
    (l : loc) (d : pydict) (metadata : option pydict) (w1 : World) (p : string) :
  heap w !! l = Some d ->
  sidecar_serialisable d metadata ->
  save self w name l metadata = (w1, Return p) ->
  contains_slash name = false ->
  exists record,
    listed self w1 record /\
    (forall checkpoints, list_checkpoints self w1 = Ok checkpoints ->
       record ∈ checkpoints) /\
    record !! "name" = Some (PStr name) /\
    record !! "timestamp" = Some (PStr (now w)) /\
    record !! "metadata" = Some (sidecar_metadata d metadata) /\
    record !! "episode" = Some (default (PInt 0) (d !! "episode")) /\
    record !! "reward" = Some (default (PInt 0) (d !! "reward")) /\
    forall k, is_Some (record !! k) ->
      k ∈ ["name"; "timestamp"; "metadata"; "episode"; "reward"].
Proof.
  intros Hl _ Hsave Hname.
  apply save_Return in Hsave as (d0 & d2 & record & Hl' & Hd2 & Hrec & -> & ->).
  rewrite Hl in Hl'. injection Hl' as <-.
  match goal with |- context [listed self ?w0 _] => set (w1 := w0) end.
  assert (listed self w1 record) as Hlisted.
  { exists (path_join (checkpoint_dir self) (name ++ "_metadata.json")).
    split; [by apply is_sidecar_metadata_path|].
    unfold read_json. simpl. by rewrite lookup_insert_eq. }
  exists record. split; [done|]. split.
  { intros cps Hcps. unfold list_checkpoints in Hcps.
    apply (py_sort_spec timestamp_of true) in Hcps as [Hperm _].
    rewrite Hperm. by apply elem_of_readable. }
  assert (d2 !! "episode" = d !! "episode") as He.
  { rewrite Hd2. rewrite lookup_insert_ne by done.
    destruct (truthy metadata); [by rewrite lookup_insert_ne|done]. }
  assert (d2 !! "reward" = d !! "reward") as Hr.
  { rewrite Hd2. rewrite lookup_insert_ne by done.
    destruct (truthy metadata); [by rewrite lookup_insert_ne|done]. }
  assert (default (PDict ∅) (d2 !! "metadata") = sidecar_metadata d metadata) as Hm.
  { rewrite Hd2. rewrite lookup_insert_ne by done. unfold sidecar_metadata.
    destruct (truthy metadata); [by rewrite lookup_insert_eq|done]. }
  rewrite Hrec, He, Hr, Hm.
  split; [apply lookup_insert_eq|].
  split; [rewrite lookup_insert_ne by done; apply lookup_insert_eq|].
  split; [rewrite !(lookup_insert_ne _ _ "metadata") by done; apply lookup_insert_eq|].
  split; [rewrite !(lookup_insert_ne _ _ "episode") by done; apply lookup_insert_eq|].
  split; [rewrite !(lookup_insert_ne _ _ "reward") by done; apply lookup_insert_eq|].
  intros k [v Hk].
  repeat (apply lookup_insert_Some in Hk as [[<- _]|[_ Hk]]; [set_solver|]).
  by rewrite lookup_empty in Hk.
Qed.
End ListFacts.

(** X6 on a directory with two sidecars, a checkpoint file, a file that
    is no sidecar and a sidecar that is not JSON. *)
Lemma list_checkpoints_newest_first_witness :
  let checkpoints := [Listing.newer; Listing.older] in
  CheckpointQueries.list_checkpoints Sample.manager Listing.world
  = CheckpointQueries.Ok checkpoints /\
  checkpoints ≡ₚ omap (CheckpointQueries.read_json Listing.world)
                   (CheckpointQueries.glob_metadata Sample.manager Listing.world) /\
  (forall c, c ∈ checkpoints <-> CheckpointQueries.listed Sample.manager Listing.world c) /\
  (forall i j ci cj, (i < j)%nat ->
     checkpoints !! i = Some ci -> checkpoints !! j = Some cj ->
     CheckpointQueries.py_lt (CheckpointQueries.timestamp_of ci)
       (CheckpointQueries.timestamp_of cj) = Some false).
Proof.
  intros checkpoints.
  assert (CheckpointQueries.list_checkpoints Sample.manager Listing.world
          = CheckpointQueries.Ok checkpoints) as H by (vm_compute; exact eq_refl).
  split; [exact H|].
  exact (list_checkpoints_newest_first Sample.manager Listing.world checkpoints H).
Defined.

(** X8 on the sample world. *)
Lemma save_then_listed_witness :
  let d : Checkpoint.pydict :=
    {[ "episode" := Checkpoint.PInt 5; "reward" := Checkpoint.PFloat (3 # 2) ]} in
  let w1 := (Checkpoint.save Sample.manager Sample.world "m" 0 None).1 in
  exists record,
    CheckpointQueries.listed Sample.manager w1 record /\
    (forall checkpoints,
       CheckpointQueries.list_checkpoints Sample.manager w1
       = CheckpointQueries.Ok checkpoints -> record ∈ checkpoints) /\
    record !! "name" = Some (Checkpoint.PStr "m") /\
    record !! "timestamp" = Some (Checkpoint.PStr (Checkpoint.now Sample.world)) /\
    record !! "metadata" = Some (CheckpointQueries.sidecar_metadata d None) /\
    record !! "episode" = Some (default (Checkpoint.PInt 0) (d !! "episode")) /\
    record !! "reward" = Some (default (Checkpoint.PInt 0) (d !! "reward")) /\
    forall k, is_Some (record !! k) ->
      k ∈ ["name"; "timestamp"; "metadata"; "episode"; "reward"].
Proof.
  intros d w1.
  apply (save_then_listed Sample.manager Sample.world "m" 0 d None w1 "checkpoints/m.pt").
  - reflexivity.
  - repeat split; [apply CheckpointQueries.json_dict, map_Forall_empty
                  |apply CheckpointQueries.json_int|apply CheckpointQueries.json_float].
  - vm_compute. reflexivity.
  - reflexivity.
Defined.

Section BestFacts.
Import Checkpoint CheckpointQueries.
Local Open Scope string_scope.

Lemma with_prefix_Ok prefix checkpoints kept :
  with_prefix prefix checkpoints = Ok kept ->
  match kept with
  | [] => forall c, c ∈ checkpoints ->
            exists s, c !! "name" = Some (PStr s) /\ String.prefix prefix s = false
  | h :: _ =>
      exists l1 l2 s,
        checkpoints = (l1 ++ h :: l2)%list /\
        h !! "name" = Some (PStr s) /\ String.prefix prefix s = true /\
        forall c, c ∈ l1 ->
          exists s', c !! "name" = Some (PStr s') /\ String.prefix prefix s' = false
  end.
Proof.
  revert kept. induction checkpoints as [|c rest IH]; intros kept; simpl.
  - intros [= <-]. intros c Hc. by apply elem_of_nil in Hc.
  - destruct (c !! "name") as [[| | | |s| |]|] eqn:En; try done.
    destruct (with_prefix prefix rest) as [kept'|] eqn:Er; [|done].
    specialize (IH kept' eq_refl). intros [= <-].
    destruct (String.prefix prefix s) eqn:Ep.
    + exists [], rest, s. repeat split; try done. intros c' Hc'. by apply elem_of_nil in Hc'.
    + destruct kept' as [|h t].
      * intros c' Hc'. apply elem_of_cons in Hc' as [->|Hc']; [by exists s|by apply IH].
      * destruct IH as (l1 & l2 & s' & -> & Hn & Hp & Hl1).
        exists (c :: l1), l2, s'. repeat split; try done.
        intros c' Hc'. apply elem_of_cons in Hc' as [->|Hc']; [by exists s|by apply Hl1].
Qed.

(** X9 (the latest checkpoint).  When [get_latest] returns a name, it is
    the ['name'] entry of a readable sidecar; with a non-empty prefix it
    is a string that starts with the prefix; and no readable sidecar whose
    name starts with the prefix (no readable sidecar at all, when the
    prefix is empty) has a greater timestamp.  When it returns [None],
    either no sidecar can be read or the prefix is non-empty and every
    readable sidecar has a string name that does not start with it. *)
Theorem get_latest_newest (self : CheckpointManager) (w : World) (prefix : string)
    (latest : option pyval) :
  get_latest self w prefix = Ok latest ->
  match latest with
  | Some v =>
      exists c,
        listed self w c /\ c !! "name" = Some v /\
        (prefix <> "" -> exists s, v = PStr s /\ String.prefix prefix s = true) /\
        forall c', listed self w c' ->
          (prefix = "" \/
           exists s', c' !! "name" = Some (PStr s') /\ String.prefix prefix s' = true) ->
          py_lt (timestamp_of c) (timestamp_of c') <> Some true
  | None =>
      forall c, listed self w c ->
        prefix <> "" /\
        exists s, c !! "name" = Some (PStr s) /\ String.prefix prefix s = false
  end.
Proof.
  unfold get_latest, list_checkpoints.
  destruct (py_sort true _) as [cps|e] eqn:Hsort; [|done].
  apply (py_sort_spec timestamp_of true) in Hsort as [Hperm Hsorted].
  assert (forall c, c ∈ cps <-> listed self w c) as Hin.
  { intros c. rewrite Hperm. apply elem_of_readable. }
  destruct (String.eqb prefix "") eqn:Epre.
  - apply String.eqb_eq in Epre. destruct cps as [|h t].
    + intros [= <-]. intros c Hc. apply Hin in Hc. by apply elem_of_nil in Hc.
    + unfold name_of. destruct (h !! "name") as [v'|] eqn:En; [|done].
      intros [= <-].
      exists h. split; [apply Hin; by left|]. split; [done|]. split; [done|].
      intros c' Hc' _. apply Hin in Hc'. apply elem_of_cons in Hc' as [->|Hc'].
      * apply py_lt_irrefl.
      * rewrite (sorted_head (fun x y => py_lt (timestamp_of x) (timestamp_of y) = Some false)
                   (h :: t) t h Hsorted [] eq_refl c' Hc'). done.
  - apply String.eqb_neq in Epre.
    destruct (with_prefix prefix cps) as [kept|e] eqn:Ek; [|done].
    apply with_prefix_Ok in Ek. destruct kept as [|h t].
    + intros [= <-]. intros c Hc. split; [done|]. apply Ek. by apply Hin.
    + destruct Ek as (l1 & l2 & s & Hcps & Hn & Hp & Hl1).
      unfold name_of. rewrite Hn. intros [= <-].
      exists h. split; [apply Hin; rewrite Hcps; apply elem_of_app; right; by left|].
      split; [done|]. split; [intros _; by exists s|].
      intros c' Hc' [Hemp|(s' & Hn' & Hp')]; [done|].
      apply Hin in Hc'. rewrite Hcps in Hc'.
      apply elem_of_app in Hc' as [Hc'|Hc'].
      * destruct (Hl1 c' Hc') as (s'' & Hn'' & Hp''). congruence.
      * apply elem_of_cons in Hc' as [->|Hc']; [apply py_lt_irrefl|].
        rewrite (sorted_head (fun x y => py_lt (timestamp_of x) (timestamp_of y) = Some false)
                   cps l2 h Hsorted l1 Hcps c' Hc'). done.
Qed.

Lemma with_metric_Ok metric checkpoints valid :
  with_metric metric checkpoints = Ok valid ->
  forall c, c ∈ checkpoints ->
    (c ∈ valid /\ has_metric metric c = Ok true) \/
    has_metric metric c = Ok false.
Proof.
  revert valid. induction checkpoints as [|c rest IH]; intros valid; simpl.
  - intros _ c Hc. by apply elem_of_nil in Hc.
  - destruct (has_metric metric c) as [b|] eqn:Eb; [|done].
    destruct (with_metric metric rest) as [kept|] eqn:Er; [|done].
    specialize (IH kept eq_refl). intros [= <-] c' Hc'.
    apply elem_of_cons in Hc' as [->|Hc'].
    + destruct b; [left; split; [by left|done]|by right].
    + destruct (IH c' Hc') as [[Hin Hm]|Hm]; [left|by right].
      split; [|done]. destruct b; [by right|done].
Qed.

Lemma with_metric_valid metric checkpoints valid :
  with_metric metric checkpoints = Ok valid ->
  forall c, c ∈ valid -> c ∈ checkpoints /\ has_metric metric c = Ok true.
Proof.
  revert valid. induction checkpoints as [|c rest IH]; intros valid; simpl.
  - intros [= <-] c Hc. by apply elem_of_nil in Hc.
  - destruct (has_metric metric c) as [b|] eqn:Eb; [|done].
    destruct (with_metric metric rest) as [kept|] eqn:Er; [|done].
    specialize (IH kept eq_refl). intros [= <-] c' Hc'.
    destruct b.
    + apply elem_of_cons in Hc' as [->|Hc']; [split; [by left|done]|].
      destruct (IH c' Hc'). split; [by right|done].
    + destruct (IH c' Hc'). split; [by right|done].
Qed.

(** The sort key of [get_best], for an item whose key can be computed. *)
Local Abbreviation metric_key metric :=
  (fun c => match metric_of metric c with Ok k => k | Err _ => PNone end).

Lemma keyed_by_metric_Ok metric valid keyed :
  keyed_by_metric metric valid = Ok keyed ->
  keyed = map (fun c => (metric_key metric c, c)) valid /\
  forall c, c ∈ valid -> metric_of metric c = Ok (metric_key metric c).
Proof.
  revert keyed. induction valid as [|c rest IH]; intros keyed; simpl.
  - intros [= <-]. split; [done|]. intros c Hc. by apply elem_of_nil in Hc.
  - destruct (metric_of metric c) as [k|] eqn:Ek; [|done].
    destruct (keyed_by_metric metric rest) as [keyed'|] eqn:Er; [|done].
    destruct (IH keyed' eq_refl) as [-> Hall]. intros [= <-]. split.
    + done.
    + intros c' Hc'. apply elem_of_cons in Hc' as [->|Hc']; [by rewrite Ek|by apply Hall].
Qed.

(** X10 (the best checkpoint).  When [get_best] returns a name, it is the
    ['name'] entry of a readable sidecar that has the metric, in its
    metadata or at its top level; the metric's value, read from the
    metadata first and from the top level otherwise, is exceeded by that
    of no readable sidecar having the metric (exceeds none, when
    minimising).  When it returns [None], no readable sidecar has the
    metric. *)
Theorem get_best_optimal (self : CheckpointManager) (w : World)
    (metric : string) (maximize : bool) (best : option pyval) :
  get_best self w metric maximize = Ok best ->
  match best with
  | Some v =>
      exists c k,
        listed self w c /\ c !! "name" = Some v /\
        has_metric metric c = Ok true /\ metric_of metric c = Ok k /\
        forall c' k', listed self w c' -> has_metric metric c' = Ok true ->
          metric_of metric c' = Ok k' ->
          py_lt (if maximize then k else k') (if maximize then k' else k) <> Some true
  | None => forall c, listed self w c -> has_metric metric c = Ok false
  end.
Proof.
  unfold get_best, list_checkpoints.
  destruct (py_sort true _) as [cps|e] eqn:Hsort; [|done].
  apply (py_sort_spec timestamp_of true) in Hsort as [Hperm _].
  assert (forall c, c ∈ cps <-> listed self w c) as Hin.
  { intros c. rewrite Hperm. apply elem_of_readable. }
  destruct cps as [|c0 cps0].
  { intros [= <-]. intros c Hc. apply Hin in Hc. by apply elem_of_nil in Hc. }
  set (cps := c0 :: cps0) in *.
  destruct (with_metric metric cps) as [valid|e] eqn:Ev; [|done].
  pose proof (with_metric_Ok _ _ _ Ev) as Hall.
  pose proof (with_metric_valid _ _ _ Ev) as Hvalid.
  destruct valid as [|v0 valid0].
  { intros [= <-]. intros c Hc. apply Hin in Hc.
    destruct (Hall c Hc) as [[Hc' _]|Hc']; [by apply elem_of_nil in Hc'|done]. }
  set (valid := v0 :: valid0) in *.
  destruct (keyed_by_metric metric valid) as [keyed|e] eqn:Ek; [|done].
  apply keyed_by_metric_Ok in Ek as [-> Hkeys].
  destruct (py_sort maximize _) as [sorted|e] eqn:Hs; [|done].
  apply (py_sort_spec (metric_key metric) maximize) in Hs as [Hperm' Hsorted].
  destruct sorted as [|h t].
  { apply Permutation_nil_l in Hperm'. done. }
  unfold name_of. destruct (h !! "name") as [v'|] eqn:En; [|done]. intros [= <-].
  assert (h ∈ valid) as Hh by (rewrite <- Hperm'; by left).
  destruct (Hvalid h Hh) as [Hhc Hhm].
  exists h, (metric_key metric h). split; [by apply Hin|]. split; [done|].
  split; [done|]. split; [by apply Hkeys|].
  intros c' k' Hc' Hm' Hk'. apply Hin in Hc'.
  destruct (Hall c' Hc') as [[Hc'v _]|Hno]; [|congruence].
  rewrite <- Hperm' in Hc'v.
  assert (k' = metric_key metric c') as -> by (by rewrite Hk').
  apply elem_of_cons in Hc'v as [->|Hc't].
  - destruct maximize; apply py_lt_irrefl.
  - pose proof (sorted_head
        (fun x y => py_lt (if maximize then metric_key metric x else metric_key metric y)
                          (if maximize then metric_key metric y else metric_key metric x)
                    = Some false)
        (h :: t) t h Hsorted [] eq_refl c' Hc't) as Hord.
    simpl in Hord. rewrite Hord. done.
Qed.
End BestFacts.

(** X9 on the directory of X6, with the prefix [a]: the older sidecar is
    the only one whose name starts with it. *)
Lemma get_latest_newest_witness :
  let latest := Some (Checkpoint.PStr "a") in
  CheckpointQueries.get_latest Sample.manager Listing.world "a"
  = CheckpointQueries.Ok latest /\
  exists c,
    CheckpointQueries.listed Sample.manager Listing.world c /\
    c !! "name" = Some (Checkpoint.PStr "a") /\
    ("a" <> "" -> exists s, Checkpoint.PStr "a" = Checkpoint.PStr s /\
                            String.prefix "a" s = true) /\
    forall c', CheckpointQueries.listed Sample.manager Listing.world c' ->
      ("a" = "" \/
       exists s', c' !! "name" = Some (Checkpoint.PStr s') /\ String.prefix "a" s' = true) ->
      CheckpointQueries.py_lt (CheckpointQueries.timestamp_of c)
        (CheckpointQueries.timestamp_of c') <> Some true.
Proof.
  intros latest.
  assert (CheckpointQueries.get_latest Sample.manager Listing.world "a"
          = CheckpointQueries.Ok latest) as H by (vm_compute; exact eq_refl).
  split; [exact H|].
  exact (get_latest_newest Sample.manager Listing.world "a" latest H).
Defined.

(** X10 on the directory of X6, for the metric [reward]: the newer
    sidecar carries 0.5 in its metadata and 7 at its top level, the older
    one 1.5 at its top level only; the older one is the best. *)
Lemma get_best_optimal_witness :
  let best := Some (Checkpoint.PStr "a") in
  CheckpointQueries.get_best Sample.manager Listing.world "reward" true
  = CheckpointQueries.Ok best /\
  exists c k,
    CheckpointQueries.listed Sample.manager Listing.world c /\
    c !! "name" = Some (Checkpoint.PStr "a") /\
    CheckpointQueries.has_metric "reward" c = CheckpointQueries.Ok true /\
    CheckpointQueries.metric_of "reward" c = CheckpointQueries.Ok k /\
    forall c' k', CheckpointQueries.listed Sample.manager Listing.world c' ->
      CheckpointQueries.has_metric "reward" c' = CheckpointQueries.Ok true ->
      CheckpointQueries.metric_of "reward" c' = CheckpointQueries.Ok k' ->
      CheckpointQueries.py_lt k k' <> Some true.
Proof.
  intros best.
  assert (CheckpointQueries.get_best Sample.manager Listing.world "reward" true
          = CheckpointQueries.Ok best) as H by (vm_compute; exact eq_refl).
  split; [exact H|].
  exact (get_best_optimal Sample.manager Listing.world "reward" true best H).
Defined.

(** *** models/dqn.py: targets, greedy choice, updates *)

Section DQNTargetFacts.
Import Tensor Torch.
Local Open Scope Q_scope.
Context `{B : Backend} {VS : DQN.ValueStep}.

Lemma fold_left_Qmax rest : forall x,
  let m := fold_left Qmax rest x in
  (m = x \/ m ∈ rest) /\ x <= m /\ forall y, y ∈ rest -> y <= m.
Proof.
  induction rest as [|z rest IH]; intros x; simpl.
  - split; [by left|]. split; [lra|]. intros y Hy. by apply elem_of_nil in Hy.
  - destruct (IH (Qmax x z)) as (Hm & Hle & Hall).
    assert (x <= Qmax x z /\ z <= Qmax x z) as [Hx Hz].
    { split; [apply Q.le_max_l|apply Q.le_max_r]. }
    assert (Qmax x z = x \/ Qmax x z = z) as Hor.
    { unfold Qmax, GenericMinMax.gmax. destruct (x ?= z); auto. }
    split; [|split].
    + destruct Hm as [->|Hm]; [|right; by right].
      destruct Hor as [->| ->]; [by left|right; by left].
    + lra.
    + intros y Hy. apply elem_of_cons in Hy as [->|Hy]; [lra|by apply Hall].
Qed.

(** [tensor.max(1)[0]] is an entry of the row that no entry exceeds. *)
Lemma row_max_spec xs m :
  row_max xs = Some m -> m ∈ xs /\ forall y, y ∈ xs -> y <= m.
Proof.
  destruct xs as [|x rest]; [done|]. simpl. intros [= <-].
  destruct (fold_left_Qmax rest x) as (Hm & Hle & Hall). split.
  - destruct Hm as [->|Hm]; [by left|by right].
  - intros y Hy. apply elem_of_cons in Hy as [->|Hy]; [done|by apply Hall].
Qed.

Lemma DQNAgent_target_q_spec (self : DQN.DQNAgent) d batch target_q :
  DQN.DQNAgent_target_q self d batch = Some target_q ->
  length target_q = length batch /\
  forall i x, batch !! i = Some x ->
    exists q_target m,
      DQN.forward (DQN.target_network self) (DQN.masks_next d i)
                  (ReplayBuffer.t_next_state x) = Some q_target /\
      row_max q_target = Some m /\
      target_q !! i
      = Some (ReplayBuffer.t_reward x
              + (1 - DQN.done_flag x) * DQN.gamma self * m).
Proof.
  unfold DQN.DQNAgent_target_q. intros H.
  destruct (DQN.forward_batch (DQN.target_network self) _ _) as [next_rows|] eqn:En;
    [|done]. simpl in H.
  destruct (mapM row_max next_rows) as [next_q|] eqn:Em; [|done].
  simpl in H. injection H as <-.
  destruct (forward_batch_lookup _ _ _ _ En) as [Ln Hn].
  rewrite length_map in Ln.
  apply mapM_Some_1 in Em. pose proof (Forall2_length _ _ _ Em) as Lm.
  unfold DQN.bootstrap_target.
  split; [rewrite length_zip_with; lia|].
  intros i x Hx.
  assert (map ReplayBuffer.t_next_state batch !! i = Some (ReplayBuffer.t_next_state x))
    as Hx'.
  { by rewrite list_lookup_fmap, Hx. }
  destruct (Hn _ _ Hx') as (q_target & Hqt & Hft).
  destruct (Forall2_lookup_l _ _ _ _ _ Em Hqt) as (m & Hm & Hmax).
  exists q_target, m. split; [done|]. split; [done|].
  rewrite lookup_zip_with, Hx. simpl. by rewrite Hm.
Qed.

(** X11 (the DQN target).  A completed [train_step] of an agent that is
    no [DoubleDQNAgent] computes, for each transition of the sampled
    batch, the current value as the online network's value at the taken
    action, and the target [reward + (1 - done) * gamma * m], [m] being
    an entry of the target network's values at the next state that none
    of them exceeds; the reported loss is the mean squared error between
    the two. *)
Theorem DQN_train_step_target (self self' : DQN.DQNAgent)
    (d : DQN.TrainDraw) (loss : Q) :
  DQN.class self <> DQN.DoubleDQNAgentClass ->
  (DQN.batch_size self <= ReplayBuffer.len (DQN.memory self))%nat ->
  DQN.train_step self d = Some (loss, self') ->
  exists batch current_q target_q,
    ReplayBuffer.sample (DQN.memory self) (DQN.batch_size self)
        (DQN.picks d) = Some batch /\
    length current_q = length batch /\
    length target_q = length batch /\
    (forall i x, batch !! i = Some x ->
       exists q_online q_target v m,
         DQN.forward (DQN.q_network self) (DQN.masks_current d i)
                     (ReplayBuffer.t_state x) = Some q_online /\
         q_online !! ReplayBuffer.t_action x = Some v /\
         current_q !! i = Some v /\
         DQN.forward (DQN.target_network self) (DQN.masks_next d i)
                     (ReplayBuffer.t_next_state x) = Some q_target /\
         m ∈ q_target /\ (forall y, y ∈ q_target -> y <= m) /\
         target_q !! i
         = Some (ReplayBuffer.t_reward x
                 + (1 - DQN.done_flag x) * DQN.gamma self * m)) /\
    loss = mse current_q target_q.
Proof.
  intros Hc Hlen. apply Nat.ltb_ge in Hlen.
  unfold DQN.train_step.
  assert (match DQN.class self with
          | DQN.DoubleDQNAgentClass => DQN.DoubleDQNAgent_train_step self d
          | _ => DQN.DQNAgent_train_step self d
          end = DQN.DQNAgent_train_step self d) as -> by (by destruct (DQN.class self)).
  unfold DQN.DQNAgent_train_step. rewrite Hlen. intros H.
  destruct (ReplayBuffer.sample _ _ _) as [batch|] eqn:Eb; [|done]. simpl in H.
  destruct (DQN.forward_batch _ _ _) as [rows|] eqn:Er; [|done]. simpl in H.
  destruct (DQN.gather rows _) as [current_q|] eqn:Ec; [|done]. simpl in H.
  destruct (DQN.DQNAgent_target_q self d batch) as [target_q|] eqn:Et;
    [|done]. simpl in H.
  destruct (DQN.value_step _ _ _ _ _ _) as [q' opt'] eqn:Ev.
  destruct (DQN.finish_update self q' opt') as [s1|] eqn:Ef; [|done].
  simpl in H. injection H as <- <-.
  destruct (DQNAgent_target_q_spec self d batch target_q Et) as [Hl Ht].
  destruct (forward_batch_lookup _ _ _ _ Er) as [Lr Hr].
  destruct (gather_lookup _ _ _ Ec) as [Lc Hg].
  rewrite length_map in Lr, Lc.
  exists batch, current_q, target_q. split; [done|]. split; [lia|]. split; [done|].
  split; [|done].
  intros i x Hx.
  assert (map ReplayBuffer.t_state batch !! i = Some (ReplayBuffer.t_state x)) as Hs.
  { by rewrite list_lookup_fmap, Hx. }
  assert (map ReplayBuffer.t_action batch !! i = Some (ReplayBuffer.t_action x)) as Ha.
  { by rewrite list_lookup_fmap, Hx. }
  destruct (Hr _ _ Hs) as (q_online & Hrow & Hfo).
  destruct (Hg _ _ _ Hrow Ha) as (v & Hv & Hqa).
  destruct (Ht i x Hx) as (q_target & m & Hft & Hm & Hti).
  destruct (row_max_spec _ _ Hm) as [Hin Hmax].
  by exists q_online, q_target, v, m.
Qed.

(** X12 (Double DQN never targets higher).  On the same batch and under
    the same dropout masks, with a discount factor that is not negative,
    every target of [DoubleDQNAgent.train_step] is at most the target
    [DQNAgent.train_step] computes for that transition. *)
Theorem double_dqn_target_at_most_dqn_target (self : DQN.DQNAgent)
    (d : DQN.TrainDraw) (batch : list ReplayBuffer.Transition)
    (single double : list Q) :
  0 <= DQN.gamma self ->
  DQN.DQNAgent_target_q self d batch = Some single ->
  DQN.DoubleDQNAgent_target_q self d batch = Some double ->
  length single = length batch /\ length double = length batch /\
  forall i s t, single !! i = Some s -> double !! i = Some t -> t <= s.
Proof.
  intros Hg Hs Hd.
  destruct (DQNAgent_target_q_spec self d batch single Hs) as [Ls Hsingle].
  destruct (DoubleDQNAgent_target_q_spec self d batch double Hd) as [Ld Hdouble].
  split; [done|]. split; [done|].
  intros i s t Hsi Hti.
  destruct (lookup_lt_is_Some_2 batch i) as [x Hx].
  { rewrite <- Ls. by eapply lookup_lt_Some. }
  destruct (Hsingle i x Hx) as (q_target & m & Hft & Hm & Hs').
  destruct (Hdouble i x Hx)
    as (q_online & q_target' & t' & Hfo & Hft' & Ht' & a & v & Hmax & Hv & ->).
  rewrite Hft in Hft'. injection Hft' as <-.
  rewrite Hsi in Hs'. injection Hs' as ->.
  rewrite Hti in Ht'. injection Ht' as ->.
  destruct (row_max_spec _ _ Hm) as [_ Hle].
  assert (v <= m) as Hvm by (apply Hle; by eapply list_elem_of_lookup_2).
  assert (0 <= 1 - DQN.done_flag x) as Hdone.
  { unfold DQN.done_flag. destruct (ReplayBuffer.t_done x); lra. }
  assert (0 <= (1 - DQN.done_flag x) * DQN.gamma self) as Hc
    by (by apply Qmult_le_0_compat).
  nra.
Qed.
End DQNTargetFacts.

(** X11 on the small value agent holding one transition. *)
Lemma DQN_train_step_target_witness :
  let self := Sample.small_dqn in
  let d := Sample.train_draw in
  exists loss self',
    (DQN.class self <> DQN.DoubleDQNAgentClass /\
     DQN.batch_size self <= ReplayBuffer.len (DQN.memory self) /\
     @DQN.train_step Sample.backend Sample.value_step self d = Some (loss, self')) /\
    exists batch current_q target_q,
      ReplayBuffer.sample (DQN.memory self) (DQN.batch_size self)
        (DQN.picks d) = Some batch /\
      length current_q = length batch /\
      length target_q = length batch /\
      (forall i x, batch !! i = Some x ->
         exists q_online q_target v m,
           DQN.forward (DQN.q_network self) (DQN.masks_current d i)
                       (ReplayBuffer.t_state x) = Some q_online /\
           q_online !! ReplayBuffer.t_action x = Some v /\
           current_q !! i = Some v /\
           DQN.forward (DQN.target_network self) (DQN.masks_next d i)
                       (ReplayBuffer.t_next_state x) = Some q_target /\
           m ∈ q_target /\ (forall y, y ∈ q_target -> (y <= m)%Q) /\
           target_q !! i
           = Some (ReplayBuffer.t_reward x
                   + (1 - DQN.done_flag x) * DQN.gamma self * m)%Q) /\
      loss = Tensor.mse current_q target_q.
Proof.
  intros self d.
  destruct (@DQN.train_step Sample.backend Sample.value_step self d)
    as [[loss self']|] eqn:E; [|vm_compute in E; discriminate E].
  assert (DQN.class self <> DQN.DoubleDQNAgentClass) as H1 by discriminate.
  assert (DQN.batch_size self <= ReplayBuffer.len (DQN.memory self)) as H2.
  { vm_compute. lia. }
  exists loss, self'. split; [exact (conj H1 (conj H2 eq_refl))|].
  exact (@DQN_train_step_target Sample.backend Sample.value_step
           self self' d loss H1 H2 E).
Defined.

(** X12 on the small agent whose weights make both actions worth the
    same. *)
Lemma double_dqn_target_at_most_dqn_target_witness :
  let self := Sample.small_double_dqn in
  let d := Sample.train_draw in
  let batch := [Scenario.transition] in
  exists single double,
    ((0 <= DQN.gamma self)%Q /\
     DQN.DQNAgent_target_q self d batch = Some single /\
     DQN.DoubleDQNAgent_target_q self d batch = Some double) /\
    length single = length batch /\ length double = length batch /\
    forall i s t, single !! i = Some s -> double !! i = Some t -> (t <= s)%Q.
Proof.
  intros self d batch.
  destruct (DQN.DQNAgent_target_q self d batch) as [single|] eqn:E1;
    [|vm_compute in E1; discriminate E1].
  destruct (DQN.DoubleDQNAgent_target_q self d batch) as [double|] eqn:E2;
    [|vm_compute in E2; discriminate E2].
  assert (0 <= DQN.gamma self)%Q as H0 by (vm_compute; discriminate).
  exists single, double. split; [exact (conj H0 (conj eq_refl eq_refl))|].
  exact (double_dqn_target_at_most_dqn_target self d batch single double H0 E1 E2).
Defined.

Section GreedyFacts.
Import Tensor Torch.
Local Open Scope Q_scope.
Context `{B : Backend} {VS : DQN.ValueStep}.










(** X14 (no available action).  Called with an empty list of available
    actions on a state of the right size, [select_action] raises when it
    explores ([random.choice] of an empty list), and otherwise returns
    action 0, which is not available: every entry of the masked array is
    minus infinity and the arg-max of that is 0.  (With no action at all
    the arg-max of the empty array raises.) *)
Theorem DQN_select_action_nothing_available (self : DQN.DQNAgent)
    (state : list Q) (training : bool) (d : DQN.ActDraw) :
  DQN.well_shaped self -> length state = DQN.state_size self ->
  DQN.select_action self state [] training d
  = if training && Qltb (DQN.rand_unit d) (DQN.epsilon self) then None
    else match DQN.action_size self with
         | O => None
         | S _ => Some 0%nat
         end.
Proof.
  intros Hs Hl. unfold DQN.select_action.
  destruct (training && _); [done|].
  destruct (network_forward_Some (DQN.q_network self) (DQN.act_masks d) state
              (DQN.is_dueling (DQN.class self)) (DQN.state_size self)
              (DQN.action_size self)) as (q & -> & Lq); [by destruct Hs|done|].
  simpl. destruct (DQN.action_size self) as [|n]; [done|]. simpl.
  f_equal. clear Lq. generalize 1%nat. induction n as [|n IH]; intros i; [done|].
  simpl. apply IH.
Qed.
End GreedyFacts.


(** X14 on a freshly built agent with two actions: exploring with a
    draw of 0 below an epsilon of 1, and in evaluation mode. *)
Lemma DQN_select_action_nothing_available_witness :
  let d := Sample.dropping 1 in
  DQN.select_action Sample.fresh_dqn [0%Q] [] true d = None /\
  DQN.select_action Sample.fresh_dqn [0%Q] [] false d = Some 0.
Proof.
  intros d.
  assert (DQN.well_shaped Sample.fresh_dqn) as Hs
    by (apply DQNAgent_init_well_shaped; reflexivity).
  split.
  - exact (DQN_select_action_nothing_available Sample.fresh_dqn [0%Q] true d Hs eq_refl).
  - exact (DQN_select_action_nothing_available Sample.fresh_dqn [0%Q] false d Hs eq_refl).
Defined.

Section StateDictFacts.
Import Tensor Torch.
Local Open Scope Q_scope.
Context `{B : Backend} {VS : DQN.ValueStep}
        {PS : PolicyGradient.PolicyStep}
        {ACS : ActorCritic.ActorCriticStep} {PPS : PPO.PPOStep}.

(** X15 (state dictionary round trip).  For each of the four agent
    classes: loading an agent's own state dictionary leaves the agent as
    it is; and whenever an agent accepts the state dictionary of [a], its
    own state dictionary is that of [a] from then on. *)
Theorem state_dict_round_trip (a b : Agent.agent) :
  Agent.load_state_dict a (Agent.state_dict a) = Some a /\
  forall b', Agent.load_state_dict b (Agent.state_dict a) = Some b' ->
    Agent.state_dict b' = Agent.state_dict a.
Proof.
  split.
  - destruct a as [self|self|self|self]; simpl.
    + unfold DQN.load_state_dict, DQN.network_load. simpl.
      rewrite !decide_True by done. simpl. by destruct self.
    + unfold PolicyGradient.load_state_dict. simpl.
      rewrite decide_True by done. simpl. by destruct self.
    + unfold ActorCritic.load_state_dict. simpl.
      rewrite !decide_True by done. simpl. by destruct self.
    + unfold PPO.load_state_dict. simpl.
      rewrite decide_True by done. simpl. by destruct self.
  - intros b'. destruct a as [sa|sa|sa|sa], b as [sb|sb|sb|sb]; simpl; try done.
    + unfold DQN.load_state_dict, DQN.network_load. simpl.
      destruct (decide (DQN.network_shape (DQN.q_network sb) = _)); simpl; [|done].
      destruct (decide (DQN.network_shape (DQN.target_network sb) = _)); simpl; [|done].
      by intros [= <-].
    + unfold PolicyGradient.load_state_dict. simpl.
      destruct (decide _); simpl; [|done]. by intros [= <-].
    + unfold ActorCritic.load_state_dict. simpl.
      destruct (decide (MLP_shape (ActorCritic.actor sb) = _)); simpl; [|done].
      destruct (decide (MLP_shape (ActorCritic.critic sb) = _)); simpl; [|done].
      by intros [= <-].
    + unfold PPO.load_state_dict. simpl.
      destruct (decide _); simpl; [|done]. by intros [= <-].
Qed.

(** What a returning [train_step] did: nothing, or one whole update. *)
Lemma DQN_train_step_cases (self self' : DQN.DQNAgent) d loss :
  DQN.train_step self d = Some (loss, self') ->
  ((ReplayBuffer.len (DQN.memory self) < DQN.batch_size self)%nat /\ self' = self) \/
  ((DQN.batch_size self <= ReplayBuffer.len (DQN.memory self))%nat /\
   DQN.target_update_freq self <> 0%nat /\
   DQN.update_counter self' = S (DQN.update_counter self) /\
   DQN.target_network self'
   = (if (S (DQN.update_counter self) mod DQN.target_update_freq self =? 0)%nat
      then DQN.q_network self' else DQN.target_network self) /\
   DQN.memory self' = DQN.memory self /\
   DQN.target_update_freq self' = DQN.target_update_freq self /\
   DQN.batch_size self' = DQN.batch_size self /\
   DQN.gamma self' = DQN.gamma self /\
   DQN.class self' = DQN.class self).
Proof.
  assert (forall target,
    (batch ← ReplayBuffer.sample (DQN.memory self) (DQN.batch_size self) (DQN.picks d);
     rows ← DQN.forward_batch (DQN.q_network self) (DQN.masks_current d)
              (map ReplayBuffer.t_state batch);
     current_q ← DQN.gather rows (map ReplayBuffer.t_action batch);
     target_q ← target batch;
     let '(q', opt') :=
       DQN.value_step (DQN.optimizer self) (DQN.q_network self) (DQN.masks_current d)
         (map ReplayBuffer.t_state batch) (map ReplayBuffer.t_action batch) target_q in
     self' ← DQN.finish_update self q' opt';
     Some (mse current_q target_q, self')) = Some (loss, self') ->
    DQN.target_update_freq self <> 0%nat /\
    DQN.update_counter self' = S (DQN.update_counter self) /\
    DQN.target_network self'
    = (if (S (DQN.update_counter self) mod DQN.target_update_freq self =? 0)%nat
       then DQN.q_network self' else DQN.target_network self) /\
    DQN.memory self' = DQN.memory self /\
    DQN.target_update_freq self' = DQN.target_update_freq self /\
    DQN.batch_size self' = DQN.batch_size self /\
    DQN.gamma self' = DQN.gamma self /\
    DQN.class self' = DQN.class self) as Hbody.
  { intros target H.
    destruct (ReplayBuffer.sample _ _ _) as [batch|]; [|done]. simpl in H.
    destruct (DQN.forward_batch _ _ _) as [rows|]; [|done]. simpl in H.
    destruct (DQN.gather rows _) as [current_q|]; [|done]. simpl in H.
    destruct (target batch) as [target_q|]; [|done]. simpl in H.
    destruct (DQN.value_step _ _ _ _ _ _) as [q' opt'].
    unfold DQN.finish_update in H.
    destruct (DQN.target_update_freq self =? 0)%nat eqn:Ef; [done|].
    apply Nat.eqb_neq in Ef. simpl in H. injection H as _ <-. by simpl. }
  intros H. unfold DQN.train_step, DQN.DQNAgent_train_step,
    DQN.DoubleDQNAgent_train_step in H.
  destruct (ReplayBuffer.len (DQN.memory self) <? DQN.batch_size self)%nat eqn:E.
  - left. apply Nat.ltb_lt in E. split; [done|].
    destruct (DQN.class self); by injection H as _ <-.
  - right. apply Nat.ltb_ge in E. split; [done|].
    destruct (DQN.class self); by eapply Hbody.
Qed.

(** With a target-update frequency of zero the remainder cannot be taken:
    every update that gets that far raises. *)
Lemma DQN_train_step_zero_freq (self : DQN.DQNAgent) d :
  (DQN.batch_size self <= ReplayBuffer.len (DQN.memory self))%nat ->
  DQN.target_update_freq self = 0%nat -> DQN.train_step self d = None.
Proof.
  intros Hlen Hf. destruct (DQN.train_step self d) as [[loss self']|] eqn:E; [|done].
  destruct (DQN_train_step_cases _ _ _ _ E) as [[Hlt _]|(_ & Hne & _)]; [lia|done].
Qed.

(** X16 (counting updates, syncing the target).  With a batch in memory:
    a [train_step] that returns has added one to the update counter; the
    target network is the stepped online network when the new count is a
    multiple of the target-update frequency and is untouched otherwise;
    the replay memory is as it was.  With a target-update frequency of
    zero, [train_step] raises. *)
Theorem DQN_train_step_counts_and_syncs (self : DQN.DQNAgent) (d : DQN.TrainDraw) :
  (DQN.batch_size self <= ReplayBuffer.len (DQN.memory self))%nat ->
  (DQN.target_update_freq self = 0%nat -> DQN.train_step self d = None) /\
  forall loss self', DQN.train_step self d = Some (loss, self') ->
    DQN.update_counter self' = S (DQN.update_counter self) /\
    (DQN.update_counter self' mod DQN.target_update_freq self = 0%nat ->
     DQN.target_network self' = DQN.q_network self') /\
    (DQN.update_counter self' mod DQN.target_update_freq self <> 0%nat ->
     DQN.target_network self' = DQN.target_network self) /\
    DQN.memory self' = DQN.memory self /\
    DQN.target_update_freq self' = DQN.target_update_freq self.
Proof.
  intros Hlen. split; [by apply DQN_train_step_zero_freq|].
  intros loss self' E.
  destruct (DQN_train_step_cases _ _ _ _ E)
    as [[Hlt _]|(_ & Hne & Hc & Ht & Hm & Hf & _)]; [lia|].
  split; [done|]. rewrite Hc, Ht.
  split; [by intros ->|]. split; [|done].
  intros Hmod. apply Nat.eqb_neq in Hmod. by rewrite Hmod.
Qed.

Lemma div_step (c f : nat) :
  f <> 0%nat ->
  (if (S c mod f =? 0)%nat then (S c / f = S (c / f))%nat else (S c / f = c / f)%nat).
Proof.
  intros Hf.
  pose proof (Nat.div_mod_eq c f) as H1. pose proof (Nat.div_mod_eq (S c) f) as H2.
  pose proof (Nat.mod_upper_bound c f Hf) as H3.
  pose proof (Nat.mod_upper_bound (S c) f Hf) as H4.
  destruct (S c mod f =? 0)%nat eqn:E.
  - apply Nat.eqb_eq in E. nia.
  - apply Nat.eqb_neq in E. nia.
Qed.

Lemma dqn_run_counter (calls : list Calls.dqn_call) : forall self self',
  Calls.dqn_run self calls = Some self' ->
  (DQN.update_counter self <= DQN.update_counter self')%nat /\
  DQN.target_update_freq self' = DQN.target_update_freq self.
Proof.
  induction calls as [|c rest IH]; intros self self' H; simpl in H.
  - by injection H as <-.
  - destruct (Calls.dqn_call_run self c) as [s1|] eqn:E; [|done]. simpl in H.
    destruct (IH s1 self' H) as [Hc Hf]. destruct c as [x|d]; simpl in E.
    + injection E as <-. simpl in *. done.
    + destruct (DQN.train_step self d) as [[loss s1']|] eqn:Et; [|done].
      simpl in E. injection E as ->.
      destruct (DQN_train_step_cases _ _ _ _ Et) as [[_ ->]|(_ & _ & Hc1 & _ & _ & Hf1 & _)];
        [done|]. rewrite Hf, Hf1. split; [lia|done].
Qed.

(** X17 (the target network between syncs).  Over any sequence of
    [remember] and [train_step] calls that runs through, the update
    counter never decreases and the target-update frequency stays; and
    when the counter has passed no multiple of the frequency, the target
    network at the end is the one at the start, whatever happened to the
    online network. *)
Theorem target_network_frozen_between_syncs (self self' : DQN.DQNAgent)
    (calls : list Calls.dqn_call) :
  Calls.dqn_run self calls = Some self' ->
  (DQN.update_counter self <= DQN.update_counter self')%nat /\
  DQN.target_update_freq self' = DQN.target_update_freq self /\
  ((DQN.update_counter self' / DQN.target_update_freq self
    = DQN.update_counter self / DQN.target_update_freq self)%nat ->
   DQN.target_network self' = DQN.target_network self).
Proof.
  intros H. destruct (dqn_run_counter calls self self' H) as [Hmono Hfreq].
  split; [done|]. split; [done|]. clear Hmono Hfreq.
  revert self H. induction calls as [|c rest IH]; intros self H Hq; simpl in H.
  - by injection H as <-.
  - destruct (Calls.dqn_call_run self c) as [s1|] eqn:E; [|done]. simpl in H.
    destruct (dqn_run_counter rest s1 self' H) as [Hmono Hfreq].
    destruct c as [x|d]; simpl in E.
    + injection E as <-. by apply (IH _ H).
    + destruct (DQN.train_step self d) as [[loss s1']|] eqn:Et; [|done].
      simpl in E. injection E as ->.
      destruct (DQN_train_step_cases _ _ _ _ Et)
        as [[_ ->]|(_ & Hf0 & Hc1 & Ht1 & _ & Hf1 & _)]; [by apply IH|].
      pose proof (div_step (DQN.update_counter self) (DQN.target_update_freq self) Hf0) as Hd.
      pose proof (Nat.Div0.div_le_mono _ _ (DQN.target_update_freq self) Hmono) as Hle.
      rewrite Hc1 in Hle.
      destruct (S (DQN.update_counter self) mod DQN.target_update_freq self =? 0)%nat.
      * lia.
      * rewrite <- Ht1. apply (IH _ H). rewrite Hf1, Hc1. lia.
Qed.

(** X18 (who consumes its buffer).  After a [train_step] that returns, a
    policy agent (REINFORCE, actor-critic, PPO) holds too little for
    another update: a [train_step] called right away returns zeros and
    changes nothing.  A value agent (any DQN class) still holds the
    replay memory it held. *)
Theorem on_policy_train_step_consumes_episode (ag ag' : Agent.agent)
    (d d' : Agent.TrainDraw) (metrics : list Q) :
  Agent.train_step ag d = Some (metrics, ag') ->
  match ag with
  | Agent.OfDQN self =>
      exists self', ag' = Agent.OfDQN self' /\ DQN.memory self' = DQN.memory self
  | _ =>
      Agent.insufficient ag' /\
      Agent.train_step ag' d' = Some (Agent.zero_metric ag', ag')
  end.
Proof.
  destruct ag as [self|self|self|self]; simpl.
  - destruct (DQN.train_step self (Agent.replay d)) as [[loss self']|] eqn:E; [|done].
    simpl. intros [= <- <-]. exists self'. split; [done|].
    by destruct (DQN_train_step_cases _ _ _ _ E) as [[_ ->]|(_ & _ & _ & _ & Hm & _)].
  - unfold PolicyGradient.train_step.
    destruct (length (PolicyGradient.rewards self) =? 0)%nat eqn:E0.
    + simpl. intros [= <- <-]. simpl. unfold PolicyGradient.train_step. rewrite E0.
      split; [|done]. apply Nat.eqb_eq in E0. by apply length_zero_iff_nil.
    + destruct (zip_with _ _ _); [done|].
      destruct (PolicyGradient.policy_step _ _ _ _) as [policy' opt'].
      simpl. intros [= <- <-]. by simpl.
  - unfold ActorCritic.train_step.
    destruct (length (ActorCritic.rewards self) =? 0)%nat eqn:E0.
    + simpl. intros [= <- <-]. simpl. unfold ActorCritic.train_step. rewrite E0.
      split; [|done]. apply Nat.eqb_eq in E0. by apply length_zero_iff_nil.
    + destruct (ActorCritic.saved self); [done|].
      destruct (decide _); [|done].
      destruct (ActorCritic.actor_step _ _ _ _ _) as [actor' aopt'].
      destruct (ActorCritic.critic_step _ _ _ _) as [critic' copt'].
      simpl. intros [= <- <-]. by simpl.
  - unfold PPO.train_step.
    destruct (length (PPO.states self) =? 0)%nat eqn:E0.
    + simpl. intros [= <- <-]. simpl. unfold PPO.train_step. rewrite E0.
      split; [|done]. apply Nat.eqb_eq in E0. by apply length_zero_iff_nil.
    + destruct (PPO.compute_gae self) as [[advantages returns]|]; [|done]. simpl.
      destruct (PPO.epochs _ _ _ _ _ _ _ _) as [[[totals policy'] opt']|]; [|done]. simpl.
      destruct (PPO.ppo_epochs self =? 0)%nat; [done|].
      destruct totals as [[tp tv] te]. simpl. intros [= <- <-]. by simpl.
Qed.
End StateDictFacts.

(** X16 on the small value agent holding one transition. *)
Lemma DQN_train_step_counts_and_syncs_witness :
  let self := Sample.small_dqn in
  let d := Sample.train_draw in
  (DQN.batch_size self <= ReplayBuffer.len (DQN.memory self)) /\
  (DQN.target_update_freq self = 0 ->
   @DQN.train_step Sample.backend Sample.value_step self d = None) /\
  forall loss self',
    @DQN.train_step Sample.backend Sample.value_step self d = Some (loss, self') ->
    DQN.update_counter self' = S (DQN.update_counter self) /\
    (DQN.update_counter self' mod DQN.target_update_freq self = 0 ->
     DQN.target_network self' = DQN.q_network self') /\
    (DQN.update_counter self' mod DQN.target_update_freq self <> 0 ->
     DQN.target_network self' = DQN.target_network self) /\
    DQN.memory self' = DQN.memory self /\
    DQN.target_update_freq self' = DQN.target_update_freq self.
Proof.
  intros self d.
  assert (DQN.batch_size self <= ReplayBuffer.len (DQN.memory self)) as H.
  { vm_compute. lia. }
  split; [exact H|].
  exact (@DQN_train_step_counts_and_syncs Sample.backend Sample.value_step self d H).
Defined.

(** X17 on two updates of the small value agent with a transition
    remembered in between: two updates pass no multiple of ten. *)
Lemma target_network_frozen_between_syncs_witness :
  let self := Sample.small_dqn in
  exists self',
    @Calls.dqn_run Sample.backend Sample.value_step self Scenario.dqn_calls = Some self' /\
    DQN.update_counter self <= DQN.update_counter self' /\
    DQN.target_update_freq self' = DQN.target_update_freq self /\
    (DQN.update_counter self' / DQN.target_update_freq self
     = DQN.update_counter self / DQN.target_update_freq self ->
     DQN.target_network self' = DQN.target_network self).
Proof.
  intros self.
  destruct (@Calls.dqn_run Sample.backend Sample.value_step self Scenario.dqn_calls)
    as [self'|] eqn:E; [|vm_compute in E; discriminate E].
  exists self'. split; [reflexivity|].
  exact (@target_network_frozen_between_syncs Sample.backend Sample.value_step
           self self' Scenario.dqn_calls E).
Defined.

(** X18 on a REINFORCE agent that holds one step of an episode. *)
Lemma on_policy_train_step_consumes_episode_witness :
  let ag := @Agent.OfPolicyGradient Sample.backend Scenario.episode_pg in
  let d := {| Agent.replay := Sample.train_draw;
              Agent.epoch_masks := fun _ _ => Sample.keep_all |} in
  exists metrics ag',
    @Agent.train_step Sample.backend Sample.value_step Sample.policy_step
       Sample.actor_critic_step Sample.ppo_step ag d = Some (metrics, ag') /\
    Agent.insufficient ag' /\
    @Agent.train_step Sample.backend Sample.value_step Sample.policy_step
       Sample.actor_critic_step Sample.ppo_step ag' d = Some (Agent.zero_metric ag', ag').
Proof.
  intros ag d.
  destruct (@Agent.train_step Sample.backend Sample.value_step Sample.policy_step
              Sample.actor_critic_step Sample.ppo_step ag d)
    as [[metrics ag']|] eqn:E; [|vm_compute in E; discriminate E].
  exists metrics, ag'. split; [reflexivity|].
  exact (@on_policy_train_step_consumes_episode Sample.backend Sample.value_step
           Sample.policy_step Sample.actor_critic_step Sample.ppo_step
           ag ag' d d metrics E).
Defined.

Section SampleFacts.
(** X19 (sampling from the replay buffer).  [sample] raises when asked
    for more transitions than the buffer holds; a batch it returns has
    the size asked for, which the buffer's length covers, and its
    entries are the buffer's entries at the drawn positions. *)
Theorem replay_sample_within_buffer (b : ReplayBuffer.t) (batch_size : nat)
    (picks : list nat) :
  ((ReplayBuffer.len b < batch_size)%nat ->
   ReplayBuffer.sample b batch_size picks = None) /\
  forall batch, ReplayBuffer.sample b batch_size picks = Some batch ->
    length batch = batch_size /\
    (batch_size <= ReplayBuffer.len b)%nat /\
    forall i x, batch !! i = Some x ->
      exists k, picks !! i = Some k /\ ReplayBuffer.buffer b !! k = Some x.
Proof.
  assert (forall batch, ReplayBuffer.sample b batch_size picks = Some batch ->
    length batch = batch_size /\
    (batch_size <= ReplayBuffer.len b)%nat /\
    forall i x, batch !! i = Some x ->
      exists k, picks !! i = Some k /\ ReplayBuffer.buffer b !! k = Some x) as H.
  { unfold ReplayBuffer.sample. intros batch.
    destruct (decide _) as [[Hl Hnd]|]; [|done]. intros Hm.
    apply mapM_Some_1 in Hm. pose proof (Forall2_length _ _ _ Hm) as Hlen.
    split; [lia|]. split.
    - rewrite <- Hl. unfold ReplayBuffer.len.
      transitivity (length (seq 0 (length (ReplayBuffer.buffer b))));
        [|by rewrite length_seq].
      apply submseteq_length. apply NoDup_submseteq; [done|].
      intros k Hk. apply list_elem_of_lookup in Hk as [i Hi].
      destruct (Forall2_lookup_l _ _ _ _ _ Hm Hi) as (x & _ & Hx).
      apply elem_of_seq. apply lookup_lt_Some in Hx. lia.
    - intros i x Hx. destruct (Forall2_lookup_r _ _ _ _ _ Hm Hx) as (k & Hk & Hb).
      by exists k. }
  split; [|done].
  intros Hlt. destruct (ReplayBuffer.sample b batch_size picks) as [batch|] eqn:E; [|done].
  destruct (H batch eq_refl) as (_ & Hle & _). lia.
Qed.
End SampleFacts.

Section DuelingOrderFacts.
Import Tensor Torch.
Local Open Scope Q_scope.

(** X20 (the dueling streams).  The Q-values a dueling network returns
    are ranked as the outputs of its advantage stream are: an action
    whose advantage is at most that of another has a Q-value at most
    that of the other, so a strictly greater Q-value always comes with a
    strictly greater advantage.  The value stream and the mean of the
    advantages enter every Q-value alike and never reverse the order of
    two actions. *)
Theorem dueling_q_order_follows_advantage (n : DQN.DuelingQNetwork) (m : DropMasks)
    (state q : list Q) :
  DQN.DuelingQNetwork_forward n m state = Some q ->
  exists f v1 a1 v advantage,
    let features := dropout dropout_p (drop1 m) (relu f) in
    linear (DQN.feature_layer n) state = Some f /\
    linear (DQN.value_stream1 n) features = Some v1 /\
    linear (DQN.value_stream2 n) (relu v1) = Some [v] /\
    linear (DQN.advantage_stream1 n) features = Some a1 /\
    linear (DQN.advantage_stream2 n) (relu a1) = Some advantage /\
    length advantage = length q /\
    forall i j qi qj ai aj,
      q !! i = Some qi -> q !! j = Some qj ->
      advantage !! i = Some ai -> advantage !! j = Some aj ->
      (ai <= aj -> qi <= qj) /\ (qi < qj -> ai < aj).
Proof.
  unfold DQN.DuelingQNetwork_forward. intros H.
  destruct (linear (DQN.feature_layer n) state) as [f|] eqn:E0; [|done]. simpl in H.
  destruct (linear (DQN.value_stream1 n) _) as [v1|] eqn:E1; [|done]. simpl in H.
  destruct (linear (DQN.value_stream2 n) _) as [value|] eqn:E2; [|done]. simpl in H.
  destruct (linear (DQN.advantage_stream1 n) _) as [a1|] eqn:E3; [|done]. simpl in H.
  destruct (linear (DQN.advantage_stream2 n) _) as [adv|] eqn:E4; [|done]. simpl in H.
  unfold DQN.combine_streams in H. destruct value as [|v [|? ?]]; try done.
  injection H as <-. exists f, v1, a1, v, adv. simpl.
  split; [done|]. split; [done|]. split; [done|]. split; [done|]. split; [done|].
  split; [by rewrite length_map|].
  intros i j qi qj ai aj Hi Hj Hai Haj.
  rewrite list_lookup_fmap, Hai in Hi. rewrite list_lookup_fmap, Haj in Hj.
  simpl in Hi, Hj. injection Hi as <-. injection Hj as <-. split; lra.
Qed.
End DuelingOrderFacts.

(** X20 on a dueling network with one state feature and two actions. *)
Lemma dueling_q_order_follows_advantage_witness :
  let n := Scenario.small_dueling in
  let m := Sample.keep_all in
  exists q,
    DQN.DuelingQNetwork_forward n m [1%Q] = Some q /\
    exists f v1 a1 v advantage,
      let features := Tensor.dropout Torch.dropout_p (Torch.drop1 m) (Tensor.relu f) in
      Tensor.linear (DQN.feature_layer n) [1%Q] = Some f /\
      Tensor.linear (DQN.value_stream1 n) features = Some v1 /\
      Tensor.linear (DQN.value_stream2 n) (Tensor.relu v1) = Some [v] /\
      Tensor.linear (DQN.advantage_stream1 n) features = Some a1 /\
      Tensor.linear (DQN.advantage_stream2 n) (Tensor.relu a1) = Some advantage /\
      length advantage = length q /\
      forall i j qi qj ai aj,
        q !! i = Some qi -> q !! j = Some qj ->
        advantage !! i = Some ai -> advantage !! j = Some aj ->
        ((ai <= aj)%Q -> (qi <= qj)%Q) /\ ((qi < qj)%Q -> (ai < aj)%Q).
Proof.
  intros n m.
  destruct (DQN.DuelingQNetwork_forward n m [1%Q]) as [q|] eqn:E;
    [|vm_compute in E; discriminate E].
  exists q. split; [reflexivity|].
  exact (dueling_q_order_follows_advantage n m [1%Q] q E).
Defined.

(** *** models/ppo.py: the trajectory buffers, the advantages, the clipped loss *)

Section PPORunFacts.
Import Tensor Torch.
Local Open Scope Q_scope.
Context `{B : Backend} {PPS : PPO.PPOStep}.

Lemma PPO_train_step_cases (self self' : PPO.PPOAgent) masks metrics :
  PPO.train_step self masks = Some (metrics, self') ->
  (PPO.states self = [] /\ self' = self) \/
  (PPO.states self <> [] /\
   PPO.states self' = [] /\ PPO.actions self' = [] /\ PPO.rewards self' = [] /\
   PPO.values self' = [] /\ PPO.log_probs self' = [] /\ PPO.dones self' = []).
Proof.
  unfold PPO.train_step.
  destruct (length (PPO.states self) =? 0)%nat eqn:E0.
  - intros [= <- <-]. left. split; [|done].
    apply Nat.eqb_eq in E0. by apply length_zero_iff_nil.
  - apply Nat.eqb_neq in E0.
    destruct (PPO.compute_gae self) as [[advantages returns]|]; [|done]. simpl.
    destruct (PPO.epochs _ _ _ _ _ _ _ _) as [[[totals policy'] opt']|]; [|done]. simpl.
    destruct (PPO.ppo_epochs self =? 0)%nat eqn:Ee; [done|].
    destruct totals as [[tp tv] te]. intros [= <- <-]. right. simpl.
    repeat split; try done. intros H. by rewrite H in E0.
Qed.

Lemma ppo_call_run_aligned (self self' : PPO.PPOAgent) (c : Calls.ppo_call) :
  Calls.ppo_call_run self c = Some self' ->
  Calls.ppo_aligned self -> Calls.ppo_aligned self'.
Proof.
  intros H (Ha & Hv & Hl & Hd). destruct c as [state av training d|reward done|masks|];
    simpl in H.
  - unfold PPO.select_action in H.
    destruct (PPO.get_action_probs_and_value _ _ _) as [[probs value]|]; [|done].
    simpl in H. destruct (masked_sample _ _ _ _) as [[dist a]|]; [|done]. simpl in H.
    destruct training; [|by injection H as <-].
    destruct (ActorCritic.item value) as [v|]; [|done]. simpl in H.
    destruct (log_prob dist a) as [lp|]; [|done]. simpl in H. injection H as <-.
    unfold Calls.ppo_aligned. simpl. rewrite !length_app. simpl. lia.
  - injection H as <-. unfold Calls.ppo_aligned. simpl. rewrite !length_app. simpl. lia.
  - destruct (PPO.train_step self masks) as [[metrics s1]|] eqn:E; [|done].
    simpl in H. injection H as ->.
    destruct (PPO_train_step_cases _ _ _ _ E)
      as [[_ ->]|(_ & H1 & H2 & H3 & H4 & H5 & H6)]; [done|].
    unfold Calls.ppo_aligned. by rewrite H1, H2, H3, H4, H5, H6.
  - by injection H as <-.
Qed.

(** X21 (the trajectory buffers stay aligned).  Whatever sequence of
    [select_action], [store_reward], [train_step] and [reset_trajectory]
    calls a freshly built PPO agent has run through, its states, actions,
    values and log-probabilities are equally many, and so are its rewards
    and done flags. *)
Theorem PPO_buffers_stay_aligned (ssize asize : nat) (h : PPO.Hyper) (r : Init)
    (calls : list Calls.ppo_call) (self : PPO.PPOAgent) :
  Calls.ppo_run (PPO.PPOAgent_init ssize asize h r) calls = Some self ->
  length (PPO.actions self) = length (PPO.states self) /\
  length (PPO.values self) = length (PPO.states self) /\
  length (PPO.log_probs self) = length (PPO.states self) /\
  length (PPO.dones self) = length (PPO.rewards self).
Proof.
  assert (forall s0, Calls.ppo_aligned s0 ->
            Calls.ppo_run s0 calls = Some self -> Calls.ppo_aligned self) as Hgen.
  { induction calls as [|c rest IH]; intros s0 Hs0 H; simpl in H.
    - by injection H as <-.
    - destruct (Calls.ppo_call_run s0 c) as [s1|] eqn:E; [|done]. simpl in H.
      apply (IH s1); [|done]. by eapply ppo_call_run_aligned. }
  apply Hgen. by unfold Calls.ppo_aligned.
Qed.

Lemma gae_loop_None (self : PPO.PPOAgent) vals fuel : forall t k,
  (t <= k < t + fuel)%nat -> vals !! S k = None ->
  PPO.gae_loop self vals fuel t = None.
Proof.
  induction fuel as [|fuel IH]; intros t k Hk Hn; [lia|]. simpl.
  destruct (decide (k = t)) as [->|Hne].
  - destruct (PPO.gae_loop self vals fuel (S t)); [|done]. simpl.
    destruct (PPO.rewards self !! t); [|done]. simpl. by rewrite Hn.
  - rewrite (IH (S t) k); [done|lia|done].
Qed.

(** X22 (a value for every reward).  With one done flag per reward,
    [compute_gae] returns exactly when there are at least as many values
    as rewards, and raises otherwise (a reward stored for a step taken
    outside training mode has no value); what it returns are one
    advantage and one return per reward. *)
Theorem compute_gae_needs_a_value_per_reward (self : PPO.PPOAgent) :
  length (PPO.dones self) = length (PPO.rewards self) ->
  (is_Some (PPO.compute_gae self) <->
   (length (PPO.rewards self) <= length (PPO.values self))%nat) /\
  forall advantages returns,
    PPO.compute_gae self = Some (advantages, returns) ->
    length advantages = length (PPO.rewards self) /\
    length returns = length (PPO.rewards self).
Proof.
  intros Hd. unfold PPO.compute_gae.
  destruct (decide (length (PPO.rewards self) <= length (PPO.values self))%nat) as [Hle|Hgt].
  - destruct (gae_loop_Some self (PPO.values self ++ [0]) (length (PPO.rewards self)) 0)
      as [advs E]; [lia|lia|rewrite length_app; simpl; lia|].
    rewrite E. simpl. split; [done|].
    intros advantages returns [= <- <-].
    destruct (gae_loop_steps self _ _ _ _ E) as [Hl _].
    split; [done|]. rewrite length_zip_with. lia.
  - rewrite (gae_loop_None self _ _ 0%nat (length (PPO.rewards self) - 1)%nat).
    + simpl. split; [|done]. split; [by intros []|lia].
    + lia.
    + apply lookup_ge_None. rewrite length_app. simpl. lia.
Qed.

(** The loop reads the agent's rewards and done flags and the given values
    only at the positions it visits; shifting all three by [n] shifts
    nothing else. *)
Lemma gae_loop_shift (s s2 : PPO.PPOAgent) (vals vals2 : list Q) (n : nat) fuel :
  PPO.gamma s = PPO.gamma s2 -> PPO.gae_lambda s = PPO.gae_lambda s2 ->
  (forall k, PPO.rewards s !! (n + k)%nat = PPO.rewards s2 !! k) ->
  (forall k, PPO.dones s !! (n + k)%nat = PPO.dones s2 !! k) ->
  (forall k, vals !! (n + k)%nat = vals2 !! k) ->
  forall t, PPO.gae_loop s vals fuel (n + t) = PPO.gae_loop s2 vals2 fuel t.
Proof.
  intros Hg Hl Hr Hd Hv. induction fuel as [|fuel IH]; intros t; simpl; [done|].
  by rewrite <- Nat.add_succ_r, IH, Hr, Hd, !Hv, Hg, Hl.
Qed.

Lemma Forall2_Qeq_hd (xs ys : list Q) :
  Forall2 Qeq xs ys -> hd 0 xs == hd 0 ys.
Proof. intros [|x y xs' ys' Hxy _]; simpl; [reflexivity|done]. Qed.

Lemma Forall2_Qeq_refl (xs : list Q) : Forall2 Qeq xs xs.
Proof. induction xs; constructor; [reflexivity|done]. Qed.

(** The first episode's part of the loop over the joined rollout. *)
Lemma gae_loop_prefix (s s1 : PPO.PPOAgent) (vals vals1 adv2 : list Q) (n1 n2 : nat) :
  PPO.gamma s = PPO.gamma s1 -> PPO.gae_lambda s = PPO.gae_lambda s1 ->
  (forall k, (k < n1)%nat -> PPO.rewards s !! k = PPO.rewards s1 !! k) ->
  (forall k, (k < n1)%nat -> PPO.dones s !! k = PPO.dones s1 !! k) ->
  (forall k, (k < n1)%nat -> vals !! k = vals1 !! k) ->
  is_Some (vals !! n1) ->
  (forall k, S k = n1 -> PPO.dones s1 !! k = Some true) ->
  PPO.gae_loop s vals n2 n1 = Some adv2 ->
  forall f1 t a1, (t + f1 = n1)%nat ->
    PPO.gae_loop s1 vals1 f1 t = Some a1 ->
    exists a, PPO.gae_loop s vals (f1 + n2) t = Some a /\ Forall2 Qeq a (a1 ++ adv2).
Proof.
  intros Hg Hl Hr Hd Hv Hn1 Hlast H2.
  induction f1 as [|f IH]; intros t a1 Ht H1.
  - simpl in H1. injection H1 as <-. assert (t = n1) as -> by lia.
    exists adv2. split; [done|]. apply Forall2_Qeq_refl.
  - simpl in H1.
    destruct (PPO.gae_loop s1 vals1 f (S t)) as [later1|] eqn:El; [|done]. simpl in H1.
    destruct (PPO.rewards s1 !! t) as [r|] eqn:Er; [|done]. simpl in H1.
    destruct (vals1 !! S t) as [vn1|] eqn:Evn; [|done]. simpl in H1.
    destruct (PPO.dones s1 !! t) as [d|] eqn:Ed; [|done]. simpl in H1.
    destruct (vals1 !! t) as [v|] eqn:Ev; [|done]. simpl in H1. injection H1 as <-.
    destruct (IH (S t) later1) as (later & El12 & Hlater); [lia|done|].
    destruct (gae_loop_steps s1 vals1 f (S t) later1 El) as [Hlen1 _].
    assert (exists vn, vals !! S t = Some vn /\
              (S t < n1 -> vn = vn1)%nat) as (vn & Evn12 & Hvn).
    { destruct (decide (S t < n1)%nat) as [Hlt|Hge].
      - exists vn1. rewrite Hv by done. done.
      - assert (S t = n1) as -> by lia. destruct Hn1 as [vn Hvn]. exists vn.
        split; [done|]. lia. }
    cbn [Nat.add PPO.gae_loop]. rewrite El12. simpl.
    rewrite Hr, Er by lia. simpl. rewrite Evn12. simpl.
    rewrite Hd, Ed by lia. simpl. rewrite Hv, Ev by lia. simpl.
    eexists. split; [done|]. simpl. constructor; [|done].
    rewrite Hg, Hl.
    destruct (decide (S t < n1)%nat) as [Hlt|Hge].
    + rewrite (Hvn Hlt).
      assert (hd 0 later == hd 0 later1) as ->.
      { rewrite (Forall2_Qeq_hd _ _ Hlater).
        destruct later1 as [|g later1]; [simpl in Hlen1; lia|]. reflexivity. }
      reflexivity.
    + assert (d = true) as ->.
      { assert (S t = n1) as Hst by lia. rewrite (Hlast t Hst) in Ed. by injection Ed. }
      unfold PPO.done_flag. ring.
Qed.

Lemma Forall2_Qeq_zip_with_Qplus (xs ys vs : list Q) :
  Forall2 Qeq xs ys -> Forall2 Qeq (zip_with Qplus xs vs) (zip_with Qplus ys vs).
Proof.
  intros H. revert vs. induction H as [|x y xs ys Hxy _ IH]; intros vs; [constructor|].
  destruct vs as [|v vs]; [constructor|]. simpl. constructor; [by rewrite Hxy|apply IH].
Qed.

(** X23 (episodes do not mix).  When a rollout is an episode that ends
    with its done flag set, followed by further steps, [compute_gae] on
    the whole gives, up to the value of the numbers, the advantages and
    returns it gives on the episode alone followed by those it gives on
    the further steps alone: nothing after a terminal step reaches the
    advantages before it. *)
Theorem gae_episodes_do_not_mix (self : PPO.PPOAgent)
    (st1 st2 st : list (list Q)) (ac1 ac2 ac : list nat) (lp1 lp2 lp : list Q)
    (rw1 vl1 : list Q) (dn1 : list bool) (rw2 vl2 : list Q) (dn2 : list bool)
    (adv1 ret1 adv2 ret2 : list Q) :
  length vl1 = length rw1 -> length dn1 = length rw1 ->
  last dn1 = Some true ->
  PPO.compute_gae (PPO.with_trajectory self st1 ac1 rw1 vl1 lp1 dn1)
  = Some (adv1, ret1) ->
  PPO.compute_gae (PPO.with_trajectory self st2 ac2 rw2 vl2 lp2 dn2)
  = Some (adv2, ret2) ->
  exists adv ret,
    PPO.compute_gae
      (PPO.with_trajectory self st ac (rw1 ++ rw2) (vl1 ++ vl2) lp (dn1 ++ dn2))
    = Some (adv, ret) /\
    Forall2 Qeq adv (adv1 ++ adv2) /\
    Forall2 Qeq ret (ret1 ++ ret2).
Proof.
  intros Hv1 Hd1 Hlast. unfold PPO.compute_gae. simpl.
  destruct (PPO.gae_loop _ (vl1 ++ [0]) (length rw1) 0) as [a1|] eqn:E1; [|done].
  simpl. intros [= <- <-].
  destruct (PPO.gae_loop _ (vl2 ++ [0]) (length rw2) 0) as [a2|] eqn:E2; [|done].
  simpl. intros [= <- <-].
  set (s1 := PPO.with_trajectory self st1 ac1 rw1 vl1 lp1 dn1) in *.
  set (s2 := PPO.with_trajectory self st2 ac2 rw2 vl2 lp2 dn2) in *.
  set (s := PPO.with_trajectory self st ac (rw1 ++ rw2) (vl1 ++ vl2) lp (dn1 ++ dn2)).
  set (n1 := length rw1) in *.
  assert (PPO.gae_loop s ((vl1 ++ vl2) ++ [0]) (length rw2) n1 = Some a2) as E2'.
  { rewrite <- E2. rewrite <- (Nat.add_0_r n1).
    apply gae_loop_shift; try done; intros k; simpl.
    - by rewrite lookup_app_r, Nat.add_comm, Nat.add_sub by (unfold n1; lia).
    - rewrite lookup_app_r by lia. by rewrite Hd1, Nat.add_comm, Nat.add_sub.
    - rewrite <- app_assoc. rewrite lookup_app_r by lia.
      by rewrite Hv1, Nat.add_comm, Nat.add_sub. }
  destruct (gae_loop_prefix s s1 ((vl1 ++ vl2) ++ [0]) (vl1 ++ [0]) a2 n1 (length rw2))
    with (f1 := n1) (t := 0%nat) (a1 := a1) as (a & Ea & Ha); try done.
  - intros k Hk. simpl. by rewrite lookup_app_l by (unfold n1 in Hk; lia).
  - intros k Hk. simpl. by rewrite lookup_app_l by lia.
  - intros k Hk. rewrite <- app_assoc. by rewrite !lookup_app_l by lia.
  - apply lookup_lt_is_Some_2. rewrite !length_app. simpl. lia.
  - intros k Hk. simpl. rewrite last_lookup in Hlast.
    rewrite Hd1 in Hlast. fold n1 in Hlast. rewrite <- Hk in Hlast. exact Hlast.
  - rewrite length_app. fold n1. rewrite Ea. simpl.
    eexists _, _. split; [done|]. split; [done|].
    destruct (gae_loop_steps s1 _ _ _ _ E1) as [Hl1 _].
    assert (zip_with Qplus (a1 ++ a2) (vl1 ++ vl2)
            = zip_with Qplus a1 vl1 ++ zip_with Qplus a2 vl2) as <-.
    { apply zip_with_app. lia. }
    by apply Forall2_Qeq_zip_with_Qplus.
Qed.

Lemma clamp_inside lo hi x : lo <= x -> x <= hi -> PPO.clamp lo hi x == x.
Proof.
  intros H1 H2. unfold PPO.clamp. rewrite Q.max_l by done. by rewrite Q.min_l.
Qed.

Lemma clamp_above lo hi x : lo <= hi -> hi <= x -> PPO.clamp lo hi x == hi.
Proof.
  intros H1 H2. unfold PPO.clamp. rewrite Q.max_l by lra. by rewrite Q.min_r.
Qed.

Lemma clamp_below lo hi x : lo <= hi -> x <= lo -> PPO.clamp lo hi x == lo.
Proof.
  intros H1 H2. unfold PPO.clamp. rewrite Q.max_r by done. by rewrite Q.min_l.
Qed.

Lemma qsum_le (xs ys : list Q) : Forall2 Qle xs ys -> qsum xs <= qsum ys.
Proof. induction 1; simpl; lra. Qed.

Lemma mean_le (xs ys : list Q) : Forall2 Qle xs ys -> mean xs <= mean ys.
Proof.
  intros H. unfold mean. rewrite (Forall2_length _ _ _ H).
  set (n := inject_Z (Z.of_nat (length ys))).
  assert (0 <= / n) as Hn.
  { apply Qinv_le_0_compat. unfold n. rewrite <- (Zle_Qle 0). lia. }
  unfold Qdiv. apply Qmult_le_compat_r; [by apply qsum_le|done].
Qed.

(** X24 (the clipped surrogate).  In every epoch the probability ratio
    of a step is [exp] of the log-probability the current policy gives
    the stored action minus the stored old log-probability, and the
    policy loss is minus the mean over the rollout of
    [min(ratio * A, clamp(ratio, 1 - eps, 1 + eps) * A)].  With a clip
    range that is not negative the loss is never below the unclipped
    loss [-mean(ratio * A)], and the term of one step equals [ratio * A]
    inside the clip range and stops following the ratio where following
    it would raise the objective: it is [(1 + eps) * A] for a ratio
    above the range and [A >= 0], and [(1 - eps) * A] for a ratio below
    it and [A <= 0]. *)
Theorem PPO_policy_loss_clipped (self : PPO.PPOAgent) (n : PPO.ActorCriticNetwork)
    (masks : nat -> DropMasks) (ro : PPO.Rollout) (policy_loss value_loss entropy : Q) :
  0 <= PPO.epsilon_clip self ->
  PPO.epoch_losses self n masks ro = Some (policy_loss, value_loss, entropy) ->
  let eps := PPO.epsilon_clip self in
  exists curr_log_probs ratio terms,
    length curr_log_probs = length (PPO.r_advantages ro) /\
    length (PPO.r_old_log_probs ro) = length (PPO.r_advantages ro) /\
    (forall i c, curr_log_probs !! i = Some c ->
       exists state action logits value,
         PPO.r_states ro !! i = Some state /\
         PPO.r_actions ro !! i = Some action /\
         PPO.forward n (masks i) state = Some (logits, value) /\
         log_prob (softmax logits) action = Some c) /\
    ratio = zip_with (fun c o => exp (c - o)) curr_log_probs (PPO.r_old_log_probs ro) /\
    terms = zip_with (fun x a => Qmin (x * a) (PPO.clamp (1 - eps) (1 + eps) x * a))
              ratio (PPO.r_advantages ro) /\
    policy_loss = - mean terms /\
    - mean (zip_with Qmult ratio (PPO.r_advantages ro)) <= policy_loss /\
    forall i x a t,
      ratio !! i = Some x -> PPO.r_advantages ro !! i = Some a ->
      terms !! i = Some t ->
      0 <= x /\
      t <= x * a /\
      (1 - eps <= x -> x <= 1 + eps -> t == x * a) /\
      (0 <= a -> 1 + eps <= x -> t == (1 + eps) * a) /\
      (a <= 0 -> x <= 1 - eps -> t == (1 - eps) * a).
Proof.
  intros Heps H eps. unfold PPO.epoch_losses in H.
  destruct (mapM _ (zip (seq _ _) _)) as [outs|] eqn:Eo; [|done]. simpl in H.
  destruct (mapM _ outs) as [vals|]; [|done]. simpl in H.
  destruct (mapM _ (zip (map _ _) _)) as [curr|] eqn:Ec; [|done]. simpl in H.
  destruct (decide _) as [(Hl1 & Hl2 & Hl3)|]; [|done].
  injection H as <- _ _.
  set (ratio := zip_with (fun c o => exp (c - o)) curr (PPO.r_old_log_probs ro)).
  set (terms := zip_with
                  (fun x a => Qmin (x * a) (PPO.clamp (1 - eps) (1 + eps) x * a))
                  ratio (PPO.r_advantages ro)).
  exists curr, ratio, terms.
  split; [done|]. split; [lia|]. split.
  { intros i c Hc.
    apply mapM_Some in Ec. destruct (Forall2_lookup_r _ _ _ _ _ Ec Hc) as ([p a] & Hz & Hlp).
    apply lookup_zip_with_Some in Hz as (p' & a' & [= <- <-] & Hp & Ha).
    apply list_lookup_fmap_Some in Hp as (o & -> & Ho).
    apply mapM_Some in Eo. destruct (Forall2_lookup_r _ _ _ _ _ Eo Ho) as ([k s] & Hz & Hf).
    apply lookup_zip_with_Some in Hz as (k' & s' & [= <- <-] & Hk & Hs).
    apply lookup_seq in Hk as [-> _]. simpl in Hf.
    destruct o as [logits value]. by exists s, a, logits, value. }
  split; [done|]. split; [done|].
  assert (forall (xs advs : list Q),
    zip_with Qmin (zip_with Qmult xs advs)
      (zip_with (fun x a => PPO.clamp (1 - eps) (1 + eps) x * a) xs advs)
    = zip_with (fun x a => Qmin (x * a) (PPO.clamp (1 - eps) (1 + eps) x * a))
        xs advs) as Hfuse.
  { induction xs as [|x xs IH]; intros [|a advs]; simpl; [done..|]. by rewrite IH. }
  split; [unfold terms; by rewrite <- Hfuse|]. split.
  { fold ratio. rewrite Hfuse. apply Qopp_le_compat. apply mean_le.
    generalize (PPO.r_advantages ro). clear.
    induction ratio as [|x xs IH]; intros [|a advs]; simpl; constructor;
      [apply Q.le_min_l|apply IH]. }
  intros i x a t Hx Ha Ht. unfold terms in Ht.
  apply lookup_zip_with_Some in Ht as (x' & a' & -> & Hx' & Ha').
  assert (x' = x) as -> by congruence. assert (a' = a) as -> by congruence.
  fold eps in Heps. assert (1 - eps <= 1 + eps) as Hlohi by lra.
  split.
  { unfold ratio in Hx. apply lookup_zip_with_Some in Hx as (c & o & -> & _ & _).
    apply exp_nonneg. }
  split; [apply Q.le_min_l|]. split; [|split].
  - intros H1 H2. rewrite (clamp_inside _ _ _ H1 H2).
    rewrite Q.min_l; [reflexivity|apply Qle_refl].
  - intros Ha0 Hx0. rewrite (clamp_above _ _ _ Hlohi Hx0). rewrite Q.min_r; [reflexivity|].
    apply Qmult_le_compat_r; done.
  - intros Ha0 Hx0. rewrite (clamp_below _ _ _ Hlohi Hx0). rewrite Q.min_r; [reflexivity|].
    assert (0 <= (1 - eps - x) * (- a)) as Hp by (apply Qmult_le_0_compat; lra).
    assert ((1 - eps - x) * (- a) == x * a - (1 - eps) * a) as Hq by ring.
    rewrite Hq in Hp. lra.
Qed.
End PPORunFacts.

(** X21 on an episode of two training steps and one evaluation step. *)
Lemma PPO_buffers_stay_aligned_witness :
  exists self,
    @Calls.ppo_run Sample.backend Sample.ppo_step
      (PPO.PPOAgent_init 1 2 Sample.ppo_hyper Sample.zeros) Scenario.ppo_calls
    = Some self /\
    length (PPO.actions self) = length (PPO.states self) /\
    length (PPO.values self) = length (PPO.states self) /\
    length (PPO.log_probs self) = length (PPO.states self) /\
    length (PPO.dones self) = length (PPO.rewards self).
Proof.
  destruct (@Calls.ppo_run Sample.backend Sample.ppo_step
              (PPO.PPOAgent_init 1 2 Sample.ppo_hyper Sample.zeros) Scenario.ppo_calls)
    as [self|] eqn:E; [|vm_compute in E; discriminate E].
  exists self. split; [reflexivity|].
  exact (@PPO_buffers_stay_aligned Sample.backend Sample.ppo_step
           1 2 Sample.ppo_hyper Sample.zeros Scenario.ppo_calls self E).
Defined.

(** X22 on the rollout of two steps. *)
Lemma compute_gae_needs_a_value_per_reward_witness :
  let self := Sample.ppo_rollout in
  length (PPO.dones self) = length (PPO.rewards self) /\
  (is_Some (PPO.compute_gae self) <->
   length (PPO.rewards self) <= length (PPO.values self)) /\
  forall advantages returns,
    PPO.compute_gae self = Some (advantages, returns) ->
    length advantages = length (PPO.rewards self) /\
    length returns = length (PPO.rewards self).
Proof.
  intros self.
  assert (length (PPO.dones self) = length (PPO.rewards self)) as H by reflexivity.
  split; [exact H|].
  exact (compute_gae_needs_a_value_per_reward self H).
Defined.

(** X23 on an episode of one terminal step followed by one further
    step. *)
Lemma gae_episodes_do_not_mix_witness :
  let self := Sample.ppo in
  let first := PPO.with_trajectory self [] [] [1%Q] [(1 # 2)%Q] [] [true] in
  let second := PPO.with_trajectory self [] [] [2%Q] [(1 # 4)%Q] [] [false] in
  exists adv1 ret1 adv2 ret2,
    (last [true] = Some true /\
     PPO.compute_gae first = Some (adv1, ret1) /\
     PPO.compute_gae second = Some (adv2, ret2)) /\
    exists adv ret,
      PPO.compute_gae
        (PPO.with_trajectory self [] [] ([1%Q] ++ [2%Q]) ([(1 # 2)%Q] ++ [(1 # 4)%Q]) []
           ([true] ++ [false]))
      = Some (adv, ret) /\
      Forall2 Qeq adv (adv1 ++ adv2) /\
      Forall2 Qeq ret (ret1 ++ ret2).
Proof.
  intros self first second.
  destruct (PPO.compute_gae first) as [[adv1 ret1]|] eqn:E1;
    [|vm_compute in E1; discriminate E1].
  destruct (PPO.compute_gae second) as [[adv2 ret2]|] eqn:E2;
    [|vm_compute in E2; discriminate E2].
  exists adv1, ret1, adv2, ret2. split; [exact (conj eq_refl (conj eq_refl eq_refl))|].
  exact (gae_episodes_do_not_mix self [] [] [] [] [] [] [] [] []
           [1%Q] [(1 # 2)%Q] [true] [2%Q] [(1 # 4)%Q] [false]
           adv1 ret1 adv2 ret2 eq_refl eq_refl eq_refl E1 E2).
Defined.

(** X24 on a rollout of one step. *)
Lemma PPO_policy_loss_clipped_witness :
  let self := Scenario.small_ppo in
  let masks := fun _ : nat => Sample.keep_all in
  let ro := Scenario.rollout in
  let eps := PPO.epsilon_clip self in
  exists policy_loss value_loss entropy,
    ((0 <= PPO.epsilon_clip self)%Q /\
     PPO.epoch_losses self (PPO.policy self) masks ro
     = Some (policy_loss, value_loss, entropy)) /\
    exists curr_log_probs ratio terms,
      length curr_log_probs = length (PPO.r_advantages ro) /\
      length (PPO.r_old_log_probs ro) = length (PPO.r_advantages ro) /\
      (forall i c, curr_log_probs !! i = Some c ->
         exists state action logits value,
           PPO.r_states ro !! i = Some state /\
           PPO.r_actions ro !! i = Some action /\
           PPO.forward (PPO.policy self) (masks i) state = Some (logits, value) /\
           @Torch.log_prob Sample.backend (@Torch.softmax Sample.backend logits) action
           = Some c) /\
      ratio = zip_with (fun c o => @Torch.exp Sample.backend (c - o)%Q) curr_log_probs
                (PPO.r_old_log_probs ro) /\
      terms = zip_with
                (fun x a => Qmin (x * a) (PPO.clamp (1 - eps) (1 + eps) x * a))
                ratio (PPO.r_advantages ro) /\
      policy_loss = (- Tensor.mean terms)%Q /\
      (- Tensor.mean (zip_with Qmult ratio (PPO.r_advantages ro)) <= policy_loss)%Q /\
      forall i x a t,
        ratio !! i = Some x -> PPO.r_advantages ro !! i = Some a ->
        terms !! i = Some t ->
        (0 <= x)%Q /\
        (t <= x * a)%Q /\
        ((1 - eps <= x)%Q -> (x <= 1 + eps)%Q -> (t == x * a)%Q) /\
        ((0 <= a)%Q -> (1 + eps <= x)%Q -> (t == (1 + eps) * a)%Q) /\
        ((a <= 0)%Q -> (x <= 1 - eps)%Q -> (t == (1 - eps) * a)%Q).
Proof.
  intros self masks ro eps.
  destruct (PPO.epoch_losses self (PPO.policy self) masks ro)
    as [[[policy_loss value_loss] entropy]|] eqn:E; [|vm_compute in E; discriminate E].
  assert (0 <= PPO.epsilon_clip self)%Q as H0 by (vm_compute; discriminate).
  exists policy_loss, value_loss, entropy. split; [exact (conj H0 eq_refl)|].
  exact (PPO_policy_loss_clipped self (PPO.policy self) masks ro
           policy_loss value_loss entropy H0 E).
Defined.

(** *** models/policy_gradient.py, models/actor_critic.py: the returns of an episode *)

Section ReturnsFacts.
Import Tensor Torch.
Local Open Scope Q_scope.
Context `{B : Backend} {PS : PolicyGradient.PolicyStep}.

(** [sum over k of gamma^(j+k) * rewards[k]] *)
Local Abbreviation discounted_sum gamma j rewards :=
  (qsum (zip_with (fun k r => gamma ^ Z.of_nat k * r) (seq j (length rewards)) rewards)).

Lemma discounted_sum_shift gamma rewards : forall j,
  discounted_sum gamma (S j) rewards == gamma * discounted_sum gamma j rewards.
Proof.
  induction rewards as [|r rest IH]; intros j; simpl; [ring|].
  rewrite (IH (S j)).
  assert (gamma ^ Z.of_nat (S j) == gamma * gamma ^ Z.of_nat j) as ->.
  { rewrite Nat2Z.inj_succ, <- Z.add_1_l. rewrite Qpower_plus' by lia. simpl. ring. }
  ring.
Qed.

Lemma length_discounted_returns gamma (rewards : list Q) :
  length (discounted_returns gamma rewards) = length rewards.
Proof. induction rewards as [|r rest IH]; simpl; [done|]. by rewrite IH. Qed.

(** X25 (discounted returns).  The backward loop over the rewards of an
    episode yields one return per reward, and the return of step [t]
    equals [sum over k >= 0 of gamma^k * rewards[t + k]]. *)
Theorem discounted_returns_closed_form (gamma : Q) (rewards : list Q) :
  length (discounted_returns gamma rewards) = length rewards /\
  forall t G, discounted_returns gamma rewards !! t = Some G ->
    G == qsum (zip_with (fun k r => gamma ^ Z.of_nat k * r)
                 (seq 0 (length rewards - t)) (drop t rewards)).
Proof.
  split; [apply length_discounted_returns|].
  induction rewards as [|r rest IH]; intros t G Ht;
    [simpl in Ht; by rewrite lookup_nil in Ht|].
  cbn [discounted_returns] in Ht. destruct t as [|t].
  - simpl in Ht. injection Ht as <-. rewrite Nat.sub_0_r, drop_0.
    cbn [length seq zip_with qsum].
    rewrite (discounted_sum_shift gamma rest 0).
    assert (hd 0 (discounted_returns gamma rest) == discounted_sum gamma 0 rest) as ->.
    { destruct rest as [|r' rest']; [simpl; reflexivity|].
      rewrite (IH 0%nat (hd 0 (discounted_returns gamma (r' :: rest')))) by done.
      by rewrite Nat.sub_0_r, drop_0. }
    simpl. ring.
  - simpl in Ht. simpl. by apply IH.
Qed.

Lemma length_standardize (xs : list Q) : length (standardize xs) = length xs.
Proof. unfold standardize. by rewrite length_map. Qed.

(** X26 (REINFORCE without a saved log-probability).  With a reward
    stored, [train_step] raises when no action was selected in training
    mode since the last update (there is nothing to stack), and
    otherwise returns, having emptied both episode buffers and kept the
    discount factor and the sizes. *)
Theorem PG_train_step_outcome (self : PolicyGradient.PolicyGradientAgent) :
  PolicyGradient.rewards self <> [] ->
  (PolicyGradient.saved_log_probs self = [] ->
   PolicyGradient.train_step self = None) /\
  (PolicyGradient.saved_log_probs self <> [] ->
   exists loss self',
     PolicyGradient.train_step self = Some (loss, self') /\
     PolicyGradient.rewards self' = [] /\
     PolicyGradient.saved_log_probs self' = [] /\
     PolicyGradient.gamma self' = PolicyGradient.gamma self /\
     PolicyGradient.state_size self' = PolicyGradient.state_size self /\
     PolicyGradient.action_size self' = PolicyGradient.action_size self).
Proof.
  intros Hr. unfold PolicyGradient.train_step.
  assert ((length (PolicyGradient.rewards self) =? 0)%nat = false) as ->.
  { apply Nat.eqb_neq. by destruct (PolicyGradient.rewards self). }
  split.
  - intros ->. done.
  - intros Hs.
    destruct (zip_with _ (PolicyGradient.saved_log_probs self) _) as [|p ps] eqn:Ez.
    + exfalso. apply (f_equal length) in Ez. rewrite length_zip_with in Ez.
      rewrite length_standardize, length_discounted_returns in Ez. simpl in Ez.
      destruct (PolicyGradient.saved_log_probs self), (PolicyGradient.rewards self);
        simpl in Ez; done.
    + destruct (PolicyGradient.policy_step _ _ _ _) as [policy' opt'].
      by eexists _, _.
Qed.
End ReturnsFacts.

(** X26 on a REINFORCE agent that holds one step of an episode. *)
Lemma PG_train_step_outcome_witness :
  let self := Scenario.episode_pg in
  PolicyGradient.rewards self <> [] /\
  (PolicyGradient.saved_log_probs self = [] ->
   @PolicyGradient.train_step Sample.backend Sample.policy_step self = None) /\
  (PolicyGradient.saved_log_probs self <> [] ->
   exists loss self',
     @PolicyGradient.train_step Sample.backend Sample.policy_step self
     = Some (loss, self') /\
     PolicyGradient.rewards self' = [] /\
     PolicyGradient.saved_log_probs self' = [] /\
     PolicyGradient.gamma self' = PolicyGradient.gamma self /\
     PolicyGradient.state_size self' = PolicyGradient.state_size self /\
     PolicyGradient.action_size self' = PolicyGradient.action_size self).
Proof.
  intros self.
  assert (PolicyGradient.rewards self <> []) as H.
  { intros H. vm_compute in H. discriminate H. }
  split; [exact H|].
  exact (@PG_train_step_outcome Sample.backend Sample.policy_step self H).
Defined.

(** *** models/gnn.py: build_circuit_graph *)

Section CircuitGraphFacts.
Import CircuitGraph.
Local Open Scope string_scope.

Lemma before_underscore_clean s : contains_underscore (before_underscore s) = false.
Proof.
  induction s as [|c s IH]; simpl; [done|].
  destruct (Ascii.eqb c "_") eqn:E; simpl; [done|]. by rewrite E.
Qed.

Lemma find_cell_Some cells id : forall i k,
  find_cell cells id i = Some k ->
  (i <= k)%nat /\
  exists cell, cells !! (k - i)%nat = Some cell /\ cell_id cell = id /\
    forall j other, (j < k - i)%nat -> cells !! j = Some other -> cell_id other <> id.
Proof.
  induction cells as [|cell rest IH]; intros i k H; simpl in H; [done|].
  destruct (String.eqb (cell_id cell) id) eqn:E.
  - injection H as <-. split; [lia|]. exists cell. rewrite Nat.sub_diag.
    apply String.eqb_eq in E. split; [done|]. split; [done|]. intros j other Hj. lia.
  - apply String.eqb_neq in E. destruct (IH (S i) k H) as (Hle & c & Hc & Hid & Hfirst).
    split; [lia|]. exists c. replace (k - i)%nat with (S (k - S i)) by lia.
    split; [done|]. split; [done|].
    intros [|j] other Hj Ho; simpl in Ho; [by injection Ho as <-|].
    apply (Hfirst j); [lia|done].
Qed.

Lemma elem_of_net_cell_ids cells net a :
  a ∈ net_cell_ids cells net ->
  exists pin cell,
    pin ∈ net_pins net /\ cells !! a = Some cell /\
    cell_id cell = before_underscore pin /\
    contains_underscore (cell_id cell) = false /\
    forall j other, (j < a)%nat -> cells !! j = Some other ->
      cell_id other <> before_underscore pin.
Proof.
  unfold net_cell_ids. rewrite list_elem_of_omap. intros (pin & Hpin & Hf).
  destruct (find_cell_Some _ _ _ _ Hf) as (_ & cell & Hc & Hid & Hfirst).
  rewrite Nat.sub_0_r in Hc, Hfirst.
  exists pin, cell. repeat split; try done. rewrite Hid. apply before_underscore_clean.
Qed.

Lemma elem_of_pairs (a : nat) rest e :
  e ∈ flat_map (fun b => [(a, b); (b, a)]) rest <->
  exists b, b ∈ rest /\ (e = (a, b) \/ e = (b, a)).
Proof.
  rewrite list_elem_of_In, in_flat_map. split.
  - intros (b & Hb & He). exists b. rewrite list_elem_of_In. split; [done|].
    simpl in He. destruct He as [<-|[<-|[]]]; auto.
  - intros (b & Hb & He). exists b. rewrite <- list_elem_of_In. split; [done|].
    simpl. destruct He as [->| ->]; auto.
Qed.

Lemma elem_of_clique ids a b :
  (a, b) ∈ clique ids -> (b, a) ∈ clique ids /\ a ∈ ids /\ b ∈ ids.
Proof.
  induction ids as [|c rest IH]; simpl; [by intros ?%elem_of_nil|].
  rewrite !elem_of_app, !elem_of_pairs. intros [(d & Hd & He)|H].
  - split; [left; exists d; split; [done|]; destruct He as [[= -> ->]|[= -> ->]]; auto|].
    destruct He as [[= -> ->]|[= -> ->]]; split; (by left) || (by right).
  - destruct (IH H) as (H1 & H2 & H3). split; [by right|]. split; by right.
Qed.

Lemma length_pairs (a : nat) rest :
  length (flat_map (fun b => [(a, b); (b, a)]) rest) = (2 * length rest)%nat.
Proof. induction rest as [|b rest IH]; simpl; [done|]. rewrite IH. lia. Qed.

Lemma length_clique ids :
  length (clique ids) = (length ids * (length ids - 1))%nat.
Proof.
  induction ids as [|a rest IH]; simpl; [done|].
  rewrite length_app, length_pairs, IH. rewrite Nat.sub_0_r.
  destruct (length rest) as [|n]; simpl; [done|]. rewrite Nat.sub_0_r. nia.
Qed.

Lemma lookup_flat_map_aligned {A B C} (f : A -> list B) (g : A -> list C) (l : list A) :
  (forall x, x ∈ l -> length (g x) = length (f x)) ->
  forall k e, flat_map f l !! k = Some e ->
    exists x i, x ∈ l /\ f x !! i = Some e /\
      flat_map g l !! k = g x !! i.
Proof.
  induction l as [|x l IH]; intros Hlen k e Hk; simpl in Hk; [by rewrite lookup_nil in Hk|].
  assert (length (g x) = length (f x)) as Hx by (apply Hlen; by left).
  simpl. destruct (decide (k < length (f x))%nat) as [Hlt|Hge].
  - rewrite lookup_app_l in Hk by done. exists x, k. split; [by left|]. split; [done|].
    by rewrite lookup_app_l by lia.
  - rewrite lookup_app_r in Hk by lia.
    destruct (IH (fun y Hy => Hlen y (list_elem_of_further _ _ _ Hy)) _ _ Hk)
      as (y & i & Hy & Hfi & Hgi).
    exists y, i. split; [by right|]. split; [done|].
    rewrite lookup_app_r by lia. by rewrite Hx.
Qed.

(** X27 (the edges of the circuit graph).  The graph has one node and one
    feature row per cell.  Every edge comes with its reverse; its
    endpoints are cells, each the first cell whose id is what precedes
    the first underscore of some pin of a net, so that a cell whose id
    holds an underscore never gets an edge.  A net whose pins reach [k]
    cells contributes [k * (k - 1)] edges.  The edge attribute is absent
    exactly when there is no edge, and otherwise holds one weight per
    edge, the weight of the net the edge comes from. *)
Theorem circuit_graph_edges (cells : list Cell) (nets : list Net) :
  let g := build_circuit_graph cells nets in
  num_nodes g = length cells /\
  length (x g) = length cells /\
  (forall a b, (a, b) ∈ edge_index g ->
     (b, a) ∈ edge_index g /\
     exists net pin cell,
       net ∈ nets /\ pin ∈ net_pins net /\
       cells !! a = Some cell /\ cell_id cell = before_underscore pin /\
       contains_underscore (cell_id cell) = false /\
       forall j other, (j < a)%nat -> cells !! j = Some other ->
         cell_id other <> cell_id cell) /\
  length (edge_index g)
  = sum_list_with (fun net =>
      let k := length (net_cell_ids cells net) in (k * (k - 1))%nat) nets /\
  (edge_attr g = None <-> edge_index g = []) /\
  (forall weights, edge_attr g = Some weights ->
     length weights = length (edge_index g) /\
     forall k e, edge_index g !! k = Some e ->
       exists net, net ∈ nets /\ e ∈ clique (net_cell_ids cells net) /\
         weights !! k = Some (net_weight net)).
Proof.
  intros g. unfold g, build_circuit_graph. cbn [num_nodes x edge_index edge_attr].
  set (edges := flat_map (fun net => clique (net_cell_ids cells net)) nets).
  set (ws := flat_map (fun net => replicate (length (clique (net_cell_ids cells net)))
                                   (net_weight net)) nets).
  assert (length ws = length edges) as Hlen.
  { unfold ws, edges. clear. induction nets as [|net nets IH]; simpl; [done|].
    by rewrite !length_app, length_replicate, IH. }
  split; [done|]. split; [by rewrite length_map|]. split; [|split; [|split]].
  - intros a b Hab. unfold edges in *.
    rewrite list_elem_of_In in Hab. apply in_flat_map in Hab as (net & Hnet & Hin).
    apply list_elem_of_In in Hnet. simpl in Hin. apply list_elem_of_In in Hin.
    destruct (elem_of_clique _ _ _ Hin) as (Hba & Ha & Hb). split.
    + rewrite list_elem_of_In. apply in_flat_map. exists net.
      split; by apply list_elem_of_In.
    + destruct (elem_of_net_cell_ids _ _ _ Ha)
        as (pin & cell & Hpin & Hc & Hid & Hclean & Hfirst).
      exists net, pin, cell. repeat split; try done. rewrite Hid. apply Hfirst.
  - unfold edges. clear. induction nets as [|net nets IH]; simpl; [done|].
    by rewrite length_app, length_clique, IH.
  - destruct (0 <? length ws)%nat eqn:E.
    + apply Nat.ltb_lt in E. split; [done|]. intros He. rewrite He in Hlen. simpl in Hlen. lia.
    + apply Nat.ltb_ge in E. split; [|done]. intros _.
      destruct edges; [done|]. simpl in Hlen. lia.
  - intros weights Hw. destruct (0 <? length ws)%nat; [|done]. injection Hw as <-.
    split; [done|]. intros k e Hk.
    destruct (lookup_flat_map_aligned
                (fun net => clique (net_cell_ids cells net))
                (fun net => replicate (length (clique (net_cell_ids cells net)))
                                      (net_weight net)) nets) with (k := k) (e := e)
      as (net & i & Hnet & Hi & Hwi); [|done|].
    { intros net _. apply length_replicate. }
    exists net. split; [done|]. split; [by eapply list_elem_of_lookup_2|].
    fold ws in Hwi. rewrite Hwi. apply lookup_replicate_2. by eapply lookup_lt_Some.
Qed.
End CircuitGraphFacts.

(** The graph of three cells and one net over the pins of all three: the
    pin of the cell [pad_2] names the id [pad], which no cell has, so the
    net reaches two cells and gives two edges. *)
Example circuit_graph_of_three_cells :
  let g := CircuitGraph.build_circuit_graph Scenario.cells Scenario.nets in
  CircuitGraph.num_nodes g = 3 /\
  CircuitGraph.x g = [[2; 1; 2; 1; 0; 0]; [4; 4; 1; 0; 1; 0]; [1; 1; 1; 0; 0; 1]]%Q /\
  CircuitGraph.edge_index g = [(0, 1); (1, 0)] /\
  CircuitGraph.edge_attr g = Some [(3 # 2)%Q; (3 # 2)%Q].
Proof. repeat split; vm_compute; reflexivity. Qed.

(** *** models/policy_gradient.py, models/actor_critic.py, models/ppo.py: select_action *)

Section PolicySamplingFacts.
Import Tensor Torch.
Local Open Scope Q_scope.
Context `{B : Backend} {VS : DQN.ValueStep}
        {PS : PolicyGradient.PolicyStep}
        {ACS : ActorCritic.ActorCriticStep} {PPS : PPO.PPOStep}.

End PolicySamplingFacts.


(** The same call run: the three free slots share the mass, and the draw
    1/2 lands on the second of them. *)
Example select_action_of_three_free_slots :
  fst <$> Agent.select_action (@Agent.OfPPO Sample.backend Sample.ppo)
            (replicate Sample.state_size 0%Q) [3; 17; 42] true (Sample.draw (1 # 2))
  = Some 17.
Proof. vm_compute. reflexivity. Qed.
